(** * modbusproxy_cpe_cb: register blocks, remote-store bridge and template parser

    A shallow embedding of [store.py] and [context.py].  Python objects that
    are mutated in place (the block caches, the parser's descriptor list, the
    logger, the remote collection) are threaded through a small
    state-and-exception monad; Python exceptions are values of [exn]. *)

From Stdlib Require Import ZArith String Ascii List Bool Lia.
From stdpp Require Import base option list gmap strings.

Local Open Scope Z_scope.

(** ** Python runtime: exceptions, results, state *)

Inductive exn : Type :=
| IndexError
| KeyError
| ValueError
| TypeError
| ParameterException
| NoSuchSlaveException.

Inductive result (A : Type) : Type :=
| Ok (a : A)
| Raise (e : exn).
Arguments Ok {A} a.
Arguments Raise {A} e.

Definition is_ok {A} (r : result A) : bool :=
  match r with Ok _ => true | Raise _ => false end.

(** A computation over a mutable state [S].  The state that is returned with
    [Raise] is the state at the moment the exception left the function:
    Python does not roll back the mutations done before a raise. *)
Definition M (S A : Type) : Type := S -> result A * S.

Definition ret {S A} (a : A) : M S A := fun s => (Ok a, s).

Definition raise {S A} (e : exn) : M S A := fun s => (Raise e, s).

Definition bind {S A B} (c : M S A) (k : A -> M S B) : M S B :=
  fun s => match c s with
           | (Ok a, s') => k a s'
           | (Raise e, s') => (Raise e, s')
           end.

Definition lift {S A} (r : result A) : M S A := fun s => (r, s).

Definition get {S} : M S S := fun s => (Ok s, s).

Definition modify {S} (f : S -> S) : M S unit := fun s => (Ok tt, f s).

Declare Scope py_scope.
Delimit Scope py_scope with py.
Notation "x <- c ;; k" := (bind c (fun x => k))
  (at level 20, c at level 99, k at level 200, only parsing) : py_scope.
Notation "' p <- c ;; k" := (bind c (fun x => let 'p := x in k))
  (at level 20, p pattern, c at level 99, k at level 200, only parsing) : py_scope.
Notation "c ;;; k" := (bind c (fun _ => k))
  (at level 100, k at level 200, only parsing, right associativity) : py_scope.
Local Open Scope py_scope.

(** [for x in xs: body] with the loop-carried locals in [acc]. *)
Fixpoint for_fold {S A B} (body : B -> A -> M S B) (xs : list A) (acc : B) : M S B :=
  match xs with
  | [] => ret acc
  | x :: xs' => acc' <- body acc x ;; for_fold body xs' acc'
  end.

(** [for x in xs: body] where the body only mutates the state. *)
Fixpoint for_each {S A} (body : A -> M S unit) (xs : list A) : M S unit :=
  match xs with
  | [] => ret tt
  | x :: xs' => body x ;;; for_each body xs'
  end.

(** Run a computation on one component of a pair state. *)
Definition on_snd {S1 S2 A} (c : M S2 A) : M (S1 * S2) A :=
  fun s => let '(r, s2) := c (snd s) in (r, (fst s, s2)).

Definition on_fst {S1 S2 A} (c : M S1 A) : M (S1 * S2) A :=
  fun s => let '(r, s1) := c (fst s) in (r, (s1, snd s)).

(** ** Python lists indexed by integers *)

Definition len {A} (l : list A) : Z := Z.of_nat (List.length l).

(** [range(a, b)]. *)
Definition py_range (a b : Z) : list Z :=
  map (fun k => a + Z.of_nat k) (seq 0 (Z.to_nat (b - a))).

(** Position designated by subscript [i]: negative subscripts count from the
    end; [None] is out of range. *)
Definition py_index (n i : Z) : option nat :=
  if 0 <=? i then (if i <? n then Some (Z.to_nat i) else None)
  else if 0 <=? n + i then Some (Z.to_nat (n + i)) else None.

(** [l[i]] *)
Definition py_getitem {A} (l : list A) (i : Z) : result A :=
  match py_index (len l) i with
  | Some k => match l !! k with Some x => Ok x | None => Raise IndexError end
  | None => Raise IndexError
  end.

(** [l[i] = x] *)
Definition py_setitem {A} (l : list A) (i : Z) (x : A) : result (list A) :=
  match py_index (len l) i with
  | Some k => Ok (<[k := x]> l)
  | None => Raise IndexError
  end.

(** Bound of a slice or of [list.insert]: clamped into [0, len]. *)
Definition py_clamp (n i : Z) : nat :=
  if i <? 0 then Z.to_nat (Z.max 0 (n + i)) else Z.to_nat (Z.min i n).

(** [l.insert(i, x)] *)
Definition py_insert {A} (l : list A) (i : Z) (x : A) : list A :=
  let k := py_clamp (len l) i in take k l ++ x :: drop k l.

(** [l[start:stop]] *)
Definition py_getslice {A} (l : list A) (start stop : Z) : list A :=
  let a := py_clamp (len l) start in
  let b := py_clamp (len l) stop in
  take (b - a)%nat (drop a l).

(** [l[start:stop] = new] *)
Definition py_setslice {A} (l : list A) (start stop : Z) (new : list A) : list A :=
  let a := py_clamp (len l) start in
  let b := py_clamp (len l) stop in
  take a l ++ new ++ drop (Nat.max a b) l.

(** A value that is either a Python list or a Python dict keyed by integers:
    [read_collection_data] returns one or the other, and the callers use
    [len], subscripting and iteration on whichever they get. *)
Inductive container (V : Type) : Type :=
| PyList (l : list V)
| PyDict (d : gmap Z V).
Arguments PyList {V} l.
Arguments PyDict {V} d.

Definition c_len {V} (c : container V) : Z :=
  match c with
  | PyList l => len l
  | PyDict d => Z.of_nat (size d)
  end.

Definition c_getitem {V} (c : container V) (i : Z) : result V :=
  match c with
  | PyList l => py_getitem l i
  | PyDict d => match d !! i with Some v => Ok v | None => Raise KeyError end
  end.

(** [for x in c]: a list yields its elements, a dict its keys. *)
Definition c_iter (c : container Z) : list Z :=
  match c with
  | PyList l => l
  | PyDict d => (map_to_list d).*1
  end.

(** [[f(x) for x in xs]] *)
Fixpoint list_comp {S A B} (f : A -> M S B) (xs : list A) : M S (list B) :=
  match xs with
  | [] => ret []
  | x :: xs' => y <- f x ;; ys <- list_comp f xs' ;; ret (y :: ys)
  end.

(** [sorted(l)] and [l.sort()]: a stable sort for the order [le]. *)
Fixpoint insert_by {A} (le : A -> A -> bool) (x : A) (l : list A) : list A :=
  match l with
  | [] => [x]
  | y :: l' => if le x y then x :: l else y :: insert_by le x l'
  end.

Definition sorted {A} (le : A -> A -> bool) (l : list A) : list A :=
  fold_right (insert_by le) [] l.

(** [sorted(l, key=...)] on an integer key. *)
Definition sorted_by_key {A} (key : A -> Z) (l : list A) : list A :=
  sorted (fun x y => key x <=? key y) l.

(** ** Python strings *)

Definition is_space (c : ascii) : bool :=
  let n := nat_of_ascii c in
  ((n =? 32) || ((9 <=? n) && (n <=? 13)))%nat.

Fixpoint lstrip (s : string) : string :=
  match s with
  | EmptyString => EmptyString
  | String c r => if is_space c then lstrip r else s
  end.

Fixpoint rstrip (s : string) : string :=
  match s with
  | EmptyString => EmptyString
  | String c r =>
      match rstrip r with
      | EmptyString => if is_space c then EmptyString else String c EmptyString
      | r' => String c r'
      end
  end.

(** [s.strip()] *)
Definition strip (s : string) : string := rstrip (lstrip s).

(** [s.lower()] *)
Fixpoint lower (s : string) : string :=
  match s with
  | EmptyString => EmptyString
  | String c r =>
      let n := nat_of_ascii c in
      String (if ((65 <=? n) && (n <=? 90))%nat then ascii_of_nat (n + 32) else c)
             (lower r)
  end.

(** [s[n:]] *)
Fixpoint str_from (n : nat) (s : string) : string :=
  match n, s with
  | O, _ => s
  | S n', String _ r => str_from n' r
  | S _, EmptyString => EmptyString
  end.

(** [s[0:len(tag)] == tag] *)
Definition has_tag (tag s : string) : bool :=
  String.eqb (substring 0 (String.length tag) s) tag.

(** [s[len(tag) + 1:]] *)
Definition after_tag (tag s : string) : string :=
  str_from (String.length tag + 1) s.

(** [s.split(sep)] for a one-character separator. *)
Fixpoint split (sep : ascii) (s : string) : list string :=
  match s with
  | EmptyString => [EmptyString]
  | String c r =>
      if Ascii.eqb c sep then EmptyString :: split sep r
      else match split sep r with
           | h :: t => String c h :: t
           | [] => [String c EmptyString]
           end
  end.

(** [s.splitlines()] for a byte string: the line boundaries are LF, CR and
    CR LF, and a final line boundary does not open a new line.  (A unicode
    string has a few more, rarer boundaries; no property below depends on
    which characters end a line.) *)
Fixpoint splitlines (s : string) : list string :=
  match s with
  | EmptyString => []
  | String c r =>
      if Ascii.eqb c "010" then EmptyString :: splitlines r
      else if Ascii.eqb c "013" then
        EmptyString :: match r with
                       | String c' r' => if Ascii.eqb c' "010" then splitlines r'
                                         else splitlines r
                       | EmptyString => []
                       end
      else match splitlines r with
           | h :: t => String c h :: t
           | [] => [String c EmptyString]
           end
  end.

Definition digit (c : ascii) : option Z :=
  let n := nat_of_ascii c in
  if ((48 <=? n) && (n <=? 57))%nat then Some (Z.of_nat (n - 48)) else None.

Fixpoint digits (acc : Z) (s : string) : result Z :=
  match s with
  | EmptyString => Ok acc
  | String c r =>
      match digit c with
      | Some d => digits (10 * acc + d) r
      | None => Raise ValueError
      end
  end.

(** [int(s)] on a string: optional surrounding whitespace, an optional sign
    and at least one decimal digit; anything else is a [ValueError]. *)
Definition py_int (s : string) : result Z :=
  match strip s with
  | EmptyString => Raise ValueError
  | String c r =>
      if Ascii.eqb c "-" then
        match r with
        | EmptyString => Raise ValueError
        | _ => match digits 0 r with Ok z => Ok (- z) | Raise e => Raise e end
        end
      else if Ascii.eqb c "+" then
        match r with
        | EmptyString => Raise ValueError
        | _ => digits 0 r
        end
      else digits 0 (String c r)
  end.

(** ** constants.py *)

Definition TYPE_HOLDING_REGISTER : string := "hr".
Definition TYPE_INPUT_REGISTER : string := "ir".
Definition TYPE_DISCRETE_INPUT : string := "di".
Definition TYPE_COIL : string := "co".
Definition REGISTER_TYPES : list string :=
  [TYPE_HOLDING_REGISTER; TYPE_INPUT_REGISTER; TYPE_DISCRETE_INPUT; TYPE_COIL].

Definition TEMPLATE_PARSER_DESC : string := "/*DEVICE;".
Definition TEMPLATE_PARSER_NETWORK : string := "deviceId".
Definition TEMPLATE_PARSER_REGISTER_DEF : string := "paramId".
Definition TEMPLATE_PARSER_REG_UID : string := "paramId".
Definition TEMPLATE_PARSER_REG_ADDRESS : string := "address".
Definition TEMPLATE_PARSER_SEPARATOR : ascii := ";"%char.
Definition TEMPLATE_PARSER_SLAVE_ID : string := "networkId".
Definition TEMPLATE_PARSER_NOT_ZERO_MODE : string := "plcBaseAddress".
Definition TEMPLATE_PARSER_SPARSE_MODE : string := "sparse".
Definition TEMPLATE_PARSER_REG_TYPE : string := "registerType".
Definition TEMPLATE_PARSER_TYPE_HOLDING_REGISTER : string := "holding".
Definition TEMPLATE_PARSER_TYPE_INPUT_REGISTER : string := "analog".
Definition TEMPLATE_PARSER_TYPE_DISCRETE_INPUT : string := "input".
Definition TEMPLATE_PARSER_TYPE_COIL : string := "coil".

(** [x in l] for strings. *)
Definition str_in (x : string) (l : list string) : bool :=
  existsb (String.eqb x) l.

(** ** The logger and the remote store *)

Inductive level : Type := DEBUG | INFO | WARNING | ERROR.

(** One constructor per format string of the two modules. *)
Inductive message : Type :=
| RegisterCountMismatch (requested returned : Z)
| GotRowsExpecting (rows registers : Z)
| FillingRegister (register_type : string) (addr fill : Z)
| NoProxyAddress
| SlaveContextComplete (ip_proxy : string)
| InvalidSlaveId (id : Z)
| InvalidAddress (num : Z)
| UnsupportedRegisterType (token : string)
| QueryingByAddress (ip_address : string)
| QueryingBySlaveId
| FoundRows (n : Z)
| DuplicateSlaveId (slave_id : Z).

Definition timestamp : Type := string.

(** A row of the data collection ([ModbusProxyData]). *)
Record item : Type := {
  COL_PROXY_IP_ADDRESS : string;
  COL_SLAVE_ID : Z;
  COL_REG_TYPE : string;
  COL_REG_ADDRESS : Z;
  COL_REG_DATA : Z;
  COL_DATA_TIMESTAMP : option timestamp
}.

(** Filters of a [Query] on the data collection. *)
Inductive condition : Type :=
| equalTo_ip_address (v : string)
| equalTo_slave_id (v : Z)
| equalTo_register_type (v : string)
| equalTo_register_address (v : Z)
| greaterThanEqualTo_register_address (v : Z)
| lessThan_register_address (v : Z).

Definition holds (it : item) (c : condition) : bool :=
  match c with
  | equalTo_ip_address v => String.eqb (COL_PROXY_IP_ADDRESS it) v
  | equalTo_slave_id v => COL_SLAVE_ID it =? v
  | equalTo_register_type v => String.eqb (COL_REG_TYPE it) v
  | equalTo_register_address v => COL_REG_ADDRESS it =? v
  | greaterThanEqualTo_register_address v => v <=? COL_REG_ADDRESS it
  | lessThan_register_address v => COL_REG_ADDRESS it <? v
  end.

Definition matches (query : list condition) (it : item) : bool :=
  forallb (holds it) query.

Inductive call : Type :=
| GetItems (query : list condition)
| UpdateItems (query : list condition) (data : Z).

(** What the store functions can observe and change outside the block:
    the remote collection, the calls made on it, and the log. *)
Record World : Type := {
  collection : list item;
  calls : list call;
  log : list (level * message)
}.

Definition log_msg (lv : level) (m : message) : M World unit :=
  modify (fun w => {| collection := collection w; calls := calls w;
                      log := log w ++ [(lv, m)] |}).

(** The ClearBlade SDK is an external collaborator.  [Collection.getItems]
    returns the stored rows that satisfy every filter of the query, and
    [Collection.updateItems] rewrites the data column of those rows. *)
Definition getItems (query : list condition) : M World (list item) :=
  fun w => (Ok (filter (fun it => matches query it = true) (collection w)),
            {| collection := collection w; calls := calls w ++ [GetItems query];
               log := log w |}).

Definition set_data (data : Z) (it : item) : item :=
  {| COL_PROXY_IP_ADDRESS := COL_PROXY_IP_ADDRESS it; COL_SLAVE_ID := COL_SLAVE_ID it;
     COL_REG_TYPE := COL_REG_TYPE it; COL_REG_ADDRESS := COL_REG_ADDRESS it;
     COL_REG_DATA := data; COL_DATA_TIMESTAMP := COL_DATA_TIMESTAMP it |}.

Definition updateItems (query : list condition) (data : Z) : M World unit :=
  modify (fun w =>
    {| collection := map (fun it => if matches query it then set_data data it else it)
                         (collection w);
       calls := calls w ++ [UpdateItems query data];
       log := log w |}).

(** [ModbusDeviceIdentification]: the six attributes the parser assigns. *)
Record ModbusDeviceIdentification : Type := {
  VendorName : string;
  ProductCode : string;
  VendorUrl : string;
  ProductName : string;
  ModelName : string;
  MajorMinorRevision : string
}.

(** The attributes of a [ClearBladeModbusProxySlaveContext].  The blocks of
    [store] refer back to the context that owns them; the record is
    polymorphic in the block type [B] so that the store functions, which only
    read [ip_proxy], [slave_id] and [sparse], can be stated before the blocks.
    The logger and the ClearBlade handles are shared and live in [World]. *)
Record ClearBladeModbusProxySlaveContext (B : Type) : Type := {
  ip_proxy : string;
  ip_port : Z;
  slave_id : Z;
  zero_mode : bool;
  identity : ModbusDeviceIdentification;
  sparse : bool;
  store : gmap string (option B)
}.
Arguments ip_proxy {B} _.
Arguments ip_port {B} _.
Arguments slave_id {B} _.
Arguments zero_mode {B} _.
Arguments identity {B} _.
Arguments sparse {B} _.
Arguments store {B} _.

(** ** store.py: the remote-store bridge *)

(** An element of [reg_list]: a row as returned by the store, or the dict
    [{COL_REG_DATA: fill}] that the gap filler inserts, which has no other key. *)
Inductive reg_row : Type :=
| Row (it : item)
| Filled (fill : Z).

Definition row_address (r : reg_row) : result Z :=
  match r with Row it => Ok (COL_REG_ADDRESS it) | Filled _ => Raise KeyError end.

Definition row_data (r : reg_row) : result Z :=
  match r with Row it => Ok (COL_REG_DATA it) | Filled f => Ok f end.

Definition row_timestamp (r : reg_row) : result (option timestamp) :=
  match r with Row it => Ok (COL_DATA_TIMESTAMP it) | Filled _ => Raise KeyError end.

Definition data_query {B} (ctx : ClearBladeModbusProxySlaveContext B)
    (register_type : string) : list condition :=
  [equalTo_ip_address (ip_proxy ctx); equalTo_slave_id (slave_id ctx);
   equalTo_register_type register_type].

(** Body of [for addr in range(address, address + count)] of the sequential
    branch; the locals are [(reg_list, values, timestamps)]. *)
Definition read_step (register_type : string) (fill : option Z)
    (acc : list reg_row * list Z * list (option timestamp)) (addr : Z)
  : M World (list reg_row * list Z * list (option timestamp)) :=
  let '(reg_list, values, timestamps) := acc in
  r <- lift (py_getitem reg_list addr) ;;
  a <- lift (row_address r) ;;
  reg_list <- (if negb (a =? addr) then
                 match fill with
                 | Some f =>
                     log_msg INFO (FillingRegister register_type addr f) ;;;
                     ret (py_insert reg_list addr (Filled f))
                 | None => raise ParameterException
                 end
               else ret reg_list) ;;
  r <- lift (py_getitem reg_list addr) ;;
  d <- lift (row_data r) ;;
  r <- lift (py_getitem reg_list addr) ;;
  ts <- lift (row_timestamp r) ;;
  ret (reg_list, values ++ [d], timestamps ++ [ts]).

(** The [Query] built by [read_collection_data]. *)
Definition read_query {B} (ctx : ClearBladeModbusProxySlaveContext B)
    (register_type : string) (address count : Z) : list condition :=
  data_query ctx register_type ++
  (if 1 <? count
   then [greaterThanEqualTo_register_address address;
         lessThan_register_address (address + count)]
   else [equalTo_register_address address]).

(** [fill] is [None] or an integer; the [ValueError] branch for a fill of
    another type is excluded by the type. *)
Definition read_collection_data {B} (ctx : ClearBladeModbusProxySlaveContext B)
    (register_type : string) (address count : Z) (fill : option Z)
  : M World (container Z * container (option timestamp)) :=
  items <- getItems (read_query ctx register_type address count) ;;
  let reg_list := sorted_by_key COL_REG_ADDRESS items in
  (if negb (len reg_list =? count)
   then log_msg WARNING (GotRowsExpecting (len reg_list) count)
   else ret tt) ;;;
  if sparse ctx then
    ret (PyDict (fold_left (fun d reg => <[COL_REG_ADDRESS reg := COL_REG_DATA reg]> d)
                           reg_list ∅),
         PyDict (fold_left (fun d reg => <[COL_REG_ADDRESS reg := COL_DATA_TIMESTAMP reg]> d)
                           reg_list ∅))
  else
    ' (_, values, timestamps) <-
      for_fold (read_step register_type fill)
               (py_range address (address + count))
               (map Row reg_list, [], []) ;;
    ret (PyList values, PyList timestamps).

Definition write_collection_data {B} (ctx : ClearBladeModbusProxySlaveContext B)
    (register_type : string) (address data : Z) : M World unit :=
  updateItems (data_query ctx register_type ++ [equalTo_register_address address]) data.

(** ** store.py: the sequential block *)

Module CbModbusSequentialDataBlock.

Record t : Type := {
  address : Z;
  values : list Z;
  register_type : string;
  timestamps : list (option timestamp)
}.

Definition with_values (self : t) (vs : list Z) : t :=
  {| address := address self; values := vs;
     register_type := register_type self; timestamps := timestamps self |}.

Definition with_timestamps (self : t) (ts : list (option timestamp)) : t :=
  {| address := address self; values := values self;
     register_type := register_type self; timestamps := ts |}.

(** Modelled from the spec: the base class [ModbusSequentialDataBlock] comes
    from the pymodbus package and is not part of the repository.  Its
    constructor stores the base address and the list of values (the spec's
    [{base, values}], covering [base, base + len(values))]) and then takes
    the default value of the block from [self.values[0]]: on an empty list
    of values that subscript raises [IndexError]. *)
Definition super__init__ (address : Z) (values : list Z) : result (Z * list Z) :=
  match py_getitem values 0 with
  | Ok _ => Ok (address, values)
  | Raise e => Raise e
  end.

Definition __init__ (register_type : string) (address : Z) (values : list Z)
  : result t :=
  match super__init__ address values with
  | Ok (self_address, self_values) =>
      if str_in register_type REGISTER_TYPES then
        Ok {| address := self_address; values := self_values;
              register_type := register_type;
              timestamps := map (fun _ => None) (py_range 0 (len self_values - 1)) |}
      else Raise ParameterException
  | Raise e => Raise e
  end.

Definition self : M (t * World) t := fun s => (Ok (fst s), s).

(** [self.values[i] = v] *)
Definition set_value (i v : Z) : M (t * World) unit :=
  b <- self ;;
  vs <- lift (py_setitem (values b) i v) ;;
  on_fst (modify (fun b => with_values b vs)).

(** [self.timestamps[i] = ts] *)
Definition set_timestamp (i : Z) (ts : option timestamp) : M (t * World) unit :=
  b <- self ;;
  tss <- lift (py_setitem (timestamps b) i ts) ;;
  on_fst (modify (fun b => with_timestamps b tss)).

Definition getValues {B} (ctx : ClearBladeModbusProxySlaveContext B)
    (address count : Z) : M (t * World) (list Z) :=
  b <- self ;;
  let start := address - CbModbusSequentialDataBlock.address b in
  ' (values, timestamps) <-
    on_snd (read_collection_data ctx (register_type b) address count (Some 0)) ;;
  count <- (if negb (c_len values =? count)
            then on_snd (log_msg WARNING (RegisterCountMismatch count (c_len values))) ;;;
                 ret (c_len values)
            else ret count) ;;
  for_fold (fun j i =>
              v <- lift (c_getitem values j) ;;
              set_value i v ;;;
              ts <- lift (c_getitem timestamps i) ;;
              set_timestamp i ts ;;;
              ret (j + 1))
           (py_range address (address + count)) 0 ;;;
  b <- self ;;
  ret (py_getslice (CbModbusSequentialDataBlock.values b) start (start + count)).

(** The argument of [setValues]: a single int or a list of int. *)
Inductive int_or_list : Type :=
| Single (v : Z)
| Sequence (l : list Z).

Definition setValues {B} (ctx : ClearBladeModbusProxySlaveContext B)
    (address : Z) (values : int_or_list) : M (t * World) unit :=
  let values := match values with Single v => [v] | Sequence l => l end in
  b <- self ;;
  let start := address - CbModbusSequentialDataBlock.address b in
  on_fst (modify (fun b =>
    with_values b (py_setslice (CbModbusSequentialDataBlock.values b)
                               start (start + len values) values))) ;;;
  for_each (fun i =>
              d <- lift (py_getitem values i) ;;
              on_snd (write_collection_data ctx (register_type b) (address + i) d))
           (py_range address (len values - 1)).

Definition get_timestamps (self : t) (address count : Z) : list (option timestamp) :=
  let start := address - CbModbusSequentialDataBlock.address self in
  py_getslice (timestamps self) start (start + count).

End CbModbusSequentialDataBlock.

(** ** store.py: the sparse block *)

Module CbModbusSparseDataBlock.

(** The keys are the [address] attributes of the descriptors, which the
    parser leaves at [None] when no valid address was assigned. *)
Record t : Type := {
  values : gmap (option Z) Z;
  register_type : string;
  timestamps : gmap (option Z) (option timestamp)
}.

Definition with_values (self : t) (vs : gmap (option Z) Z) : t :=
  {| values := vs; register_type := register_type self;
     timestamps := timestamps self |}.

Definition with_timestamps (self : t) (ts : gmap (option Z) (option timestamp)) : t :=
  {| values := values self; register_type := register_type self; timestamps := ts |}.

(** Modelled from the spec: the base class [ModbusSparseDataBlock] comes from
    the pymodbus package and is not part of the repository.  Its constructor
    is taken to store the given address-to-value mapping (the spec's
    [{entries}]). *)
Definition super__init__ (values : gmap (option Z) Z) : gmap (option Z) Z := values.

Definition __init__ (register_type : string) (values : gmap (option Z) Z) : result t :=
  let self_values := super__init__ values in
  if str_in register_type REGISTER_TYPES then
    Ok {| values := self_values; register_type := register_type;
          timestamps := fold_left (fun ts addr => <[addr := None]> ts)
                                  (map_to_list self_values).*1 ∅ |}
  else Raise ParameterException.

Definition self : M (t * World) t := fun s => (Ok (fst s), s).

(** [self.values[k]] *)
Definition value_at (k : option Z) : M (t * World) Z :=
  b <- self ;;
  match values b !! k with
  | Some v => ret v
  | None => raise KeyError
  end.

(** Body of [for addr in self.values], for the [key] of the outer loop. *)
Definition merge_addr (values : container Z) (timestamps : container (option timestamp))
    (key : Z) (addr : option Z) : M (t * World) unit :=
  if decide (Some key = addr) then
    v <- lift (c_getitem values key) ;;
    on_fst (modify (fun b =>
      with_values b (<[addr := v]> (CbModbusSparseDataBlock.values b)))) ;;;
    ts <- lift (c_getitem timestamps key) ;;
    on_fst (modify (fun b =>
      with_timestamps b (<[addr := ts]> (CbModbusSparseDataBlock.timestamps b))))
  else ret tt.

(** Body of [for key in values]. *)
Definition merge_key (values : container Z) (timestamps : container (option timestamp))
    (key : Z) : M (t * World) unit :=
  b <- self ;;
  for_each (merge_addr values timestamps key)
           (map_to_list (CbModbusSparseDataBlock.values b)).*1.

Definition getValues {B} (ctx : ClearBladeModbusProxySlaveContext B)
    (address count : Z) : M (t * World) (list Z) :=
  b <- self ;;
  ' (values, timestamps) <-
    on_snd (read_collection_data ctx (register_type b) address count (Some 0)) ;;
  (if negb (c_len values =? count)
   then on_snd (log_msg WARNING (RegisterCountMismatch count (c_len values)))
   else ret tt) ;;;
  for_each (merge_key values timestamps) (c_iter values) ;;;
  list_comp (fun i => value_at (Some i)) (py_range address (address + count)).

(** [setValues] with a single value or a list (the [enumerate] branch). *)
Definition setValues {B} (ctx : ClearBladeModbusProxySlaveContext B)
    (address : Z) (values : CbModbusSequentialDataBlock.int_or_list)
  : M (t * World) unit :=
  let values := match values with
                | CbModbusSequentialDataBlock.Single v => [v]
                | CbModbusSequentialDataBlock.Sequence l => l
                end in
  b <- self ;;
  for_each (fun '(idx, val) =>
              on_fst (modify (fun b =>
                with_values b (<[Some (address + idx) := val]>
                                 (CbModbusSparseDataBlock.values b)))) ;;;
              on_snd (write_collection_data ctx (register_type b) (address + idx) val))
           (zip (py_range 0 (len values)) values).

Definition get_timestamps (address count : Z) : M (t * World) (list (option timestamp)) :=
  list_comp (fun i =>
               b <- self ;;
               match timestamps b !! Some i with
               | Some ts => ret ts
               | None => raise KeyError
               end)
            (py_range address (address + count)).

End CbModbusSparseDataBlock.

(** ** context.py: the slave context *)

Inductive DataBlock : Type :=
| Sequential (b : CbModbusSequentialDataBlock.t)
| Sparse (b : CbModbusSparseDataBlock.t).

(** The class [_RegisterBlockConfig]; [None] is an attribute left unset. *)
Record _RegisterBlockConfig : Type := {
  param_id : option Z;
  address : option Z;
  register_type : option string;
  block_size : Z
}.

(** [_RegisterBlockConfig(param_id=..., address=...)] with the defaults. *)
Definition new_RegisterBlockConfig (param_id address : option Z) : _RegisterBlockConfig :=
  {| param_id := param_id; address := address; register_type := None; block_size := 1 |}.

Definition SlaveContext : Type := ClearBladeModbusProxySlaveContext DataBlock.

(** Assignments to the attributes of [self]. *)
Definition set_identity (f : ModbusDeviceIdentification -> ModbusDeviceIdentification)
    (c : SlaveContext) : SlaveContext :=
  {| ip_proxy := ip_proxy c; ip_port := ip_port c; slave_id := slave_id c;
     zero_mode := zero_mode c; identity := f (identity c); sparse := sparse c;
     store := store c |}.

Definition set_sparse (v : bool) (c : SlaveContext) : SlaveContext :=
  {| ip_proxy := ip_proxy c; ip_port := ip_port c; slave_id := slave_id c;
     zero_mode := zero_mode c; identity := identity c; sparse := v;
     store := store c |}.

Definition set_slave_id (v : Z) (c : SlaveContext) : SlaveContext :=
  {| ip_proxy := ip_proxy c; ip_port := ip_port c; slave_id := v;
     zero_mode := zero_mode c; identity := identity c; sparse := sparse c;
     store := store c |}.

Definition set_zero_mode (v : bool) (c : SlaveContext) : SlaveContext :=
  {| ip_proxy := ip_proxy c; ip_port := ip_port c; slave_id := slave_id c;
     zero_mode := v; identity := identity c; sparse := sparse c;
     store := store c |}.

Definition set_store (k : string) (v : option DataBlock) (c : SlaveContext) : SlaveContext :=
  {| ip_proxy := ip_proxy c; ip_port := ip_port c; slave_id := slave_id c;
     zero_mode := zero_mode c; identity := identity c; sparse := sparse c;
     store := <[k := v]> (store c) |}.

Definition set_VendorName (v : string) (i : ModbusDeviceIdentification) :=
  {| VendorName := v; ProductCode := ProductCode i; VendorUrl := VendorUrl i;
     ProductName := ProductName i; ModelName := ModelName i;
     MajorMinorRevision := MajorMinorRevision i |}.
Definition set_ProductCode (v : string) (i : ModbusDeviceIdentification) :=
  {| VendorName := VendorName i; ProductCode := v; VendorUrl := VendorUrl i;
     ProductName := ProductName i; ModelName := ModelName i;
     MajorMinorRevision := MajorMinorRevision i |}.
Definition set_VendorUrl (v : string) (i : ModbusDeviceIdentification) :=
  {| VendorName := VendorName i; ProductCode := ProductCode i; VendorUrl := v;
     ProductName := ProductName i; ModelName := ModelName i;
     MajorMinorRevision := MajorMinorRevision i |}.
Definition set_ProductName (v : string) (i : ModbusDeviceIdentification) :=
  {| VendorName := VendorName i; ProductCode := ProductCode i; VendorUrl := VendorUrl i;
     ProductName := v; ModelName := ModelName i;
     MajorMinorRevision := MajorMinorRevision i |}.
Definition set_ModelName (v : string) (i : ModbusDeviceIdentification) :=
  {| VendorName := VendorName i; ProductCode := ProductCode i; VendorUrl := VendorUrl i;
     ProductName := ProductName i; ModelName := v;
     MajorMinorRevision := MajorMinorRevision i |}.
Definition set_MajorMinorRevision (v : string) (i : ModbusDeviceIdentification) :=
  {| VendorName := VendorName i; ProductCode := ProductCode i; VendorUrl := VendorUrl i;
     ProductName := ProductName i; ModelName := ModelName i;
     MajorMinorRevision := v |}.

(** The parser runs on [self] and on the world (for the log). *)
Definition Parser (A : Type) : Type := M (SlaveContext * World) A.

Definition self : Parser SlaveContext := fun s => (Ok (fst s), s).

Definition assign (f : SlaveContext -> SlaveContext) : Parser unit := on_fst (modify f).

Definition self_log (lv : level) (m : message) : Parser unit := on_snd (log_msg lv m).

(** [x in range(lo, hi)] *)
Definition in_range (x lo hi : Z) : bool := (lo <=? x) && (x <? hi).

(** Body of [for id_tag in identity] (the device-description line). *)
Definition identity_field (id_tag : string) : Parser unit :=
  if has_tag "VendorName" id_tag then
    assign (set_identity (set_VendorName (strip (after_tag "VendorName" id_tag))))
  else if has_tag "ProductCode" id_tag then
    assign (set_identity (set_ProductCode (strip (after_tag "ProductCode" id_tag))))
  else if has_tag "VendorUrl" id_tag then
    assign (set_identity (set_VendorUrl (strip (after_tag "VendorUrl" id_tag))))
  else if has_tag "ProductName" id_tag then
    assign (set_identity (set_ProductName (strip (after_tag "ProductName" id_tag))))
  else if has_tag "ModelName" id_tag then
    assign (set_identity (set_ModelName (strip (after_tag "ModelName" id_tag))))
  else if has_tag "MajorMinorRevision" id_tag then
    assign (set_identity
              (set_MajorMinorRevision (strip (after_tag "MajorMinorRevision" id_tag))))
  else if String.eqb (lower (substring 0 (String.length "sparse") id_tag)) "sparse" then
    n <- lift (py_int (strip (after_tag "sparse" id_tag))) ;;
    assign (set_sparse (negb (n =? 0)))
  else ret tt.

(** Body of [for i in net_info] (the network-identity line). *)
Definition network_field (i : string) : Parser unit :=
  if has_tag TEMPLATE_PARSER_SLAVE_ID i then
    net_id <- lift (py_int (strip (after_tag TEMPLATE_PARSER_SLAVE_ID i))) ;;
    if in_range net_id 1 255 then
      v <- lift (py_int (after_tag TEMPLATE_PARSER_SLAVE_ID i)) ;;
      assign (set_slave_id v)
    else self_log ERROR (InvalidSlaveId net_id)
  else if has_tag TEMPLATE_PARSER_NOT_ZERO_MODE i then
    plc <- lift (py_int (strip (after_tag TEMPLATE_PARSER_NOT_ZERO_MODE i))) ;;
    assign (set_zero_mode (if plc =? 1 then false else true))
  else ret tt.

(** [for reg in registers: if reg.param_id == this_reg: reg.address = addr] *)
Definition assign_address (this_reg : option Z) (addr : Z)
    (registers : list _RegisterBlockConfig) : list _RegisterBlockConfig :=
  map (fun reg => if decide (param_id reg = this_reg)
                  then {| param_id := param_id reg; address := Some addr;
                          register_type := register_type reg;
                          block_size := block_size reg |}
                  else reg) registers.

(** [for reg in registers: if reg.param_id == this_reg: reg.register_type = ty] *)
Definition assign_register_type (this_reg : option Z) (ty : string)
    (registers : list _RegisterBlockConfig) : list _RegisterBlockConfig :=
  map (fun reg => if decide (param_id reg = this_reg)
                  then {| param_id := param_id reg; address := address reg;
                          register_type := Some ty;
                          block_size := block_size reg |}
                  else reg) registers.

(** The locals of the register-definition branch. *)
Record reg_locals : Type := {
  registers : list _RegisterBlockConfig;
  reg_exists : bool;
  this_reg : option Z
}.

(** Body of [for c in reg_config] (the register-definition line). *)
Definition register_field (l : reg_locals) (c : string) : Parser reg_locals :=
  if has_tag TEMPLATE_PARSER_REG_UID c then
    pid <- lift (py_int (strip (after_tag TEMPLATE_PARSER_REG_UID c))) ;;
    let reg_exists :=
      fold_left (fun e reg => if decide (Some pid = param_id reg) then true else e)
                (registers l) (reg_exists l) in
    ret (if negb reg_exists
         then {| registers := registers l ++ [new_RegisterBlockConfig (Some pid) None];
                 reg_exists := true; this_reg := Some pid |}
         else {| registers := registers l; reg_exists := reg_exists;
                 this_reg := Some pid |})
  else if has_tag TEMPLATE_PARSER_REG_ADDRESS c then
    addr <- lift (py_int (strip (after_tag TEMPLATE_PARSER_REG_ADDRESS c))) ;;
    s <- self ;;
    let addr := if negb (zero_mode s) then addr + 1 else addr in
    if in_range addr 0 (99999 + 1) then
      let registers := assign_address (this_reg l) addr (registers l) in
      ret (if negb (reg_exists l)
           then {| registers := registers ++ [new_RegisterBlockConfig None (Some addr)];
                   reg_exists := true; this_reg := this_reg l |}
           else {| registers := registers; reg_exists := reg_exists l;
                   this_reg := this_reg l |})
    else
      self_log ERROR (InvalidAddress addr) ;;; ret l
  else if has_tag TEMPLATE_PARSER_REG_TYPE c then
    let reg_type := strip (after_tag TEMPLATE_PARSER_REG_TYPE c) in
    let assign_type ty :=
      {| registers := assign_register_type (this_reg l) ty (registers l);
         reg_exists := reg_exists l; this_reg := this_reg l |} in
    if str_in reg_type [TEMPLATE_PARSER_TYPE_INPUT_REGISTER] then
      ret (assign_type TYPE_INPUT_REGISTER)
    else if str_in reg_type [TEMPLATE_PARSER_TYPE_HOLDING_REGISTER] then
      ret (assign_type TYPE_HOLDING_REGISTER)
    else if str_in reg_type [TEMPLATE_PARSER_TYPE_DISCRETE_INPUT] then
      ret (assign_type TYPE_DISCRETE_INPUT)
    else if str_in reg_type [TEMPLATE_PARSER_TYPE_COIL] then
      ret (assign_type TYPE_COIL)
    else
      self_log ERROR (UnsupportedRegisterType reg_type) ;;; ret l
  else ret l.

(** Body of [for line in lines]; [registers] is the list built so far. *)
Definition parse_line (registers0 : list _RegisterBlockConfig) (line : string)
  : Parser (list _RegisterBlockConfig) :=
  if has_tag TEMPLATE_PARSER_DESC line then
    for_each identity_field (split TEMPLATE_PARSER_SEPARATOR line) ;;;
    ret registers0
  else if has_tag TEMPLATE_PARSER_NETWORK line then
    for_each network_field (split TEMPLATE_PARSER_SEPARATOR line) ;;;
    ret registers0
  else if has_tag TEMPLATE_PARSER_REGISTER_DEF line then
    l <- for_fold register_field (split TEMPLATE_PARSER_SEPARATOR line)
                  {| registers := registers0; reg_exists := false; this_reg := None |} ;;
    ret (registers l)
  else ret registers0.

(** The first loop of [_parse_config]: the descriptors of the template. *)
Definition parse_lines (config_file : string) : Parser (list _RegisterBlockConfig) :=
  for_fold parse_line (splitlines config_file) [].

(** The eight collections filled by the second loop of [_parse_config]. *)
Record layout : Type := {
  hr_sparse_block : gmap (option Z) Z;
  ir_sparse_block : gmap (option Z) Z;
  di_sparse_block : gmap (option Z) Z;
  co_sparse_block : gmap (option Z) Z;
  hr_sequential : list (option Z);
  ir_sequential : list (option Z);
  di_sequential : list (option Z);
  co_sequential : list (option Z)
}.

Definition empty_layout : layout :=
  {| hr_sparse_block := ∅; ir_sparse_block := ∅; di_sparse_block := ∅;
     co_sparse_block := ∅; hr_sequential := []; ir_sequential := [];
     di_sequential := []; co_sequential := [] |}.

(** Body of the second [for reg in registers]. *)
Definition group_register (sparse : bool) (g : layout) (reg : _RegisterBlockConfig) : layout :=
  if decide (register_type reg = Some TYPE_HOLDING_REGISTER) then
    if sparse then
      {| hr_sparse_block := <[address reg := 0]> (hr_sparse_block g);
         ir_sparse_block := ir_sparse_block g; di_sparse_block := di_sparse_block g;
         co_sparse_block := co_sparse_block g; hr_sequential := hr_sequential g;
         ir_sequential := ir_sequential g; di_sequential := di_sequential g;
         co_sequential := co_sequential g |}
    else
      {| hr_sparse_block := hr_sparse_block g;
         ir_sparse_block := ir_sparse_block g; di_sparse_block := di_sparse_block g;
         co_sparse_block := co_sparse_block g;
         hr_sequential := hr_sequential g ++ [address reg];
         ir_sequential := ir_sequential g; di_sequential := di_sequential g;
         co_sequential := co_sequential g |}
  else if decide (register_type reg = Some TYPE_INPUT_REGISTER) then
    if sparse then
      {| hr_sparse_block := hr_sparse_block g;
         ir_sparse_block := <[address reg := 0]> (ir_sparse_block g);
         di_sparse_block := di_sparse_block g;
         co_sparse_block := co_sparse_block g; hr_sequential := hr_sequential g;
         ir_sequential := ir_sequential g; di_sequential := di_sequential g;
         co_sequential := co_sequential g |}
    else
      {| hr_sparse_block := hr_sparse_block g;
         ir_sparse_block := ir_sparse_block g; di_sparse_block := di_sparse_block g;
         co_sparse_block := co_sparse_block g; hr_sequential := hr_sequential g;
         ir_sequential := ir_sequential g ++ [address reg];
         di_sequential := di_sequential g; co_sequential := co_sequential g |}
  else if decide (register_type reg = Some TYPE_DISCRETE_INPUT) then
    if sparse then
      {| hr_sparse_block := hr_sparse_block g;
         ir_sparse_block := ir_sparse_block g;
         di_sparse_block := <[address reg := 0]> (di_sparse_block g);
         co_sparse_block := co_sparse_block g; hr_sequential := hr_sequential g;
         ir_sequential := ir_sequential g; di_sequential := di_sequential g;
         co_sequential := co_sequential g |}
    else
      {| hr_sparse_block := hr_sparse_block g;
         ir_sparse_block := ir_sparse_block g; di_sparse_block := di_sparse_block g;
         co_sparse_block := co_sparse_block g; hr_sequential := hr_sequential g;
         ir_sequential := ir_sequential g;
         di_sequential := di_sequential g ++ [address reg];
         co_sequential := co_sequential g |}
  else
    if sparse then
      {| hr_sparse_block := hr_sparse_block g;
         ir_sparse_block := ir_sparse_block g; di_sparse_block := di_sparse_block g;
         co_sparse_block := <[address reg := 0]> (co_sparse_block g);
         hr_sequential := hr_sequential g;
         ir_sequential := ir_sequential g; di_sequential := di_sequential g;
         co_sequential := co_sequential g |}
    else
      {| hr_sparse_block := hr_sparse_block g;
         ir_sparse_block := ir_sparse_block g; di_sparse_block := di_sparse_block g;
         co_sparse_block := co_sparse_block g; hr_sequential := hr_sequential g;
         ir_sequential := ir_sequential g; di_sequential := di_sequential g;
         co_sequential := co_sequential g ++ [address reg] |}.

Definition _setup_sparse_block (block : gmap (option Z) Z) (register_type : string)
  : result (option DataBlock) :=
  if str_in register_type REGISTER_TYPES && (0 <? Z.of_nat (size block)) then
    match CbModbusSparseDataBlock.__init__ register_type block with
    | Ok b => Ok (Some (Sparse b))
    | Raise e => Raise e
    end
  else Ok None.

(** The order of [block.sort()] on addresses: an unset address ([None]) sorts
    before every integer. *)
Definition address_le (x y : option Z) : bool :=
  match x, y with
  | None, _ => true
  | Some _, None => false
  | Some a, Some b => a <=? b
  end.

(** [range(block[0], block[len(block)-1])] needs two integers: an unset
    address there is a [TypeError]. *)
Definition _setup_sequential_block (block : list (option Z)) (register_type : string)
  : result (option DataBlock) :=
  if str_in register_type REGISTER_TYPES && (0 <? len block) then
    let block := sorted address_le block in
    match py_getitem block 0, py_getitem block (len block - 1) with
    | Ok (Some lo), Ok (Some hi) =>
        match CbModbusSequentialDataBlock.__init__
                register_type lo (map (fun _ => 0) (py_range lo hi)) with
        | Ok b => Ok (Some (Sequential b))
        | Raise e => Raise e
        end
    | Ok _, Ok _ => Raise TypeError
    | Raise e, _ => Raise e
    | _, Raise e => Raise e
    end
  else Ok None.

(** The second half of [_parse_config]: grouping and block construction. *)
Definition build_store (registers : list _RegisterBlockConfig) : Parser unit :=
  s <- self ;;
  let g := fold_left (group_register (sparse s)) registers empty_layout in
  s <- self ;;
  if sparse s then
    h <- lift (_setup_sparse_block (hr_sparse_block g) TYPE_HOLDING_REGISTER) ;;
    assign (set_store "h" h) ;;;
    i <- lift (_setup_sparse_block (ir_sparse_block g) TYPE_INPUT_REGISTER) ;;
    assign (set_store "i" i) ;;;
    d <- lift (_setup_sparse_block (di_sparse_block g) TYPE_DISCRETE_INPUT) ;;
    assign (set_store "d" d) ;;;
    c <- lift (_setup_sparse_block (co_sparse_block g) TYPE_COIL) ;;
    assign (set_store "c" c)
  else
    h <- lift (_setup_sequential_block (hr_sequential g) TYPE_HOLDING_REGISTER) ;;
    assign (set_store "h" h) ;;;
    i <- lift (_setup_sequential_block (ir_sequential g) TYPE_INPUT_REGISTER) ;;
    assign (set_store "i" i) ;;;
    d <- lift (_setup_sequential_block (di_sequential g) TYPE_DISCRETE_INPUT) ;;
    assign (set_store "d" d) ;;;
    c <- lift (_setup_sequential_block (co_sequential g) TYPE_COIL) ;;
    assign (set_store "c" c).

Definition _parse_config (config_file : string) : Parser unit :=
  registers <- parse_lines config_file ;;
  build_store registers.

(** A row of the configuration collection ([ModbusProxyRtus]). *)
Record rtu_row : Type := {
  COL_PROXY_IP_ADDRESS_ : string;
  COL_PROXY_IP_PORT : Z;
  COL_SLAVE_ID_ : Z;
  COL_PROXY_CONFIG_FILE : string
}.

Definition empty_identity : ModbusDeviceIdentification :=
  {| VendorName := ""; ProductCode := ""; VendorUrl := ""; ProductName := "";
     ModelName := ""; MajorMinorRevision := "" |}.

(** [ClearBladeModbusProxySlaveContext.__init__] *)
Definition new_SlaveContext (config : rtu_row) : M World SlaveContext :=
  let self0 : SlaveContext :=
    {| ip_proxy := COL_PROXY_IP_ADDRESS_ config;
       ip_port := COL_PROXY_IP_PORT config;
       slave_id := COL_SLAVE_ID_ config;
       zero_mode := true;
       identity := empty_identity;
       sparse := false;
       store := ∅ |} in
  (if String.eqb (ip_proxy self0) "" then log_msg WARNING NoProxyAddress else ret tt) ;;;
  fun w =>
    match (_parse_config (COL_PROXY_CONFIG_FILE config) ;;;
           self_log DEBUG (SlaveContextComplete (ip_proxy self0))) (self0, w) with
    | (Ok _, (s, w')) => (Ok s, w')
    | (Raise e, (_, w')) => (Raise e, w')
    end.

(** ** context.py: the server context *)

(** The locals and attributes [_initialize_slaves] updates: the list [slaves]
    of unit ids seen, and the mapping of the server context.

    Modelled from the spec: the base class [ModbusServerContext] comes from
    the pymodbus package and is not part of the repository; it holds the
    spec's [{slaves: mapping unit_id -> SlaveContext}]. *)
Record server_state : Type := {
  slaves : list Z;
  _slaves : gmap Z SlaveContext
}.

(** Modelled from the spec: [self[slave] = context] of the base class
    [ModbusServerContext], which the server context creates with
    [single=False]: the context is stored under the unit id when
    [0x00 <= slave <= 0xf7], and [NoSuchSlaveException] is raised for any
    other unit id. *)
Definition ModbusServerContext__setitem__ (slave : Z) (context : SlaveContext)
    (m : gmap Z SlaveContext) : result (gmap Z SlaveContext) :=
  if (0 <=? slave) && (slave <=? 247) then Ok (<[slave := context]> m)
  else Raise NoSuchSlaveException.

(** Body of [for row in rows]. *)
Definition initialize_slave (st : server_state) (row : rtu_row) : M World server_state :=
  let slave_id := COL_SLAVE_ID_ row in
  if negb (existsb (Z.eqb slave_id) (slaves st)) then
    ctx <- new_SlaveContext row ;;
    m <- lift (ModbusServerContext__setitem__ slave_id ctx (_slaves st)) ;;
    ret {| slaves := slaves st ++ [slave_id]; _slaves := m |}
  else
    log_msg WARNING (DuplicateSlaveId slave_id) ;;; ret st.

(** [rtus] is the content of the configuration collection; the query selects
    the rows of one proxy address, or every row (the unit id column holds an
    integer, never the empty string). *)
Definition _initialize_slaves (ip_address : option string) (rtus : list rtu_row)
  : M World server_state :=
  rows <- match ip_address with
          | Some ip =>
              log_msg DEBUG (QueryingByAddress ip) ;;;
              ret (filter (fun r => COL_PROXY_IP_ADDRESS_ r = ip) rtus)
          | None =>
              log_msg DEBUG QueryingBySlaveId ;;;
              ret rtus
          end ;;
  log_msg DEBUG (FoundRows (len rows)) ;;;
  for_fold initialize_slave rows {| slaves := []; _slaves := ∅ |}.

(** ** Notions used to state the properties *)

(** The values of a [setValues] argument as a list. *)
Definition seq_values (v : CbModbusSequentialDataBlock.int_or_list) : list Z :=
  match v with
  | CbModbusSequentialDataBlock.Single x => [x]
  | CbModbusSequentialDataBlock.Sequence l => l
  end.

(** The rows [read_collection_data] gets back from the store. *)
Definition returned_rows {B} (ctx : ClearBladeModbusProxySlaveContext B)
    (rt : string) (address count : Z) (w : World) : list item :=
  filter (fun it => matches (read_query ctx rt address count) it = true) (collection w).

(** [ordered le l]: every element of [l] is below the ones after it. *)
Fixpoint ordered {A} (le : A -> A -> bool) (l : list A) : Prop :=
  match l with
  | [] => True
  | x :: l' => Forall (fun y => le x y = true) l' /\ ordered le l'
  end.

(** The world after one more log record. *)
Definition logged (lv : level) (m : message) (w : World) : World :=
  {| collection := collection w; calls := calls w; log := log w ++ [(lv, m)] |}.

(** The kinds of template line, by their leading marker. *)
Inductive line_kind : Type := DeviceLine | NetworkLine | RegisterLine | OtherLine.

Definition kind_of_line (line : string) : line_kind :=
  if has_tag TEMPLATE_PARSER_DESC line then DeviceLine
  else if has_tag TEMPLATE_PARSER_NETWORK line then NetworkLine
  else if has_tag TEMPLATE_PARSER_REGISTER_DEF line then RegisterLine
  else OtherLine.

(** The text that follows a numeric tag in a field of a line of kind [k], if
    the field has such a tag. *)
Definition numeric_text (k : line_kind) (field : string) : option string :=
  match k with
  | DeviceLine =>
      if has_tag "VendorName" field || has_tag "ProductCode" field
         || has_tag "VendorUrl" field || has_tag "ProductName" field
         || has_tag "ModelName" field || has_tag "MajorMinorRevision" field
      then None
      else if String.eqb (lower (substring 0 6 field)) "sparse"
      then Some (after_tag "sparse" field) else None
  | NetworkLine =>
      if has_tag "networkId" field then Some (after_tag "networkId" field)
      else if has_tag "plcBaseAddress" field then Some (after_tag "plcBaseAddress" field)
      else None
  | RegisterLine =>
      if has_tag "paramId" field then Some (after_tag "paramId" field)
      else if has_tag "address" field then Some (after_tag "address" field)
      else None
  | OtherLine => None
  end.

Definition field_numeric (k : line_kind) (field : string) : bool :=
  match numeric_text k field with
  | Some txt => is_ok (py_int txt)
  | None => true
  end.

Definition line_numeric (line : string) : bool :=
  forallb (field_numeric (kind_of_line line)) (split TEMPLATE_PARSER_SEPARATOR line).

(** Every value that follows a numeric tag of the template is an integer
    literal. *)
Definition numeric_fields_ok (config_file : string) : bool :=
  forallb line_numeric (splitlines config_file).

(** [line] is a register-definition line whose leading field is [paramId=n]. *)
Definition defines_param (line : string) (n : Z) : Prop :=
  kind_of_line line = RegisterLine /\
  exists c0 rest,
    split TEMPLATE_PARSER_SEPARATOR line = c0 :: rest /\
    has_tag TEMPLATE_PARSER_REG_UID c0 = true /\
    py_int (after_tag TEMPLATE_PARSER_REG_UID c0) = Ok n.

(** The parameter ids of the descriptors that have one. *)
Definition param_ids (regs : list _RegisterBlockConfig) : list Z := omap param_id regs.

(** The register type a [registerType=] token stands for (spec section 4.1). *)
Definition register_type_of_token (token : string) : option string :=
  if String.eqb token "holding" then Some "hr"
  else if String.eqb token "analog" then Some "ir"
  else if String.eqb token "input" then Some "di"
  else if String.eqb token "coil" then Some "co"
  else None.

(** The rows the query of [_initialize_slaves] returns. *)
Definition selected_rows (ip_address : option string) (rtus : list rtu_row) : list rtu_row :=
  match ip_address with
  | Some ip => filter (fun r => COL_PROXY_IP_ADDRESS_ r = ip) rtus
  | None => rtus
  end.

(** The slave context of [row] can be constructed, whatever the log holds. *)
Definition constructs (row : rtu_row) : Prop :=
  forall w, is_ok (fst (new_SlaveContext row w)) = true.

(** The unit ids in the order in which they are first seen. *)
Definition add_id (acc : list Z) (id : Z) : list Z :=
  if bool_decide (id ∈ acc) then acc else acc ++ [id].

(** The address a field of a register-definition line assigns when
    [zero_mode] is [zm]: the field is an [address=] field and the address,
    shifted by one when [zero_mode] is off, lies in 0..99999. *)
Definition address_assigned (zm : bool) (c : string) : option Z :=
  if has_tag TEMPLATE_PARSER_REG_ADDRESS c then
    match py_int (after_tag TEMPLATE_PARSER_REG_ADDRESS c) with
    | Ok n => let addr := if zm then n else n + 1 in
              if in_range addr 0 (99999 + 1) then Some addr else None
    | Raise _ => None
    end
  else None.

(** The register type a field of a register-definition line assigns: the
    field is a [registerType=] field with one of the four tokens. *)
Definition type_assigned (c : string) : option string :=
  if has_tag TEMPLATE_PARSER_REG_ADDRESS c then None
  else if has_tag TEMPLATE_PARSER_REG_TYPE c
  then register_type_of_token (strip (after_tag TEMPLATE_PARSER_REG_TYPE c))
  else None.

(** The last assignment that the fields make, if they make one. *)
Definition last_assigned {A} (f : string -> option A) (fields : list string) : option A :=
  last (omap f fields).

(** A descriptor after a merge: an attribute that is assigned is
    overwritten, whatever it held; one that is not is kept. *)
Definition merged (a : option Z) (ty : option string) (reg : _RegisterBlockConfig)
  : _RegisterBlockConfig :=
  {| param_id := param_id reg;
     address := match a with Some _ => a | None => address reg end;
     register_type := match ty with Some _ => ty | None => register_type reg end;
     block_size := block_size reg |}.

(** The descriptors with one for parameter id [n]: a new one goes to the
    end of the list. *)
Definition with_descriptor (n : Z) (regs : list _RegisterBlockConfig)
  : list _RegisterBlockConfig :=
  if bool_decide (n ∈ param_ids regs) then regs
  else regs ++ [new_RegisterBlockConfig (Some n) None].

(** Spec section 4.1, the merge of a line [paramId=n;fields] into the
    descriptors: the fields update the descriptor of [n], the last
    assignment of each attribute winning, and lines that share a parameter
    id share its descriptor. *)
Definition merge_line (zm : bool) (n : Z) (fields : list string)
    (regs : list _RegisterBlockConfig) : list _RegisterBlockConfig :=
  map (fun reg => if decide (param_id reg = Some n)
                  then merged (last_assigned (address_assigned zm) fields)
                              (last_assigned type_assigned fields) reg
                  else reg)
      (with_descriptor n regs).

(** The descriptor of parameter id [n]; a new one when there is none. *)
Definition descriptor_of (n : Z) (regs : list _RegisterBlockConfig) : _RegisterBlockConfig :=
  default (new_RegisterBlockConfig (Some n) None)
          (head (filter (fun reg => param_id reg = Some n) regs)).

(** [line] is the register-definition line [paramId=n;fields], and no field
    of [fields] is a [paramId=] field. *)
Definition register_line (line : string) (n : Z) (fields : list string) : Prop :=
  kind_of_line line = RegisterLine /\
  exists c0,
    split TEMPLATE_PARSER_SEPARATOR line = c0 :: fields /\
    py_int (after_tag TEMPLATE_PARSER_REG_UID c0) = Ok n /\
    Forall (fun c => has_tag TEMPLATE_PARSER_REG_UID c = false) fields.

(** [line] is a register-definition line with a field [paramId=n]. *)
Definition mentions (n : Z) (line : string) : Prop :=
  kind_of_line line = RegisterLine /\
  exists c,
    c ∈ split TEMPLATE_PARSER_SEPARATOR line /\
    has_tag TEMPLATE_PARSER_REG_UID c = true /\
    py_int (after_tag TEMPLATE_PARSER_REG_UID c) = Ok n.

(** A parser computation is blind to the world when its result and what it
    does to [self] are the same in every world: the parser writes to the
    log and reads nothing back. *)
Definition world_blind {A} (c : Parser A) : Prop :=
  forall (s : SlaveContext) (w1 w2 : World),
    fst (c (s, w1)) = fst (c (s, w2)) /\
    fst (snd (c (s, w1))) = fst (snd (c (s, w2))).

(** [row] is the first row of its unit id in [rows]. *)
Definition first_seen (rows : list rtu_row) (row : rtu_row) : Prop :=
  exists rows1 rows2,
    rows = rows1 ++ row :: rows2 /\
    COL_SLAVE_ID_ row ∉ map COL_SLAVE_ID_ rows1.

(** ** Example inputs *)

Definition LF : string := String "010" EmptyString.

Definition example_context (sparse : bool) : SlaveContext :=
  {| ip_proxy := "10.0.0.1"; ip_port := 502; slave_id := 3; zero_mode := true;
     identity := empty_identity; sparse := sparse; store := ∅ |}.

Definition example_item (addr data : Z) (ts : string) : item :=
  {| COL_PROXY_IP_ADDRESS := "10.0.0.1"; COL_SLAVE_ID := 3; COL_REG_TYPE := "hr";
     COL_REG_ADDRESS := addr; COL_REG_DATA := data; COL_DATA_TIMESTAMP := Some ts |}.

Definition example_world (rows : list item) : World :=
  {| collection := rows; calls := []; log := [] |}.

Definition example_block (address : Z) (values : list Z) : CbModbusSequentialDataBlock.t :=
  {| CbModbusSequentialDataBlock.address := address;
     CbModbusSequentialDataBlock.values := values;
     CbModbusSequentialDataBlock.register_type := "hr";
     CbModbusSequentialDataBlock.timestamps :=
       map (fun _ => None) (py_range 0 (len values - 1)) |}.

Definition example_sparse_block : CbModbusSparseDataBlock.t :=
  {| CbModbusSparseDataBlock.values := {[ Some 5 := 0; Some 7 := 0; Some 9 := 0 ]};
     CbModbusSparseDataBlock.register_type := "hr";
     CbModbusSparseDataBlock.timestamps :=
       {[ Some 5 := None; Some 7 := None; Some 9 := None ]} |}.

Definition example_row (unit_id : Z) (config_file : string) : rtu_row :=
  {| COL_PROXY_IP_ADDRESS_ := "10.0.0.1"; COL_PROXY_IP_PORT := 502;
     COL_SLAVE_ID_ := unit_id; COL_PROXY_CONFIG_FILE := config_file |}.

(** Two lines for [paramId=12]. *)
Definition merge_template : string :=
  "paramId=12;address=42;registerType=holding" ++ LF ++ "paramId=12;registerType=coil".

(** Descriptors at 5, 7 and 9, all holding registers. *)
Definition holding_template : string :=
  "paramId=1;address=5;registerType=holding" ++ LF ++
  "paramId=2;address=7;registerType=holding" ++ LF ++
  "paramId=3;address=9;registerType=holding".

(** Two descriptors whose register type is not one of the four tokens. *)
Definition untyped_template : string :=
  "paramId=1;address=5;registerType=float" ++ LF ++
  "paramId=2;address=7;registerType=float".

(** An unit id, an address and a register type that are out of range. *)
Definition out_of_range_template : string :=
  "deviceId=1;networkId=300" ++ LF ++ "paramId=1;address=100000;registerType=float".

(** ** Further notions used to state the properties *)

Definition latest_row (rows : list item) (k : Z) : option item :=
  last (filter (fun it => COL_REG_ADDRESS it = k) rows).

Definition refreshed {V} (field : item -> V) (rows : list item)
    (keys : gmap (option Z) Z) (cache : gmap (option Z) V) (a : option Z) : option V :=
  match a with
  | Some k => match keys !! a, latest_row rows k with
              | Some _, Some it => Some (field it)
              | _, _ => cache !! a
              end
  | None => cache !! a
  end.

Definition lookup_all {A V} (g : A -> option V) (xs : list A) : result (list V) :=
  match mapM g xs with
  | Some vs => Ok vs
  | None => Raise KeyError
  end.

Definition distinct_addresses (rows : list item) : Z :=
  len (remove_dups (map COL_REG_ADDRESS rows)).

Definition read_warnings (rows : list item) (count : Z) : list (level * message) :=
  (if len rows =? count then [] else [(WARNING, GotRowsExpecting (len rows) count)]) ++
  (if distinct_addresses rows =? count then []
   else [(WARNING, RegisterCountMismatch count (distinct_addresses rows))]).


Definition write_query {B} (ctx : ClearBladeModbusProxySlaveContext B)
    (register_type : string) (address : Z) : list condition :=
  data_query ctx register_type ++ [equalTo_register_address address].

(** The value that a write of [l] from [address] assigns to address [k]. *)
Definition written (address : Z) (l : list Z) (k : Z) : option Z :=
  if (address <=? k) && (k <? address + len l) then l !! Z.to_nat (k - address) else None.

(** The remote row [it] after the writes of [l] from [address] for the slave
    and register type of [query]. *)
Definition updated_row (query : list condition) (address : Z) (l : list Z) (it : item) : item :=
  match (if matches query it then written address l (COL_REG_ADDRESS it) else None) with
  | Some v => set_data v it
  | None => it
  end.

(** The value that [setValues] of a sequential block sends to remote
    address [k]: the one at position [k - address] of the list, for the
    positions from [address] to the last but one. *)
Definition sent (address : Z) (l : list Z) (lo hi : Z) (k : Z) : option Z :=
  if (lo <=? k - address) && (k - address <? hi) then l !! Z.to_nat (k - address) else None.

Definition sent_row (query : list condition) (address : Z) (l : list Z) (lo hi : Z)
    (it : item) : item :=
  match (if matches query it then sent address l lo hi (COL_REG_ADDRESS it) else None) with
  | Some v => set_data v it
  | None => it
  end.

(** A descriptor as the line loop can leave it: the block size is the
    default, an address that is set is a Modbus address, a register type that
    is set is one of the four, and the descriptor was created for a parameter
    id or for an address. *)
Definition wf_descriptor (reg : _RegisterBlockConfig) : Prop :=
  block_size reg = 1 /\
  (forall a, address reg = Some a -> 0 <= a <= 99999) /\
  (forall ty, register_type reg = Some ty -> str_in ty REGISTER_TYPES = true) /\
  (is_Some (param_id reg) \/ is_Some (address reg)).

(** What the parser may change outside the descriptors: the proxy address
    and port and the remote collection are left alone, the log only grows,
    by error records, and a unit id that is assigned is in 1..254. *)
Definition parser_frame (st st' : SlaveContext * World) : Prop :=
  ip_proxy (fst st') = ip_proxy (fst st) /\
  ip_port (fst st') = ip_port (fst st) /\
  store (fst st') = store (fst st) /\
  (slave_id (fst st') = slave_id (fst st) \/ 1 <= slave_id (fst st') <= 254) /\
  collection (snd st') = collection (snd st) /\
  calls (snd st') = calls (snd st) /\
  exists msgs, log (snd st') = log (snd st) ++ msgs /\ Forall (fun m => fst m = ERROR) msgs.

(** The block under which the grouping loop files a descriptor. *)
Definition block_type (reg : _RegisterBlockConfig) : string :=
  if decide (register_type reg = Some TYPE_HOLDING_REGISTER) then TYPE_HOLDING_REGISTER
  else if decide (register_type reg = Some TYPE_INPUT_REGISTER) then TYPE_INPUT_REGISTER
  else if decide (register_type reg = Some TYPE_DISCRETE_INPUT) then TYPE_DISCRETE_INPUT
  else TYPE_COIL.

(** The addresses of the descriptors filed under [ty], in descriptor order. *)
Definition addresses_of (ty : string) (regs : list _RegisterBlockConfig) : list (option Z) :=
  map address (filter (fun reg => block_type reg = ty) regs).

(** The mapping with value 0 at each address of [l]. *)
Definition zero_block (l : list (option Z)) : gmap (option Z) Z :=
  gset_to_gmap 0 (list_to_set l).

(** The sparse block of type [ty] for the addresses [l]; none when there is
    no address. *)
Definition sparse_block_for (ty : string) (l : list (option Z)) : option DataBlock :=
  match l with
  | [] => None
  | _ :: _ =>
      Some (Sparse {| CbModbusSparseDataBlock.values := zero_block l;
                      CbModbusSparseDataBlock.register_type := ty;
                      CbModbusSparseDataBlock.timestamps := (fun _ => None) <$> zero_block l |})
  end.

(** The key of [store] for a register type. *)
Definition store_key (ty : string) : string := substring 0 1 ty.

(** The world after a computation that makes no call on the data collection
    and only writes to the log. *)
Definition log_grows (w w' : World) : Prop :=
  collection w' = collection w /\ calls w' = calls w /\
  exists msgs, log w' = log w ++ msgs.

(** The addresses filed under one register type are enough for a sequential
    block: there is none, or every one is set and two of them differ. *)
Definition spans_block (l : list (option Z)) : Prop :=
  l = [] \/ ((None ∉ l) /\ exists a b, Some a ∈ l /\ Some b ∈ l /\ a <> b).

(** The descriptors filed under one register type have one address between
    them. *)
Definition one_address (l : list (option Z)) : Prop :=
  l <> [] /\ exists a, forall x, x ∈ l -> x = Some a.

(** ** store.py: the dict branch of the sparse [setValues] *)

(** [CbModbusSparseDataBlock.setValues] with a dict (the [iteritems]
    branch): [items] are the entries of the dict in iteration order. *)
Definition sparse_setValues_dict {B} (ctx : ClearBladeModbusProxySlaveContext B)
    (address : Z) (items : list (Z * Z)) : M (CbModbusSparseDataBlock.t * World) unit :=
  b <- CbModbusSparseDataBlock.self ;;
  for_each (fun '(idx, val) =>
              on_fst (modify (fun b =>
                CbModbusSparseDataBlock.with_values b
                  (<[Some idx := val]> (CbModbusSparseDataBlock.values b)))) ;;;
              on_snd (write_collection_data ctx (CbModbusSparseDataBlock.register_type b)
                                            idx val))
           items.

(** ** modbus_server_adapter.py: the discovery of the proxies *)

(** The two records that the discovery loop of [run_async_server] writes. *)
Inductive adapter_message : Type :=
| FoundSlaveAt (ip_address : string)
| DuplicateProxyAddress (ip_address : string).

(** The locals [ip_proxies] and [proxy_ports]: two lists filled in step. *)
Record proxies : Type := {
  ip_proxies : list string;
  proxy_ports : list Z
}.

(** Body of [for row in rows]; the second component is what was logged. *)
Definition discover_proxy (acc : proxies * list (level * adapter_message)) (row : rtu_row)
  : proxies * list (level * adapter_message) :=
  let '(p, lg) := acc in
  let ip_address := COL_PROXY_IP_ADDRESS_ row in
  let tcp_port := COL_PROXY_IP_PORT row in
  if negb (str_in ip_address (ip_proxies p)) then
    ({| ip_proxies := ip_proxies p ++ [ip_address];
        proxy_ports := proxy_ports p ++ [tcp_port] |},
     lg ++ [(INFO, FoundSlaveAt ip_address)])
  else (p, lg ++ [(WARNING, DuplicateProxyAddress ip_address)]).

(** The query ([notEqualTo(ip_address, '')]) and the loop over its rows. *)
Definition discover_proxies (rtus : list rtu_row)
  : proxies * list (level * adapter_message) :=
  fold_left discover_proxy
            (filter (fun r => COL_PROXY_IP_ADDRESS_ r <> EmptyString) rtus)
            ({| ip_proxies := []; proxy_ports := [] |}, []).

(** The first row of a proxy address. *)
Definition first_row (ip : string) (rows : list rtu_row) : option rtu_row :=
  List.find (fun r => String.eqb (COL_PROXY_IP_ADDRESS_ r) ip) rows.

(** * Properties *)

(** ** Ranges, subscripts, loops *)

Lemma py_range_nil a b : b <= a -> py_range a b = [].
Proof.
  intros H. unfold py_range.
  replace (Z.to_nat (b - a)) with 0%nat by lia. reflexivity.
Qed.

Lemma py_range_length a b : List.length (py_range a b) = Z.to_nat (b - a).
Proof. unfold py_range. rewrite length_map, length_seq. reflexivity. Qed.

Lemma elem_of_py_range a b x : x ∈ py_range a b <-> a <= x < b.
Proof.
  unfold py_range. rewrite list_elem_of_fmap. split.
  - intros (k & -> & Hk). apply list_elem_of_In, in_seq in Hk. lia.
  - intros H. exists (Z.to_nat (x - a)). split; [lia|].
    apply list_elem_of_In, in_seq. lia.
Qed.

Lemma map_const_py_range lo hi :
  map (fun _ : Z => 0) (py_range lo hi) = replicate (Z.to_nat (hi - lo)) 0.
Proof.
  unfold py_range. rewrite map_map. generalize 0%nat at 1.
  induction (Z.to_nat (hi - lo)) as [|n IH]; intros k; cbn; [done|]. by rewrite IH.
Qed.

Lemma py_getitem_ok_nonneg {A} (l : list A) i x :
  0 <= i -> py_getitem l i = Ok x -> i < len l /\ l !! Z.to_nat i = Some x.
Proof.
  intros Hi. unfold py_getitem, py_index.
  destruct (Z.leb_spec 0 i); [|lia].
  destruct (Z.ltb_spec i (len l)); [|discriminate].
  destruct (l !! Z.to_nat i) eqn:E; [|discriminate].
  intros [= ->]. auto.
Qed.

Lemma py_getitem_first {A} (l : list A) x : l !! 0%nat = Some x -> py_getitem l 0 = Ok x.
Proof.
  intros H. unfold py_getitem, py_index. cbn [Z.leb Z.compare].
  assert (0 < len l) by (apply lookup_lt_Some in H; unfold len; lia).
  destruct (Z.ltb_spec 0 (len l)); [|lia]. change (Z.to_nat 0) with 0%nat. by rewrite H.
Qed.

Lemma py_getitem_last {A} (l : list A) x :
  l !! (List.length l - 1)%nat = Some x -> py_getitem l (len l - 1) = Ok x.
Proof.
  intros H. unfold py_getitem, py_index.
  assert (0 < len l) by (apply lookup_lt_Some in H; unfold len; lia).
  destruct (Z.leb_spec 0 (len l - 1)); [|lia].
  destruct (Z.ltb_spec (len l - 1) (len l)); [|lia].
  replace (Z.to_nat (len l - 1)) with (List.length l - 1)%nat by (unfold len; lia).
  by rewrite H.
Qed.

(** After [l.insert(i, y)] at a valid non-negative position, [l[i]] is [y]. *)
Lemma py_getitem_insert {A} (l : list A) i x y :
  0 <= i -> py_getitem l i = Ok x -> py_getitem (py_insert l i y) i = Ok y.
Proof.
  intros Hi H. destruct (py_getitem_ok_nonneg l i x Hi H) as [Hlt _].
  unfold py_insert, py_clamp.
  destruct (Z.ltb_spec i 0); [lia|].
  rewrite Z.min_l by lia.
  unfold py_getitem, py_index.
  destruct (Z.leb_spec 0 i); [|lia].
  assert (Hlen : len (take (Z.to_nat i) l ++ y :: drop (Z.to_nat i) l) = len l + 1).
  { unfold len in *. rewrite length_app, length_take. cbn [List.length].
    rewrite length_drop. lia. }
  rewrite Hlen.
  destruct (Z.ltb_spec i (len l + 1)); [|lia].
  rewrite lookup_app_r; rewrite length_take; unfold len in *; [|lia].
  replace (Z.to_nat i - Z.to_nat i `min` length l)%nat with 0%nat by lia.
  reflexivity.
Qed.

Lemma for_fold_app {S A B} (body : B -> A -> M S B) xs ys acc s :
  for_fold body (xs ++ ys) acc s =
  match for_fold body xs acc s with
  | (Ok acc', s') => for_fold body ys acc' s'
  | (Raise e, s') => (Raise e, s')
  end.
Proof.
  revert acc s. induction xs as [|x xs IH]; intros acc s; cbn [for_fold app]; [done|].
  unfold bind. destruct (body acc x s) as [[acc1|e] s1]; [apply IH|done].
Qed.

(** A loop whose body keeps an invariant keeps it. *)
Lemma for_fold_invariant {S A B} (body : B -> A -> M S B) (P : B -> Prop) xs :
  (forall acc x s acc' s', body acc x s = (Ok acc', s') -> P acc -> P acc') ->
  forall acc s acc' s', for_fold body xs acc s = (Ok acc', s') -> P acc -> P acc'.
Proof.
  intros Hbody. induction xs as [|x xs IH]; intros acc s acc' s' H HP; cbn [for_fold] in H.
  - by injection H as <- <-.
  - unfold bind in H. destruct (body acc x s) as [[acc1|e] s1] eqn:Hx; [|discriminate].
    eapply IH; [exact H|]. eapply Hbody; eauto.
Qed.

(** A loop returns when each iteration does. *)
Lemma for_each_is_ok {S A} (body : A -> M S unit) (ok : A -> bool) xs :
  (forall x s, is_ok (fst (body x s)) = ok x) ->
  forall s, is_ok (fst (for_each body xs s)) = forallb ok xs.
Proof.
  intros Hbody. induction xs as [|x xs IH]; intros s; cbn [for_each forallb]; [done|].
  unfold bind. specialize (Hbody x s).
  destruct (body x s) as [[[]|e] s1]; cbn in Hbody; rewrite <- Hbody; [apply IH|done].
Qed.

Lemma for_fold_is_ok {S A B} (body : B -> A -> M S B) (ok : A -> bool) xs :
  (forall acc x s, is_ok (fst (body acc x s)) = ok x) ->
  forall acc s, is_ok (fst (for_fold body xs acc s)) = forallb ok xs.
Proof.
  intros Hbody. induction xs as [|x xs IH]; intros acc s; cbn [for_fold forallb]; [done|].
  unfold bind. specialize (Hbody acc x s).
  destruct (body acc x s) as [[acc1|e] s1]; cbn in Hbody; rewrite <- Hbody; [apply IH|done].
Qed.

(** A loop raises what one of its iterations raises. *)
Lemma for_each_raises {S A} (body : A -> M S unit) (P : exn -> Prop) xs :
  (forall x s e s', body x s = (Raise e, s') -> P e) ->
  forall s e s', for_each body xs s = (Raise e, s') -> P e.
Proof.
  intros Hbody. induction xs as [|x xs IH]; intros s e s' H; cbn [for_each] in H.
  - discriminate.
  - unfold bind in H. destruct (body x s) as [[[]|e1] s1] eqn:Hx.
    + eapply IH; eauto.
    + injection H as <- <-. eapply Hbody; eauto.
Qed.

Lemma for_fold_raises {S A B} (body : B -> A -> M S B) (P : exn -> Prop) xs :
  (forall acc x s e s', body acc x s = (Raise e, s') -> P e) ->
  forall acc s e s', for_fold body xs acc s = (Raise e, s') -> P e.
Proof.
  intros Hbody. induction xs as [|x xs IH]; intros acc s e s' H; cbn [for_fold] in H.
  - discriminate.
  - unfold bind in H. destruct (body acc x s) as [[acc1|e1] s1] eqn:Hx.
    + eapply IH; eauto.
    + injection H as <- <-. eapply Hbody; eauto.
Qed.

(** ** Sorting *)

Lemma elem_of_insert_by {A} (le : A -> A -> bool) x y l :
  y ∈ insert_by le x l <-> y = x \/ y ∈ l.
Proof.
  induction l as [|z l IH]; cbn.
  - rewrite list_elem_of_singleton, elem_of_nil. tauto.
  - destruct (le x z); rewrite !elem_of_cons; [tauto|]. rewrite IH. tauto.
Qed.

Lemma elem_of_sorted {A} (le : A -> A -> bool) y l : y ∈ sorted le l <-> y ∈ l.
Proof.
  induction l as [|z l IH]; [done|].
  change (sorted le (z :: l)) with (insert_by le z (sorted le l)).
  rewrite elem_of_insert_by, IH, elem_of_cons. done.
Qed.

Lemma length_insert_by {A} (le : A -> A -> bool) x l :
  List.length (insert_by le x l) = S (List.length l).
Proof. induction l as [|z l IH]; cbn; [done|]. destruct (le x z); cbn; auto. Qed.

Lemma length_sorted {A} (le : A -> A -> bool) l : List.length (sorted le l) = List.length l.
Proof.
  induction l as [|z l IH]; [done|].
  change (sorted le (z :: l)) with (insert_by le z (sorted le l)).
  by rewrite length_insert_by, IH.
Qed.

Section sorting.
Context {A : Type} (le : A -> A -> bool).
Hypothesis le_total : forall x y, le x y = true \/ le y x = true.
Hypothesis le_trans : forall x y z, le x y = true -> le y z = true -> le x z = true.

Lemma insert_by_ordered x l : ordered le l -> ordered le (insert_by le x l).
Proof.
  induction l as [|y l IH]; cbn; [auto|].
  intros [Hy Hl]. destruct (le x y) eqn:Hxy; cbn.
  - repeat split; auto. constructor; [done|].
    eapply Forall_impl; [exact Hy|]. cbn. eauto.
  - split; [|auto]. apply Forall_forall. intros z Hz.
    apply elem_of_insert_by in Hz as [->|Hz].
    + destruct (le_total x y); congruence.
    + rewrite Forall_forall in Hy. auto.
Qed.

Lemma sorted_ordered l : ordered le (sorted le l).
Proof.
  induction l as [|x l IH]; [exact I|].
  change (sorted le (x :: l)) with (insert_by le x (sorted le l)).
  by apply insert_by_ordered.
Qed.

Lemma ordered_first l x y :
  ordered le l -> l !! 0%nat = Some x -> y ∈ l -> le x y = true.
Proof.
  destruct l as [|z l]; [done|]. cbn. intros [Hz _] [= ->] Hy.
  apply elem_of_cons in Hy as [->|Hy].
  - destruct (le_total x x); done.
  - rewrite Forall_forall in Hz. auto.
Qed.

Lemma ordered_last l x y :
  ordered le l -> l !! (List.length l - 1)%nat = Some x -> y ∈ l -> le y x = true.
Proof.
  induction l as [|z l IH]; [done|]. cbn [ordered List.length].
  intros [Hz Hl] Hx Hy.
  destruct l as [|z' l].
  - cbn in Hx. injection Hx as ->. apply list_elem_of_singleton in Hy as ->.
    destruct (le_total x x); done.
  - replace (S (List.length (z' :: l)) - 1)%nat with (S (List.length (z' :: l) - 1)) in Hx
      by (cbn; lia).
    cbn [lookup list_lookup] in Hx.
    apply elem_of_cons in Hy as [->|Hy]; [|by apply IH].
    rewrite Forall_forall in Hz. apply Hz.
    eapply list_elem_of_lookup_2. exact Hx.
Qed.
End sorting.

(** ** The bridge read of a sequential context *)

(** An iteration of the sequential read loop returns only when the row at
    subscript [addr] of [reg_list] is a stored row whose address is [addr];
    the list is then left as it is. *)
Lemma read_step_ok rt fill rl vs ts addr w r w' :
  0 <= addr ->
  read_step rt fill (rl, vs, ts) addr w = (Ok r, w') ->
  exists it, py_getitem rl addr = Ok (Row it) /\ COL_REG_ADDRESS it = addr /\
             r = (rl, vs ++ [COL_REG_DATA it], ts ++ [COL_DATA_TIMESTAMP it]) /\ w' = w.
Proof.
  intros Haddr. unfold read_step, bind, lift.
  destruct (py_getitem rl addr) as [[it|f]|e] eqn:Hget; cbn; try discriminate.
  destruct (Z.eqb_spec (COL_REG_ADDRESS it) addr) as [Heq|Hne]; cbn.
  - rewrite Hget. cbn. intros [= <- <-]. eauto.
  - destruct fill as [f|]; cbn; [|discriminate].
    rewrite (py_getitem_insert rl addr (Row it) (Filled f) Haddr Hget). cbn.
    discriminate.
Qed.

Lemma read_loop_ok rt fill xs : forall rl vs ts w r w',
  Forall (fun x => 0 <= x) xs ->
  for_fold (read_step rt fill) xs (rl, vs, ts) w = (Ok r, w') ->
  Forall (fun x => exists it, py_getitem rl x = Ok (Row it) /\ COL_REG_ADDRESS it = x) xs.
Proof.
  induction xs as [|x xs IH]; intros rl vs ts w r w' Hpos H; [constructor|].
  inversion Hpos as [|? ? Hx Hxs]; subst.
  cbn [for_fold] in H. unfold bind in H at 1.
  destruct (read_step rt fill (rl, vs, ts) x w) as [[acc|e] w1] eqn:Hstep; [|discriminate].
  destruct (read_step_ok _ _ _ _ _ _ _ _ _ Hx Hstep) as (it & Hget & Ha & -> & ->).
  constructor; [eauto|]. eapply IH; eauto.
Qed.

(** When the sequential read returns, every address of the range is below
    the number of rows returned and is the address of a returned row. *)
Lemma read_collection_data_ok {B} (ctx : ClearBladeModbusProxySlaveContext B)
    rt address count fill w r w' :
  sparse ctx = false -> 0 <= address ->
  read_collection_data ctx rt address count fill w = (Ok r, w') ->
  forall x, address <= x < address + count ->
    x < len (returned_rows ctx rt address count w) /\
    exists it, it ∈ returned_rows ctx rt address count w /\ COL_REG_ADDRESS it = x.
Proof.
  intros Hsp Hpos H. unfold read_collection_data, bind, getItems in H.
  fold (returned_rows ctx rt address count w) in H. rewrite Hsp in H.
  set (rl := sorted_by_key COL_REG_ADDRESS (returned_rows ctx rt address count w)) in *.
  assert (Hloop : exists w2 rl' vs ts w3,
    for_fold (read_step rt fill) (py_range address (address + count))
             (map Row rl, [], []) w2 = (Ok (rl', vs, ts), w3)).
  { unfold log_msg, modify, ret in H.
    destruct (negb (len rl =? count)); cbn in H;
    match type of H with
    | context [for_fold ?f ?xs ?acc ?w2] =>
        destruct (for_fold f xs acc w2) as [[[[rl' vs] ts]|e] w3] eqn:Hloop;
        [|discriminate]; eauto 10
    end. }
  destruct Hloop as (w2 & rl' & vs & ts & w3 & Hloop).
  intros x Hx.
  apply read_loop_ok in Hloop.
  2:{ apply Forall_forall. intros y Hy%elem_of_py_range. lia. }
  rewrite Forall_forall in Hloop.
  destruct (Hloop x) as (it & Hget & Hit); [by apply elem_of_py_range|].
  apply py_getitem_ok_nonneg in Hget as [Hlt Hlk]; [|lia].
  unfold len in Hlt. rewrite length_map in Hlt. unfold rl, sorted_by_key in Hlt.
  rewrite length_sorted in Hlt. split; [exact Hlt|].
  exists it. split; [|done].
  rewrite list_lookup_fmap in Hlk.
  destruct (rl !! Z.to_nat x) as [it'|] eqn:E; [|discriminate].
  injection Hlk as ->. apply list_elem_of_lookup_2 in E.
  by apply elem_of_sorted in E.
Qed.

(** C2. A sequential bridge read never fills a gap: whenever an address of
    the requested range [address, address + count) has no row in the remote
    result set, the read raises, with gap filling enabled ([fill] an integer,
    0 by default) as well as disabled ([fill] None); it returns no values. *)
Theorem read_collection_data_gap_raises {B} (ctx : ClearBladeModbusProxySlaveContext B)
    (rt : string) (address count : Z) (fill : option Z) (w : World) (a : Z) :
  sparse ctx = false -> 0 <= address -> address <= a < address + count ->
  (forall it, it ∈ returned_rows ctx rt address count w -> COL_REG_ADDRESS it <> a) ->
  is_ok (fst (read_collection_data ctx rt address count fill w)) = false.
Proof.
  intros Hsp Hpos Ha Hmiss.
  destruct (read_collection_data ctx rt address count fill w) as [[r|e] w'] eqn:H; [|done].
  destruct (read_collection_data_ok _ _ _ _ _ _ _ _ Hsp Hpos H a Ha) as (_ & it & Hin & Hit).
  by destruct (Hmiss it Hin).
Qed.

(** The spec's example: rows 0, 1 and 3 for a read of 5 registers from 0,
    fill value 0.  The filler logs and inserts its row, and the read then
    fails on the time stamp that row does not have. *)
Example read_collection_data_gap_example :
  let w := example_world [example_item 0 10 "t0"; example_item 1 11 "t1";
                          example_item 3 13 "t3"] in
  fst (read_collection_data (example_context false) "hr" 0 5 (Some 0) w) = Raise KeyError /\
  log (snd (read_collection_data (example_context false) "hr" 0 5 (Some 0) w)) =
    [(WARNING, GotRowsExpecting 3 5); (INFO, FillingRegister "hr" 2 0)] /\
  fst (read_collection_data (example_context false) "hr" 0 5 None w) =
    Raise ParameterException.
Proof. repeat split; vm_compute; reflexivity. Qed.

Lemma read_collection_data_gap_raises_witness :
  let w := example_world [example_item 0 10 "t0"; example_item 1 11 "t1";
                          example_item 3 13 "t3"] in
  sparse (example_context false) = false /\ 0 <= 0 /\ 0 <= 2 < 0 + 5 /\
  is_ok (fst (read_collection_data (example_context false) "hr" 0 5 (Some 0) w)) = false.
Proof.
  intros w. split; [reflexivity|]. split; [lia|]. split; [lia|].
  apply (read_collection_data_gap_raises (example_context false) "hr" 0 5 (Some 0) w 2);
    [reflexivity|lia|lia|].
  intros it Hin. vm_compute in Hin.
  repeat (apply elem_of_cons in Hin as [->|Hin]; [vm_compute; discriminate|]).
  by apply elem_of_nil in Hin.
Defined.

(** ** The sequential block *)

(** C1. A short read never returns [count] values from a sequential block:
    whenever the store returns fewer rows than [count], [getValues] raises.
    (The cache is not consulted for the addresses that were not returned.) *)
Theorem getValues_short_read_raises {B} (ctx : ClearBladeModbusProxySlaveContext B)
    (b : CbModbusSequentialDataBlock.t) (w : World) (address count : Z) :
  sparse ctx = false -> 0 <= address ->
  len (returned_rows ctx (CbModbusSequentialDataBlock.register_type b) address count w)
    < count ->
  is_ok (fst (CbModbusSequentialDataBlock.getValues ctx address count (b, w))) = false.
Proof.
  intros Hsp Hpos Hshort.
  unfold CbModbusSequentialDataBlock.getValues, bind at 1.
  unfold CbModbusSequentialDataBlock.self at 1. cbn [fst snd].
  unfold bind at 1, on_snd at 1. cbn [fst snd].
  destruct (read_collection_data ctx _ address count (Some 0) w) as [[r|e] w'] eqn:H; [|done].
  exfalso.
  assert (Hc : 0 < count) by (unfold len in Hshort; lia).
  destruct (read_collection_data_ok _ _ _ _ _ _ _ _ Hsp Hpos H (address + count - 1))
    as [Hlt _]; lia.
Qed.

(** A block over [0, 4) whose cache holds 1, 2, 3, 4, and a store that has
    rows for 0 and 1 only: a read of 3 registers from 0 raises; it does not
    return [10; 11; 3]. *)
Example getValues_short_read_example :
  let w := example_world [example_item 0 10 "t0"; example_item 1 11 "t1"] in
  fst (CbModbusSequentialDataBlock.getValues
         (example_context false) 0 3 (example_block 0 [1; 2; 3; 4], w)) = Raise IndexError.
Proof. vm_compute. reflexivity. Qed.

Lemma getValues_short_read_raises_witness :
  let w := example_world [example_item 0 10 "t0"; example_item 1 11 "t1"] in
  sparse (example_context false) = false /\ 0 <= 0 /\
  len (returned_rows (example_context false) "hr" 0 3 w) < 3 /\
  is_ok (fst (CbModbusSequentialDataBlock.getValues
                (example_context false) 0 3 (example_block 0 [1; 2; 3; 4], w))) = false.
Proof.
  intros w. split; [reflexivity|]. split; [lia|]. split; [vm_compute; reflexivity|].
  apply (getValues_short_read_raises (example_context false) (example_block 0 [1; 2; 3; 4])
           w 0 3); [reflexivity|lia|vm_compute; reflexivity].
Defined.

(** A read that the store serves in full returns the stored values when the
    block starts at 0 and the last address is left out. *)
Example getValues_full_read_example :
  let w := example_world [example_item 0 10 "t0"; example_item 1 11 "t1";
                          example_item 2 12 "t2"; example_item 3 13 "t3"] in
  let r := CbModbusSequentialDataBlock.getValues
             (example_context false) 0 3 (example_block 0 [1; 2; 3; 4], w) in
  fst r = Ok [10; 11; 12] /\
  CbModbusSequentialDataBlock.values (fst (snd r)) = [10; 11; 12; 4] /\
  CbModbusSequentialDataBlock.timestamps (fst (snd r)) = [Some "t0"; Some "t1"; Some "t2"].
Proof. repeat split; vm_compute; reflexivity. Qed.

(** The read of the whole block fails on the time stamp of the last address,
    for which the constructor made no room. *)
Example getValues_whole_block_example :
  let w := example_world [example_item 0 10 "t0"; example_item 1 11 "t1";
                          example_item 2 12 "t2"; example_item 3 13 "t3"] in
  fst (CbModbusSequentialDataBlock.getValues
         (example_context false) 0 4 (example_block 0 [1; 2; 3; 4], w)) = Raise IndexError.
Proof. vm_compute. reflexivity. Qed.

(** A full read does not fare better once the block does not start at 0: the
    rows are looked up by absolute address. *)
Example getValues_offset_example :
  let w := example_world [example_item 5 10 "t5"; example_item 6 11 "t6"] in
  fst (CbModbusSequentialDataBlock.getValues
         (example_context false) 5 2 (example_block 5 [0; 0; 0; 0], w)) = Raise IndexError.
Proof. vm_compute. reflexivity. Qed.

(** C3. [setValues] overwrites the cached slice, and issues no remote write
    at all when the start address is at least the number of values minus
    one: the write loop runs over [range(address, len(values) - 1)].  In
    particular a write of a single value to any address never reaches the
    store. *)
Theorem setValues_skips_remote_writes {B} (ctx : ClearBladeModbusProxySlaveContext B)
    (b : CbModbusSequentialDataBlock.t) (w : World) (addr : Z)
    (vs : CbModbusSequentialDataBlock.int_or_list) :
  len (seq_values vs) - 1 <= addr ->
  CbModbusSequentialDataBlock.setValues ctx addr vs (b, w) =
    (Ok tt,
     (CbModbusSequentialDataBlock.with_values b
        (py_setslice (CbModbusSequentialDataBlock.values b)
                     (addr - CbModbusSequentialDataBlock.address b)
                     (addr - CbModbusSequentialDataBlock.address b + len (seq_values vs))
                     (seq_values vs)),
      w)).
Proof.
  intros H. unfold CbModbusSequentialDataBlock.setValues. fold (seq_values vs).
  rewrite (py_range_nil _ _ H). reflexivity.
Qed.

Lemma setValues_skips_remote_writes_witness :
  let w := example_world [example_item 5 0 "t5"; example_item 6 0 "t6"] in
  len (seq_values (CbModbusSequentialDataBlock.Sequence [7; 8])) - 1 <= 5 /\
  CbModbusSequentialDataBlock.setValues (example_context false) 5
    (CbModbusSequentialDataBlock.Sequence [7; 8]) (example_block 5 [0; 0; 0; 0], w) =
    (Ok tt, (example_block 5 [7; 8; 0; 0], w)).
Proof.
  intros w. split; [vm_compute; discriminate|].
  apply (setValues_skips_remote_writes (example_context false)
           (example_block 5 [0; 0; 0; 0]) w 5 (CbModbusSequentialDataBlock.Sequence [7; 8])).
  vm_compute. discriminate.
Defined.

(** From address 0 the loop stops one short: three values, two writes. *)
Example setValues_from_zero_example :
  let w := example_world [] in
  calls (snd (snd (CbModbusSequentialDataBlock.setValues (example_context false) 0
                     (CbModbusSequentialDataBlock.Sequence [7; 8; 9])
                     (example_block 0 [0; 0; 0; 0], w)))) =
    [UpdateItems (data_query (example_context false) "hr" ++ [equalTo_register_address 0]) 7;
     UpdateItems (data_query (example_context false) "hr" ++ [equalTo_register_address 1]) 8].
Proof. vm_compute. reflexivity. Qed.

(** The sparse block writes every entry: the sibling path. *)
Example sparse_setValues_example :
  let w := example_world [] in
  calls (snd (snd (CbModbusSparseDataBlock.setValues (example_context true) 5
                     (CbModbusSequentialDataBlock.Sequence [7; 8])
                     (example_sparse_block, w)))) =
    [UpdateItems (data_query (example_context true) "hr" ++ [equalTo_register_address 5]) 7;
     UpdateItems (data_query (example_context true) "hr" ++ [equalTo_register_address 6]) 8].
Proof. vm_compute. reflexivity. Qed.

(** The base constructor accepts every list of values but the empty one. *)
Lemma sequential_super_init_cons (a v : Z) (vs : list Z) :
  CbModbusSequentialDataBlock.super__init__ a (v :: vs) = Ok (a, v :: vs).
Proof.
  unfold CbModbusSequentialDataBlock.super__init__, py_getitem, py_index, len.
  cbn [List.length]. change (0 <=? 0) with true. cbn match.
  destruct (Z.ltb_spec 0 (Z.of_nat (S (List.length vs)))); [reflexivity|lia].
Qed.

Lemma sequential_super_init_nil (a : Z) :
  CbModbusSequentialDataBlock.super__init__ a [] = Raise IndexError.
Proof. reflexivity. Qed.

(** C6. The time stamps of a new sequential block are one short of its
    values, so [get_timestamps] over the whole block returns one time stamp
    less than there are addresses. *)
Theorem init_timestamps_one_short (rt : string) (a : Z) (vs : list Z)
    (b : CbModbusSequentialDataBlock.t) :
  CbModbusSequentialDataBlock.__init__ rt a vs = Ok b -> 0 < len vs ->
  len (CbModbusSequentialDataBlock.timestamps b) =
    len (CbModbusSequentialDataBlock.values b) - 1 /\
  len (CbModbusSequentialDataBlock.get_timestamps b a
         (len (CbModbusSequentialDataBlock.values b))) =
    len (CbModbusSequentialDataBlock.values b) - 1.
Proof.
  intros H Hne. unfold CbModbusSequentialDataBlock.__init__ in H.
  destruct vs as [|v vs0]; [discriminate|].
  rewrite sequential_super_init_cons in H.
  set (vs := v :: vs0) in *. clearbody vs.
  destruct (str_in rt REGISTER_TYPES); [|discriminate].
  injection H as <-.
  cbn [CbModbusSequentialDataBlock.timestamps CbModbusSequentialDataBlock.values
       CbModbusSequentialDataBlock.address].
  assert (Hl : len (map (fun _ : Z => @None timestamp) (py_range 0 (len vs - 1)))
               = len vs - 1).
  { unfold len in *. rewrite length_map, py_range_length. lia. }
  split; [exact Hl|].
  unfold CbModbusSequentialDataBlock.get_timestamps.
  cbn [CbModbusSequentialDataBlock.timestamps CbModbusSequentialDataBlock.address].
  set (ts := map _ _) in *. unfold py_getslice, py_clamp. rewrite Hl.
  replace (a - a) with 0 by lia. cbn [Z.ltb Z.compare].
  destruct (Z.ltb_spec (0 + len vs) 0); [lia|].
  rewrite (Z.min_r (0 + len vs)), (Z.min_l 0) by lia.
  unfold len in *. change (Z.to_nat 0) with 0%nat. rewrite drop_0, length_take. lia.
Qed.

Lemma init_timestamps_one_short_witness :
  CbModbusSequentialDataBlock.__init__ "hr" 5 [0; 0; 0; 0] = Ok (example_block 5 [0; 0; 0; 0]) /\
  0 < len [0; 0; 0; 0] /\
  len (CbModbusSequentialDataBlock.get_timestamps (example_block 5 [0; 0; 0; 0]) 5 4) = 3.
Proof.
  split; [reflexivity|]. split; [reflexivity|].
  apply (init_timestamps_one_short "hr" 5 [0; 0; 0; 0] (example_block 5 [0; 0; 0; 0]));
    reflexivity.
Defined.

(** The sparse constructor gives every address its (null) time stamp: the
    sibling path. *)
Example sparse_init_example :
  CbModbusSparseDataBlock.__init__ "hr" {[ Some 5 := 0; Some 7 := 0; Some 9 := 0 ]}
  = Ok example_sparse_block.
Proof. vm_compute. reflexivity. Qed.

(** ** The sparse block *)

Lemma fold_insert_lookup {A V} (key : A -> Z) (val : A -> V) (l : list A) :
  forall (d : gmap Z V) k,
    is_Some (fold_left (fun d reg => <[key reg := val reg]> d) l d !! k) <->
    is_Some (d !! k) \/ k ∈ map key l.
Proof.
  induction l as [|x l IH]; intros d k; cbn [fold_left map].
  - rewrite elem_of_nil. tauto.
  - rewrite IH, elem_of_cons, lookup_insert_is_Some.
    destruct (decide (key x = k)) as [->|Hne]; [tauto|].
    split.
    + intros [[H|[_ H]]|H]; tauto.
    + intros [H|[H|H]]; [tauto|congruence|tauto].
Qed.

(** The bridge read of a sparse context always returns: two mappings keyed
    by the addresses of the rows the store returned, and nothing else. *)
Lemma read_collection_data_sparse {B} (ctx : ClearBladeModbusProxySlaveContext B)
    rt address count fill w :
  sparse ctx = true ->
  exists vd td w',
    read_collection_data ctx rt address count fill w = (Ok (PyDict vd, PyDict td), w') /\
    (forall k, is_Some (vd !! k) -> is_Some (td !! k)) /\
    (forall k, is_Some (vd !! k) <->
               exists it, it ∈ returned_rows ctx rt address count w /\ COL_REG_ADDRESS it = k).
Proof.
  intros Hsp. unfold read_collection_data, bind, getItems. rewrite Hsp.
  fold (returned_rows ctx rt address count w).
  unfold log_msg, modify, ret.
  assert (Hkeys : forall k,
    k ∈ map COL_REG_ADDRESS (sorted_by_key COL_REG_ADDRESS (returned_rows ctx rt address count w))
    <-> exists it, it ∈ returned_rows ctx rt address count w /\ COL_REG_ADDRESS it = k).
  { intros k. rewrite list_elem_of_fmap. unfold sorted_by_key.
    split; intros (it & H1 & H2).
    - exists it. by rewrite elem_of_sorted in H2.
    - exists it. by rewrite elem_of_sorted. }
  match goal with |- context [negb ?c] => destruct (negb c) end;
    (do 3 eexists; split; [reflexivity|]); (split; intros k);
    rewrite ?fold_insert_lookup, ?lookup_empty, <- ?Hkeys.
  all: try (intros [[? Hk]|Hk]; [discriminate|by right]).
  all: split; [intros [[? Hk]|Hk]; [discriminate|done]|by right].
Qed.

Section merge.
Context (vd : gmap Z Z) (td : gmap Z (option timestamp)) (i : Z).

(** Merging a returned key leaves an undefined address undefined. *)
Lemma merge_addr_keeps_missing key addrs : forall b w,
  is_Some (vd !! key) -> is_Some (td !! key) ->
  Forall (fun addr => addr <> Some i) addrs ->
  CbModbusSparseDataBlock.values b !! Some i = None ->
  exists b',
    for_each (CbModbusSparseDataBlock.merge_addr (PyDict vd) (PyDict td) key) addrs (b, w)
      = (Ok tt, (b', w)) /\
    CbModbusSparseDataBlock.values b' !! Some i = None.
Proof.
  intros b w [v Hv] [ts Hts] Hall. revert b.
  induction Hall as [|addr addrs Hne _ IH]; intros b Hb; cbn [for_each].
  - eexists. split; [reflexivity|done].
  - unfold bind at 1, CbModbusSparseDataBlock.merge_addr at 1.
    destruct (decide (Some key = addr)) as [<-|Hd].
    + unfold bind, lift, c_getitem, on_fst, modify. rewrite Hv, Hts. cbn.
      match goal with
      | |- context [for_each _ _ (?b1, _)] => destruct (IH b1) as (b' & -> & Hb')
      end.
      { cbn. rewrite lookup_insert_ne; [done|congruence]. }
      eauto.
    + unfold ret. destruct (IH b Hb) as (b' & -> & Hb'). eauto.
Qed.

Lemma merge_key_keeps_missing keys : forall b w,
  Forall (fun key => is_Some (vd !! key) /\ is_Some (td !! key)) keys ->
  CbModbusSparseDataBlock.values b !! Some i = None ->
  exists b',
    for_each (CbModbusSparseDataBlock.merge_key (PyDict vd) (PyDict td)) keys (b, w)
      = (Ok tt, (b', w)) /\
    CbModbusSparseDataBlock.values b' !! Some i = None.
Proof.
  intros b w Hall. revert b.
  induction Hall as [|key keys [Hv Ht] _ IH]; intros b Hb; cbn [for_each].
  - eexists. split; [reflexivity|done].
  - unfold bind at 1, CbModbusSparseDataBlock.merge_key at 1.
    unfold bind at 1, CbModbusSparseDataBlock.self at 1. cbn [fst].
    destruct (merge_addr_keeps_missing key
                (map_to_list (CbModbusSparseDataBlock.values b)).*1 b w Hv Ht)
      as (b1 & -> & Hb1); [|done|].
    { apply Forall_forall. intros addr Hin ->.
      apply list_elem_of_fmap in Hin as ([k v] & Hk & Hin). cbn in Hk. subst k.
      apply elem_of_map_to_list in Hin. congruence. }
    destruct (IH b1 Hb1) as (b' & -> & Hb'). eauto.
Qed.
End merge.

Lemma list_comp_value_at_missing xs i : forall b w,
  i ∈ xs -> CbModbusSparseDataBlock.values b !! Some i = None ->
  fst (list_comp (fun i => CbModbusSparseDataBlock.value_at (Some i)) xs (b, w))
  = Raise KeyError.
Proof.
  induction xs as [|x xs IH]; intros b w Hin Hb; [by apply elem_of_nil in Hin|].
  cbn [list_comp].
  unfold bind at 1, CbModbusSparseDataBlock.value_at at 1, bind at 1,
    CbModbusSparseDataBlock.self at 1. cbn [fst].
  destruct (CbModbusSparseDataBlock.values b !! Some x) as [v|] eqn:Hx; [|reflexivity].
  unfold ret at 1. unfold bind at 1.
  apply elem_of_cons in Hin as [->|Hin]; [congruence|].
  specialize (IH b w Hin Hb).
  destruct (list_comp _ xs (b, w)) as [[r|e] s]; cbn in IH; [discriminate|].
  by injection IH as ->.
Qed.

(** C10. In a sparse context, [getValues] on a sparse block raises a
    [KeyError] whenever some address of the requested range is not a key of
    the block, while the bridge read itself returns, with a mapping that holds
    exactly the addresses of the rows the store returned. *)
Theorem sparse_getValues_missing_address_raises {B}
    (ctx : ClearBladeModbusProxySlaveContext B) (b : CbModbusSparseDataBlock.t)
    (w : World) (address count i : Z) :
  sparse ctx = true ->
  address <= i < address + count ->
  CbModbusSparseDataBlock.values b !! Some i = None ->
  fst (CbModbusSparseDataBlock.getValues ctx address count (b, w)) = Raise KeyError /\
  exists vd td w',
    read_collection_data ctx (CbModbusSparseDataBlock.register_type b) address count
                         (Some 0) w = (Ok (PyDict vd, PyDict td), w') /\
    forall k, is_Some (vd !! k) <->
              exists it, it ∈ returned_rows ctx (CbModbusSparseDataBlock.register_type b)
                                address count w /\ COL_REG_ADDRESS it = k.
Proof.
  intros Hsp Hi Hb.
  destruct (read_collection_data_sparse ctx (CbModbusSparseDataBlock.register_type b)
              address count (Some 0) w Hsp) as (vd & td & w1 & Hread & Hdom & Hkeys).
  split; [|eauto].
  unfold CbModbusSparseDataBlock.getValues.
  unfold bind at 1, CbModbusSparseDataBlock.self at 1. cbn [fst].
  unfold bind at 1, on_snd at 1. cbn [fst snd]. rewrite Hread.
  unfold bind at 1.
  set (logging := if negb (c_len (PyDict vd) =? count)
                  then on_snd (log_msg WARNING
                                 (RegisterCountMismatch count (c_len (PyDict vd))))
                  else ret tt).
  assert (Hlog : exists w2, logging (b, w1) = (Ok tt, (b, w2))).
  { subst logging. destruct (negb _); eexists; reflexivity. }
  destruct Hlog as (w2 & ->). unfold bind at 1.
  destruct (merge_key_keeps_missing vd td i (c_iter (PyDict vd)) b w2)
    as (b' & -> & Hb'); [|done|].
  { apply Forall_forall. intros key Hin. cbn in Hin.
    apply list_elem_of_fmap in Hin as ([k v] & -> & Hin).
    apply elem_of_map_to_list in Hin. cbn. split; [eauto|]. apply Hdom. eauto. }
  apply list_comp_value_at_missing with (i := i); [by apply elem_of_py_range|done].
Qed.

Lemma sparse_getValues_missing_address_raises_witness :
  let w := example_world [example_item 5 50 "t5"; example_item 6 60 "t6";
                          example_item 7 70 "t7"] in
  sparse (example_context true) = true /\ 5 <= 6 < 5 + 3 /\
  CbModbusSparseDataBlock.values example_sparse_block !! Some 6 = None /\
  fst (CbModbusSparseDataBlock.getValues (example_context true) 5 3
         (example_sparse_block, w)) = Raise KeyError.
Proof.
  intros w. split; [reflexivity|]. split; [lia|]. split; [reflexivity|].
  apply (sparse_getValues_missing_address_raises (example_context true)
           example_sparse_block w 5 3 6); [reflexivity|lia|reflexivity].
Defined.

(** A short read of an address that is a key is served from the cache, with
    the two warnings. *)
Example sparse_getValues_short_read_example :
  let r := CbModbusSparseDataBlock.getValues (example_context true) 5 1
             (example_sparse_block, example_world []) in
  fst r = Ok [0] /\
  log (snd (snd r)) = [(WARNING, GotRowsExpecting 0 1); (WARNING, RegisterCountMismatch 1 0)].
Proof. split; vm_compute; reflexivity. Qed.

(** When every address of the range is a key, the read returns the values
    after the merge. *)
Example sparse_getValues_example :
  let w := example_world [example_item 5 50 "t5"; example_item 6 60 "t6"] in
  fst (CbModbusSparseDataBlock.getValues (example_context true) 5 1
         (example_sparse_block, w)) = Ok [50].
Proof. vm_compute. reflexivity. Qed.

(** ** The template parser: which texts are parsed *)

Lemma lstrip_head s :
  lstrip s = EmptyString \/ exists c r, lstrip s = String c r /\ is_space c = false.
Proof.
  induction s as [|c r IH]; cbn; [auto|].
  destruct (is_space c) eqn:E; [exact IH|]. right. eauto.
Qed.

Lemma rstrip_idem s : rstrip (rstrip s) = rstrip s.
Proof.
  induction s as [|c r IH]; [done|]. cbn [rstrip].
  destruct (rstrip r) as [|c' r'] eqn:E.
  - destruct (is_space c) eqn:Ec; [done|]. cbn. by rewrite Ec.
  - change (rstrip (String c (String c' r')))
      with (match rstrip (String c' r') with
            | EmptyString => if is_space c then EmptyString else String c EmptyString
            | String a r'' => String c (String a r'')
            end).
    by rewrite IH.
Qed.

Lemma lstrip_rstrip c r :
  is_space c = false -> lstrip (rstrip (String c r)) = rstrip (String c r).
Proof.
  intros Ec. cbn [rstrip]. destruct (rstrip r); [rewrite Ec|]; cbn; by rewrite Ec.
Qed.

Lemma strip_idem s : strip (strip s) = strip s.
Proof.
  unfold strip. destruct (lstrip_head s) as [->|(c & r & -> & Ec)]; [done|].
  rewrite (lstrip_rstrip c r Ec). apply rstrip_idem.
Qed.

(** [int] strips its argument itself. *)
Lemma py_int_strip s : py_int (strip s) = py_int s.
Proof. unfold py_int. by rewrite strip_idem. Qed.

Lemma identity_field_is_ok id_tag st :
  is_ok (fst (identity_field id_tag st)) = field_numeric DeviceLine id_tag.
Proof.
  unfold identity_field, field_numeric, numeric_text.
  repeat (match goal with |- context [has_tag ?t id_tag] => destruct (has_tag t id_tag) end;
          cbn [orb]; [reflexivity|]).
  change (String.length "sparse") with 6%nat.
  destruct (String.eqb _ _); [|reflexivity].
  unfold bind, lift. rewrite py_int_strip.
  destruct (py_int _); reflexivity.
Qed.

Lemma network_field_is_ok i st :
  is_ok (fst (network_field i st)) = field_numeric NetworkLine i.
Proof.
  unfold network_field, field_numeric, numeric_text.
  change TEMPLATE_PARSER_SLAVE_ID with "networkId"%string.
  change TEMPLATE_PARSER_NOT_ZERO_MODE with "plcBaseAddress"%string.
  destruct (has_tag "networkId" i).
  - unfold bind, lift. rewrite py_int_strip.
    destruct (py_int _) as [n|e]; [|reflexivity]. cbn.
    destruct (in_range n 1 255); reflexivity.
  - destruct (has_tag "plcBaseAddress" i); [|reflexivity].
    unfold bind, lift. rewrite py_int_strip.
    destruct (py_int _); reflexivity.
Qed.

Lemma register_field_is_ok l c st :
  is_ok (fst (register_field l c st)) = field_numeric RegisterLine c.
Proof.
  unfold register_field, field_numeric, numeric_text.
  change TEMPLATE_PARSER_REG_UID with "paramId"%string.
  change TEMPLATE_PARSER_REG_ADDRESS with "address"%string.
  destruct (has_tag "paramId" c).
  - unfold bind, lift. rewrite py_int_strip.
    destruct (py_int _); reflexivity.
  - destruct (has_tag "address" c).
    + unfold bind, lift. rewrite py_int_strip.
      destruct (py_int _) as [n|e]; [|reflexivity]. cbn.
      destruct (in_range _ 0 _); reflexivity.
    + destruct (has_tag TEMPLATE_PARSER_REG_TYPE c); [|reflexivity].
      repeat (match goal with |- context [str_in ?x ?l] => destruct (str_in x l) end;
              [reflexivity|]).
      reflexivity.
Qed.

Lemma parse_line_is_ok regs line st :
  is_ok (fst (parse_line regs line st)) = line_numeric line.
Proof.
  unfold parse_line, line_numeric, kind_of_line.
  destruct (has_tag TEMPLATE_PARSER_DESC line).
  - unfold bind. rewrite <- (for_each_is_ok identity_field _ _ identity_field_is_ok st).
    destruct (for_each identity_field _ st) as [[[]|e] s1]; reflexivity.
  - destruct (has_tag TEMPLATE_PARSER_NETWORK line).
    + unfold bind. rewrite <- (for_each_is_ok network_field _ _ network_field_is_ok st).
      destruct (for_each network_field _ st) as [[[]|e] s1]; reflexivity.
    + destruct (has_tag TEMPLATE_PARSER_REGISTER_DEF line).
      * unfold bind.
        rewrite <- (for_fold_is_ok register_field _ _ register_field_is_ok
                      {| registers := regs; reg_exists := false; this_reg := None |} st).
        destruct (for_fold register_field _ _ st) as [[l|e] s1]; reflexivity.
      * cbn. clear. induction (split _ _); cbn; auto.
Qed.

(** The only exception of the line loop is the [ValueError] of [int]. *)
Lemma digits_raises s : forall acc e, digits acc s = Raise e -> e = ValueError.
Proof.
  induction s as [|c r IH]; intros acc e; cbn; [discriminate|].
  destruct (digit c); [apply IH|congruence].
Qed.

Lemma py_int_raises s e : py_int s = Raise e -> e = ValueError.
Proof.
  unfold py_int. destruct (strip s) as [|c r]; [congruence|].
  destruct (Ascii.eqb c "-").
  { destruct r as [|c' r']; [congruence|].
    destruct (digits 0 (String c' r')) eqn:E; [discriminate|].
    intros [= <-]. eapply digits_raises; eauto. }
  destruct (Ascii.eqb c "+").
  { destruct r as [|c' r']; [congruence|]. apply digits_raises. }
  apply digits_raises.
Qed.

Lemma identity_field_raises id_tag st e st' :
  identity_field id_tag st = (Raise e, st') -> e = ValueError.
Proof.
  unfold identity_field.
  repeat (match goal with |- context [has_tag ?t id_tag] => destruct (has_tag t id_tag) end;
          [discriminate|]).
  destruct (String.eqb _ _); [|discriminate].
  unfold bind, lift. destruct (py_int _) eqn:E; [discriminate|].
  intros [= <- <-]. eapply py_int_raises; eauto.
Qed.

Lemma network_field_raises i st e st' :
  network_field i st = (Raise e, st') -> e = ValueError.
Proof.
  unfold network_field.
  destruct (has_tag TEMPLATE_PARSER_SLAVE_ID i).
  - unfold bind, lift. destruct (py_int (strip _)) as [n|e1] eqn:E.
    + destruct (in_range n 1 255); [|discriminate].
      destruct (py_int (after_tag _ _)) eqn:E2; [discriminate|].
      intros [= <- <-]. eapply py_int_raises; eauto.
    + intros [= <- <-]. eapply py_int_raises; eauto.
  - destruct (has_tag TEMPLATE_PARSER_NOT_ZERO_MODE i); [|discriminate].
    unfold bind, lift. destruct (py_int _) eqn:E; [discriminate|].
    intros [= <- <-]. eapply py_int_raises; eauto.
Qed.

Lemma register_field_raises l c st e st' :
  register_field l c st = (Raise e, st') -> e = ValueError.
Proof.
  unfold register_field.
  destruct (has_tag TEMPLATE_PARSER_REG_UID c).
  { unfold bind, lift. destruct (py_int _) eqn:E; [discriminate|].
    intros [= <- <-]. eapply py_int_raises; eauto. }
  destruct (has_tag TEMPLATE_PARSER_REG_ADDRESS c).
  { unfold bind, lift. destruct (py_int _) eqn:E.
    - cbn. destruct (in_range _ _ _); discriminate.
    - intros [= <- <-]. eapply py_int_raises; eauto. }
  destruct (has_tag TEMPLATE_PARSER_REG_TYPE c); [|discriminate].
  repeat (match goal with |- context [str_in ?x ?ls] => destruct (str_in x ls) end;
          [discriminate|]).
  discriminate.
Qed.

Lemma parse_line_raises regs line st e st' :
  parse_line regs line st = (Raise e, st') -> e = ValueError.
Proof.
  unfold parse_line.
  destruct (has_tag TEMPLATE_PARSER_DESC line).
  { unfold bind. destruct (for_each identity_field _ st) as [[[]|e1] s1] eqn:E; [discriminate|].
    intros [= <- <-].
    eapply (for_each_raises identity_field (fun e => e = ValueError)); [|exact E].
    apply identity_field_raises. }
  destruct (has_tag TEMPLATE_PARSER_NETWORK line).
  { unfold bind. destruct (for_each network_field _ st) as [[[]|e1] s1] eqn:E; [discriminate|].
    intros [= <- <-].
    eapply (for_each_raises network_field (fun e => e = ValueError)); [|exact E].
    apply network_field_raises. }
  destruct (has_tag TEMPLATE_PARSER_REGISTER_DEF line); [|discriminate].
  unfold bind. destruct (for_fold register_field _ _ st) as [[l|e1] s1] eqn:E; [discriminate|].
  intros [= <- <-].
  eapply (for_fold_raises register_field (fun e => e = ValueError)); [|exact E].
  apply register_field_raises.
Qed.

Lemma parse_lines_raises config_file st e st' :
  parse_lines config_file st = (Raise e, st') -> e = ValueError.
Proof.
  unfold parse_lines. apply (for_fold_raises parse_line (fun e => e = ValueError)).
  apply parse_line_raises.
Qed.

(** The three violations that are logged and skipped. *)
Lemma network_field_invalid_id i n s w :
  has_tag TEMPLATE_PARSER_SLAVE_ID i = true ->
  py_int (after_tag TEMPLATE_PARSER_SLAVE_ID i) = Ok n ->
  in_range n 1 255 = false ->
  network_field i (s, w) = (Ok tt, (s, logged ERROR (InvalidSlaveId n) w)).
Proof.
  intros Htag Hint Hr. unfold network_field. rewrite Htag.
  unfold bind, lift. rewrite py_int_strip, Hint, Hr. reflexivity.
Qed.

Lemma register_field_invalid_address l c n s w :
  has_tag TEMPLATE_PARSER_REG_UID c = false ->
  has_tag TEMPLATE_PARSER_REG_ADDRESS c = true ->
  py_int (after_tag TEMPLATE_PARSER_REG_ADDRESS c) = Ok n ->
  in_range (if negb (zero_mode s) then n + 1 else n) 0 (99999 + 1) = false ->
  register_field l c (s, w) =
    (Ok l, (s, logged ERROR (InvalidAddress (if negb (zero_mode s) then n + 1 else n)) w)).
Proof.
  intros Hu Htag Hint Hr. unfold register_field. rewrite Hu, Htag.
  unfold bind, lift. rewrite py_int_strip, Hint. cbn [self fst]. rewrite Hr. reflexivity.
Qed.

Lemma register_field_unsupported_type l c s w :
  has_tag TEMPLATE_PARSER_REG_UID c = false ->
  has_tag TEMPLATE_PARSER_REG_ADDRESS c = false ->
  has_tag TEMPLATE_PARSER_REG_TYPE c = true ->
  register_type_of_token (strip (after_tag TEMPLATE_PARSER_REG_TYPE c)) = None ->
  register_field l c (s, w) =
    (Ok l, (s, logged ERROR
                 (UnsupportedRegisterType (strip (after_tag TEMPLATE_PARSER_REG_TYPE c))) w)).
Proof.
  intros Hu Ha Htag Htok. unfold register_field. rewrite Hu, Ha, Htag.
  unfold register_type_of_token in Htok. unfold str_in. cbn [existsb].
  change TEMPLATE_PARSER_TYPE_INPUT_REGISTER with "analog"%string.
  change TEMPLATE_PARSER_TYPE_HOLDING_REGISTER with "holding"%string.
  change TEMPLATE_PARSER_TYPE_DISCRETE_INPUT with "input"%string.
  change TEMPLATE_PARSER_TYPE_COIL with "coil"%string.
  destruct (String.eqb _ "holding"); [discriminate|].
  destruct (String.eqb _ "analog"); [discriminate|].
  destruct (String.eqb _ "input"); [discriminate|].
  destruct (String.eqb _ "coil"); [discriminate|].
  reflexivity.
Qed.

(** C4 (as amended). The line loop of the template parser returns its
    descriptor list exactly when every value after a [paramId=], [address=],
    [networkId=], [plcBaseAddress=] or [sparse=] tag is an integer literal (a
    value that is not makes [int] raise, and nothing catches it).  Unit ids
    outside 1..254, addresses outside 0..99999 and unknown register types
    do not abort: the field is logged as an error and leaves the state as it
    was. *)
Theorem parse_lines_returns_iff_numeric :
  (forall config_file s w,
     is_ok (fst (parse_lines config_file (s, w))) = numeric_fields_ok config_file) /\
  (forall config_file s w e,
     fst (parse_lines config_file (s, w)) = Raise e -> e = ValueError) /\
  (forall i n s w,
     has_tag TEMPLATE_PARSER_SLAVE_ID i = true ->
     py_int (after_tag TEMPLATE_PARSER_SLAVE_ID i) = Ok n ->
     in_range n 1 255 = false ->
     network_field i (s, w) = (Ok tt, (s, logged ERROR (InvalidSlaveId n) w))) /\
  (forall l c n s w,
     has_tag TEMPLATE_PARSER_REG_UID c = false ->
     has_tag TEMPLATE_PARSER_REG_ADDRESS c = true ->
     py_int (after_tag TEMPLATE_PARSER_REG_ADDRESS c) = Ok n ->
     in_range (if negb (zero_mode s) then n + 1 else n) 0 (99999 + 1) = false ->
     register_field l c (s, w) =
       (Ok l, (s, logged ERROR
                    (InvalidAddress (if negb (zero_mode s) then n + 1 else n)) w))) /\
  (forall l c s w,
     has_tag TEMPLATE_PARSER_REG_UID c = false ->
     has_tag TEMPLATE_PARSER_REG_ADDRESS c = false ->
     has_tag TEMPLATE_PARSER_REG_TYPE c = true ->
     register_type_of_token (strip (after_tag TEMPLATE_PARSER_REG_TYPE c)) = None ->
     register_field l c (s, w) =
       (Ok l, (s, logged ERROR
                    (UnsupportedRegisterType
                       (strip (after_tag TEMPLATE_PARSER_REG_TYPE c))) w))).
Proof.
  split; [|split; [|split; [|split]]].
  - intros config_file s w. unfold parse_lines, numeric_fields_ok.
    apply for_fold_is_ok. intros acc x st. apply parse_line_is_ok.
  - intros config_file s w e H.
    destruct (parse_lines config_file (s, w)) as [r st'] eqn:Hrun.
    cbn in H. subst r. eapply parse_lines_raises; eauto.
  - apply network_field_invalid_id.
  - apply register_field_invalid_address.
  - apply register_field_unsupported_type.
Qed.

(** C4, the counterexample: a value that is not a number after [paramId=]
    aborts the parser with a [ValueError]; so do the other numeric tags. *)
Lemma parse_config_nonnumeric_raises :
  fst (_parse_config "paramId=abc;address=42;registerType=holding"
                     (example_context false, example_world [])) = Raise ValueError /\
  fst (_parse_config "paramId=1;address=0x2A" (example_context false, example_world []))
    = Raise ValueError /\
  fst (_parse_config "deviceId=1;networkId=three" (example_context false, example_world []))
    = Raise ValueError /\
  fst (_parse_config "deviceId=1;plcBaseAddress=" (example_context false, example_world []))
    = Raise ValueError /\
  fst (_parse_config "/*DEVICE;sparse=true" (example_context false, example_world []))
    = Raise ValueError.
Proof. repeat split; vm_compute; reflexivity. Qed.

(** The violations of [out_of_range_template] are logged, and the parser
    returns the descriptor without address or type. *)
Example parse_lines_out_of_range_example :
  parse_lines out_of_range_template (example_context false, example_world []) =
    (Ok [new_RegisterBlockConfig (Some 1) None],
     (example_context false,
      {| collection := []; calls := [];
         log := [(ERROR, InvalidSlaveId 300); (ERROR, InvalidAddress 100000);
                 (ERROR, UnsupportedRegisterType "float")] |})).
Proof. vm_compute. reflexivity. Qed.

(** A descriptor left without an address stops the construction of a
    sequential layout. *)
Example parse_config_unset_address_example :
  fst (_parse_config out_of_range_template (example_context false, example_world []))
  = Raise TypeError.
Proof. vm_compute. reflexivity. Qed.

(** ** The address space builder *)

Lemma address_le_total x y : address_le x y = true \/ address_le y x = true.
Proof. destruct x, y; cbn; auto. lia. Qed.

Lemma address_le_trans x y z :
  address_le x y = true -> address_le y z = true -> address_le x z = true.
Proof. destruct x, y, z; cbn; auto; try discriminate. lia. Qed.

(** The constructor of the sequential block on a list of zeros. *)
Lemma sequential_init_zeros (rt : string) (lo : Z) (n : nat) :
  str_in rt REGISTER_TYPES = true ->
  CbModbusSequentialDataBlock.__init__ rt lo (replicate n 0) =
    match n with
    | O => Raise IndexError
    | S _ =>
        Ok {| CbModbusSequentialDataBlock.address := lo;
              CbModbusSequentialDataBlock.values := replicate n 0;
              CbModbusSequentialDataBlock.register_type := rt;
              CbModbusSequentialDataBlock.timestamps :=
                map (fun _ => None) (py_range 0 (len (replicate n 0) - 1)) |}
    end.
Proof.
  intros Hrt. unfold CbModbusSequentialDataBlock.__init__. destruct n as [|n]; [reflexivity|].
  cbn [replicate]. rewrite sequential_super_init_cons, Hrt. reflexivity.
Qed.

(** What [_setup_sequential_block] does with a non-empty list of integer
    addresses: [lo] and [hi] are the least and the greatest of them. *)
Lemma setup_sequential_block_run (addresses : list Z) (rt : string) :
  str_in rt REGISTER_TYPES = true -> addresses <> [] ->
  exists lo hi,
    lo ∈ addresses /\ hi ∈ addresses /\ (forall a, a ∈ addresses -> lo <= a <= hi) /\
    _setup_sequential_block (map Some addresses) rt =
      match CbModbusSequentialDataBlock.__init__ rt lo (replicate (Z.to_nat (hi - lo)) 0) with
      | Ok b => Ok (Some (Sequential b))
      | Raise e => Raise e
      end.
Proof.
  intros Hrt Hne. unfold _setup_sequential_block. rewrite Hrt.
  set (block := sorted address_le (map Some addresses)).
  assert (Hlen : List.length block = List.length addresses).
  { unfold block. by rewrite length_sorted, length_map. }
  assert (Hpos : (0 < List.length addresses)%nat) by (destruct addresses; [done|cbn; lia]).
  destruct (Z.ltb_spec 0 (len (map Some addresses))) as [_|Hl];
    [|unfold len in Hl; rewrite length_map in Hl; lia].
  cbn [andb].
  destruct (lookup_lt_is_Some_2 block 0%nat) as [x Hx]; [lia|].
  destruct (lookup_lt_is_Some_2 block (List.length block - 1)%nat) as [y Hy]; [lia|].
  assert (Hmem : forall z, z ∈ block <-> exists a, z = Some a /\ a ∈ addresses).
  { intros z. unfold block. rewrite elem_of_sorted, list_elem_of_fmap. done. }
  destruct (proj1 (Hmem x)) as (lo & -> & Hlo); [by eapply list_elem_of_lookup_2|].
  destruct (proj1 (Hmem y)) as (hi & -> & Hhi); [by eapply list_elem_of_lookup_2|].
  rewrite (py_getitem_first _ _ Hx), (py_getitem_last _ _ Hy).
  exists lo, hi. split; [done|]. split; [done|]. split.
  - intros a Ha. split; apply Z.leb_le.
    + apply (ordered_first address_le address_le_total block (Some lo) (Some a)
               (sorted_ordered _ address_le_total address_le_trans _) Hx).
      apply Hmem. eauto.
    + apply (ordered_last address_le address_le_total block (Some hi) (Some a)
               (sorted_ordered _ address_le_total address_le_trans _) Hy).
      apply Hmem. eauto.
  - by rewrite map_const_py_range.
Qed.

(** C5. For a register type of the four, [_setup_sequential_block] gives no
    block for an empty list of addresses.  For a non-empty list with least
    address [lo] and greatest address [hi]: when [lo < hi] it builds a block
    whose base is [lo] and whose values are zeros over [lo, hi), the
    greatest address excluded; when [lo = hi], that is when the descriptors
    of the type have one address between them, the list of values is empty
    and the construction raises [IndexError] instead of building a block.
    Addresses 5, 7, 9 give base 5 and four zeros (addresses 5 to 8). *)
Theorem setup_sequential_block_one_address_raises (addresses : list Z) (rt : string) :
  str_in rt REGISTER_TYPES = true ->
  (addresses = [] -> _setup_sequential_block (map Some addresses) rt = Ok None) /\
  (addresses <> [] ->
     exists lo hi,
       lo ∈ addresses /\ hi ∈ addresses /\ (forall a, a ∈ addresses -> lo <= a <= hi) /\
       (lo = hi ->
        _setup_sequential_block (map Some addresses) rt = Raise IndexError) /\
       (lo < hi ->
        exists b,
          _setup_sequential_block (map Some addresses) rt = Ok (Some (Sequential b)) /\
          CbModbusSequentialDataBlock.address b = lo /\
          CbModbusSequentialDataBlock.values b = replicate (Z.to_nat (hi - lo)) 0 /\
          CbModbusSequentialDataBlock.register_type b = rt)) /\
  (exists b,
     _setup_sequential_block [Some 5; Some 7; Some 9] rt = Ok (Some (Sequential b)) /\
     CbModbusSequentialDataBlock.address b = 5 /\
     CbModbusSequentialDataBlock.values b = [0; 0; 0; 0]).
Proof.
  intros Hrt. split; [|split].
  - intros ->. unfold _setup_sequential_block. rewrite Hrt. reflexivity.
  - intros Hne.
    destruct (setup_sequential_block_run addresses rt Hrt Hne)
      as (lo & hi & Hlo & Hhi & Hbounds & Hrun).
    exists lo, hi. split; [done|]. split; [done|]. split; [done|].
    rewrite Hrun, (sequential_init_zeros rt lo _ Hrt). split.
    + intros ->. replace (hi - hi) with 0 by lia. reflexivity.
    + intros Hlt. destruct (Z.to_nat (hi - lo)) as [|n] eqn:E; [lia|].
      eexists. split; [reflexivity|]. repeat split.
  - unfold _setup_sequential_block, CbModbusSequentialDataBlock.__init__.
    rewrite Hrt. cbn. eexists. repeat split.
Qed.

(** One holding register at address 5: the range [5, 5) is empty and the
    construction of the block raises. *)
Lemma setup_sequential_block_one_address_raises_witness :
  str_in "hr" REGISTER_TYPES = true /\
  [5] <> [] /\
  _setup_sequential_block (map Some [5]) "hr" = Raise IndexError.
Proof.
  split; [reflexivity|]. split; [discriminate|].
  destruct (proj1 (proj2 (setup_sequential_block_one_address_raises [5] "hr" eq_refl)))
    as (lo & hi & Hlo & Hhi & _ & Hraise & _); [discriminate|].
  apply Hraise.
  apply list_elem_of_singleton in Hlo. apply list_elem_of_singleton in Hhi. congruence.
Defined.

(** The same by evaluation, and the addresses 5, 7, 9 of the spec's
    scenario. *)
Example setup_sequential_block_single_address_example :
  _setup_sequential_block [Some 5] "hr" = Raise IndexError /\
  _setup_sequential_block [Some 5; Some 7; Some 9] "hr" =
    Ok (Some (Sequential (example_block 5 [0; 0; 0; 0]))).
Proof. split; vm_compute; reflexivity. Qed.

(** The same through the parser: the layout of [holding_template]. *)
Example parse_config_holding_example :
  let r := _parse_config holding_template (example_context false, example_world []) in
  fst r = Ok tt /\
  store (fst (snd r)) !! "h" = Some (Some (Sequential (example_block 5 [0; 0; 0; 0]))) /\
  store (fst (snd r)) !! "i" = Some None /\
  store (fst (snd r)) !! "d" = Some None /\
  store (fst (snd r)) !! "c" = Some None.
Proof. repeat split; vm_compute; reflexivity. Qed.

(** A descriptor whose register type was never assigned is filed under
    coils, in either layout: the last branch of the grouping loop is an
    [else], not a test for the coil type. *)
Lemma group_register_untyped sparse g reg :
  register_type reg = None ->
  co_sequential (group_register false g reg) = co_sequential g ++ [address reg] /\
  co_sparse_block (group_register true g reg) = <[address reg := 0]> (co_sparse_block g) /\
  hr_sequential (group_register sparse g reg) = hr_sequential g /\
  ir_sequential (group_register sparse g reg) = ir_sequential g /\
  di_sequential (group_register sparse g reg) = di_sequential g.
Proof.
  intros H. unfold group_register. rewrite H.
  repeat (destruct (decide _) as [?|_]; [discriminate|]).
  destruct sparse; repeat split.
Qed.

(** C7. A descriptor whose register type was never assigned is filed under
    coils by the grouping loop, in the sequential and in the sparse layout.
    So the two descriptors of [untyped_template], whose [registerType] token
    is not one of the four, are logged and then make up a coil block over
    [5, 7): a descriptor without a valid register type does contribute to a
    block, and the coil block exists although no descriptor is a coil. *)
Theorem untyped_descriptors_build_coil_block :
  (forall sparse g reg,
     register_type reg = None ->
     co_sequential (group_register false g reg) = co_sequential g ++ [address reg] /\
     co_sparse_block (group_register true g reg) = <[address reg := 0]> (co_sparse_block g) /\
     hr_sequential (group_register sparse g reg) = hr_sequential g /\
     ir_sequential (group_register sparse g reg) = ir_sequential g /\
     di_sequential (group_register sparse g reg) = di_sequential g) /\
  (let r := new_SlaveContext (example_row 3 untyped_template) (example_world []) in
   exists ctx,
     fst r = Ok ctx /\
     store ctx !! "c" = Some (Some (Sequential
       {| CbModbusSequentialDataBlock.address := 5;
          CbModbusSequentialDataBlock.values := [0; 0];
          CbModbusSequentialDataBlock.register_type := TYPE_COIL;
          CbModbusSequentialDataBlock.timestamps := [None] |})) /\
     store ctx !! "h" = Some None /\
     store ctx !! "i" = Some None /\
     store ctx !! "d" = Some None /\
     log (snd r) = [(ERROR, UnsupportedRegisterType "float");
                    (ERROR, UnsupportedRegisterType "float");
                    (DEBUG, SlaveContextComplete "10.0.0.1")]).
Proof.
  split.
  - apply group_register_untyped.
  - eexists. repeat split; vm_compute; reflexivity.
Qed.

(** The same template in the sparse layout: a sparse coil block with the
    keys 5 and 7. *)
Example untyped_descriptors_sparse_example :
  let r := new_SlaveContext
             (example_row 3 ("/*DEVICE;sparse=1" ++ LF ++ untyped_template))
             (example_world []) in
  exists ctx b,
    fst r = Ok ctx /\ store ctx !! "c" = Some (Some (Sparse b)) /\
    CbModbusSparseDataBlock.values b = {[ Some 5 := 0; Some 7 := 0 ]}.
Proof. do 2 eexists. repeat split; vm_compute; reflexivity. Qed.

(** ** The template parser: one descriptor per parameter id *)

Lemma param_ids_assign_address this addr regs :
  param_ids (assign_address this addr regs) = param_ids regs.
Proof.
  unfold param_ids, assign_address. induction regs as [|r regs IH]; [done|].
  cbn. rewrite IH. by destruct (decide (param_id r = this)).
Qed.

Lemma param_ids_assign_register_type this ty regs :
  param_ids (assign_register_type this ty regs) = param_ids regs.
Proof.
  unfold param_ids, assign_register_type. induction regs as [|r regs IH]; [done|].
  cbn. rewrite IH. by destruct (decide (param_id r = this)).
Qed.

Lemma param_ids_app regs regs' :
  param_ids (regs ++ regs') = param_ids regs ++ param_ids regs'.
Proof. apply omap_app. Qed.

(** The search loop of the [paramId] branch. *)
Lemma reg_exists_fold pid regs e :
  fold_left (fun e reg => if decide (Some pid = param_id reg) then true else e) regs e =
  e || bool_decide (pid ∈ param_ids regs).
Proof.
  revert e. induction regs as [|r regs IH]; intros e; cbn [fold_left].
  - unfold param_ids. cbn. rewrite bool_decide_eq_false_2; [by rewrite orb_false_r|].
    apply not_elem_of_nil.
  - rewrite IH. unfold param_ids. cbn [omap list_omap].
    destruct (decide (Some pid = param_id r)) as [<-|Hne].
    + cbn. rewrite bool_decide_eq_true_2; [by rewrite orb_true_r|]. apply elem_of_cons; auto.
    + destruct (param_id r) as [q|]; [|done].
      f_equal. apply bool_decide_ext. rewrite elem_of_cons.
      split; [auto|]. intros [->|H]; [congruence|done].
Qed.

(** A field of a register-definition line leaves the parameter ids as they
    are or appends one that was not there. *)
Lemma register_field_param_ids l c st l' st' :
  register_field l c st = (Ok l', st') ->
  param_ids (registers l') = param_ids (registers l) \/
  exists n, param_ids (registers l') = param_ids (registers l) ++ [n] /\
            n ∉ param_ids (registers l).
Proof.
  unfold register_field.
  destruct (has_tag TEMPLATE_PARSER_REG_UID c).
  - unfold bind, lift. destruct (py_int _) as [n|e]; [|discriminate].
    rewrite reg_exists_fold. unfold ret.
    destruct (reg_exists l); cbn [orb negb].
    + intros [= <- <-]. by left.
    + case_bool_decide as Hd; cbn [negb]; intros [= <- <-]; cbn; [by left|].
      right. exists n. by rewrite param_ids_app.
  - destruct (has_tag TEMPLATE_PARSER_REG_ADDRESS c).
    + unfold bind, lift. destruct (py_int _) as [n|e]; [|discriminate].
      cbn. destruct (in_range _ _ _); cbn.
      * destruct (reg_exists l); cbn; intros [= <- <-]; cbn; left.
        -- apply param_ids_assign_address.
        -- rewrite param_ids_app, param_ids_assign_address. cbn. apply app_nil_r.
      * intros [= <- <-]. by left.
    + destruct (has_tag TEMPLATE_PARSER_REG_TYPE c); [|intros [= <- <-]; by left].
      repeat (match goal with |- context [str_in ?x ?ls] => destruct (str_in x ls) end;
              [intros [= <- <-]; left; apply param_ids_assign_register_type|]).
      cbn. intros [= <- <-]. by left.
Qed.

Lemma register_field_NoDup l c st l' st' :
  register_field l c st = (Ok l', st') ->
  NoDup (param_ids (registers l)) -> NoDup (param_ids (registers l')).
Proof.
  intros H Hnd. destruct (register_field_param_ids _ _ _ _ _ H) as [->|(n & -> & Hn)]; [done|].
  apply NoDup_app. split; [done|]. split; [|apply NoDup_singleton].
  intros x Hx ->%list_elem_of_singleton. done.
Qed.

Lemma register_field_mono l c st l' st' n :
  register_field l c st = (Ok l', st') ->
  n ∈ param_ids (registers l) -> n ∈ param_ids (registers l').
Proof.
  intros H Hn. destruct (register_field_param_ids _ _ _ _ _ H) as [->|(m & -> & _)]; [done|].
  apply elem_of_app. by left.
Qed.

(** The leading [paramId=n] of a line makes [n] a parameter id. *)
Lemma register_field_defines l c st l' st' n :
  has_tag TEMPLATE_PARSER_REG_UID c = true ->
  py_int (after_tag TEMPLATE_PARSER_REG_UID c) = Ok n ->
  reg_exists l = false ->
  register_field l c st = (Ok l', st') ->
  n ∈ param_ids (registers l').
Proof.
  intros Htag Hint Hex. unfold register_field. rewrite Htag.
  unfold bind, lift. rewrite py_int_strip, Hint, reg_exists_fold, Hex. cbn [orb]. unfold ret.
  case_bool_decide as Hd; cbn [negb]; intros [= <- <-]; cbn; [done|].
  rewrite param_ids_app. apply elem_of_app. right. by apply list_elem_of_singleton.
Qed.

(** What a line does to the descriptor list, by its kind. *)
Lemma parse_line_cases regs line st regs' st' :
  parse_line regs line st = (Ok regs', st') ->
  (kind_of_line line <> RegisterLine /\ regs' = regs) \/
  exists l s1,
    for_fold register_field (split TEMPLATE_PARSER_SEPARATOR line)
             {| registers := regs; reg_exists := false; this_reg := None |} st
      = (Ok l, s1) /\
    regs' = registers l.
Proof.
  unfold parse_line, kind_of_line.
  destruct (has_tag TEMPLATE_PARSER_DESC line).
  { unfold bind. destruct (for_each _ _ st) as [[[]|e] s1]; [|discriminate].
    intros [= <- <-]. by left. }
  destruct (has_tag TEMPLATE_PARSER_NETWORK line).
  { unfold bind. destruct (for_each _ _ st) as [[[]|e] s1]; [|discriminate].
    intros [= <- <-]. by left. }
  destruct (has_tag TEMPLATE_PARSER_REGISTER_DEF line); [|intros [= <- <-]; by left].
  unfold bind.
  destruct (for_fold register_field _ _ st) as [[l|e] s1] eqn:Hloop; [|discriminate].
  intros [= <- <-]. right. eauto.
Qed.

Lemma parse_line_NoDup regs line st regs' st' :
  parse_line regs line st = (Ok regs', st') ->
  NoDup (param_ids regs) -> NoDup (param_ids regs').
Proof.
  intros H Hnd. destruct (parse_line_cases _ _ _ _ _ H) as [[_ ->]|(l & s1 & Hloop & ->)];
    [done|].
  eapply (for_fold_invariant register_field (fun l => NoDup (param_ids (registers l))));
    [|exact Hloop|exact Hnd].
  intros. eapply register_field_NoDup; eauto.
Qed.

Lemma parse_line_mono regs line st regs' st' n :
  parse_line regs line st = (Ok regs', st') ->
  n ∈ param_ids regs -> n ∈ param_ids regs'.
Proof.
  intros H Hn. destruct (parse_line_cases _ _ _ _ _ H) as [[_ ->]|(l & s1 & Hloop & ->)];
    [done|].
  eapply (for_fold_invariant register_field (fun l => n ∈ param_ids (registers l)));
    [|exact Hloop|exact Hn].
  intros. eapply register_field_mono; eauto.
Qed.

Lemma parse_line_defines regs line st regs' st' n :
  defines_param line n ->
  parse_line regs line st = (Ok regs', st') ->
  n ∈ param_ids regs'.
Proof.
  intros (Hk & c0 & rest & Hsplit & Htag & Hint) H.
  destruct (parse_line_cases _ _ _ _ _ H) as [[Hk' _]|(l & s2 & Hloop & ->)]; [done|].
  rewrite Hsplit in Hloop. cbn [for_fold] in Hloop. unfold bind in Hloop.
  destruct (register_field _ c0 st) as [[l1|e] s1] eqn:H1; [|discriminate].
  eapply (for_fold_invariant register_field (fun l => n ∈ param_ids (registers l)));
    [|exact Hloop|].
  - intros. eapply register_field_mono; eauto.
  - eapply register_field_defines; [exact Htag|exact Hint| |exact H1]. reflexivity.
Qed.

Lemma no_descriptor regs n :
  n ∉ param_ids regs -> filter (fun reg => param_id reg = Some n) regs = [].
Proof.
  unfold param_ids. induction regs as [|r regs IH]; [done|].
  cbn [omap list_omap]. rewrite filter_cons. intros Hn.
  destruct (decide (param_id r = Some n)) as [E|E].
  - rewrite E in Hn. exfalso. apply Hn. apply elem_of_cons. by left.
  - apply IH. destruct (param_id r); [|done].
    intros H. apply Hn. apply elem_of_cons. by right.
Qed.

Lemma one_descriptor regs n :
  NoDup (param_ids regs) -> n ∈ param_ids regs ->
  List.length (filter (fun reg => param_id reg = Some n) regs) = 1%nat.
Proof.
  unfold param_ids. induction regs as [|r regs IH]; cbn [omap list_omap].
  - intros _ H. by apply elem_of_nil in H.
  - rewrite filter_cons. destruct (param_id r) as [m|] eqn:E.
    + intros Hnd Hn. apply NoDup_cons in Hnd as [Hm Hnd].
      destruct (decide (Some m = Some n)) as [[= ->]|Hne].
      * cbn. f_equal. by rewrite (no_descriptor regs n Hm).
      * apply IH; [done|]. apply elem_of_cons in Hn as [->|Hn]; done.
    + destruct (decide (None = Some n)); [done|]. apply IH.
Qed.

(** A [registerType=] field with one of the four tokens assigns the type
    the token stands for. *)
Lemma register_field_assigns_type l c ty st :
  has_tag TEMPLATE_PARSER_REG_UID c = false ->
  has_tag TEMPLATE_PARSER_REG_ADDRESS c = false ->
  has_tag TEMPLATE_PARSER_REG_TYPE c = true ->
  register_type_of_token (strip (after_tag TEMPLATE_PARSER_REG_TYPE c)) = Some ty ->
  register_field l c st =
    (Ok {| registers := assign_register_type (this_reg l) ty (registers l);
           reg_exists := reg_exists l; this_reg := this_reg l |}, st).
Proof.
  intros Hu Ha Htag Htok. unfold register_field. rewrite Hu, Ha, Htag.
  unfold register_type_of_token in Htok. unfold str_in. cbn [existsb].
  change TEMPLATE_PARSER_TYPE_INPUT_REGISTER with "analog"%string.
  change TEMPLATE_PARSER_TYPE_HOLDING_REGISTER with "holding"%string.
  change TEMPLATE_PARSER_TYPE_DISCRETE_INPUT with "input"%string.
  change TEMPLATE_PARSER_TYPE_COIL with "coil"%string.
  destruct (String.eqb _ "analog") eqn:E1.
  { apply String.eqb_eq in E1. rewrite E1 in Htok. injection Htok as <-. reflexivity. }
  destruct (String.eqb _ "holding") eqn:E2.
  { injection Htok as <-. reflexivity. }
  destruct (String.eqb _ "input") eqn:E3.
  { injection Htok as <-. reflexivity. }
  destruct (String.eqb _ "coil") eqn:E4; [|discriminate].
  injection Htok as <-. reflexivity.
Qed.

(** An [address=] field with an address in range assigns it. *)
Lemma register_field_assigns_address l c n s w :
  has_tag TEMPLATE_PARSER_REG_UID c = false ->
  has_tag TEMPLATE_PARSER_REG_ADDRESS c = true ->
  py_int (after_tag TEMPLATE_PARSER_REG_ADDRESS c) = Ok n ->
  in_range (if negb (zero_mode s) then n + 1 else n) 0 (99999 + 1) = true ->
  reg_exists l = true ->
  register_field l c (s, w) =
    (Ok {| registers := assign_address (this_reg l)
                          (if negb (zero_mode s) then n + 1 else n) (registers l);
           reg_exists := true; this_reg := this_reg l |}, (s, w)).
Proof.
  intros Hu Htag Hint Hr He. unfold register_field. rewrite Hu, Htag.
  unfold bind, lift. rewrite py_int_strip, Hint. cbn [self fst]. rewrite Hr, He.
  reflexivity.
Qed.

Lemma parse_loop_NoDup lines : forall regs st regs' st',
  for_fold parse_line lines regs st = (Ok regs', st') ->
  NoDup (param_ids regs) -> NoDup (param_ids regs').
Proof.
  apply for_fold_invariant. intros. eapply parse_line_NoDup; eauto.
Qed.

Lemma parse_loop_mono lines n : forall regs st regs' st',
  for_fold parse_line lines regs st = (Ok regs', st') ->
  n ∈ param_ids regs -> n ∈ param_ids regs'.
Proof.
  apply (for_fold_invariant parse_line (fun regs => n ∈ param_ids regs)).
  intros. eapply parse_line_mono; eauto.
Qed.

(** A register-definition line is recognised by its first seven characters,
    so its first field is a [paramId=] field. *)
Lemma register_line_leads line :
  kind_of_line line = RegisterLine ->
  exists c0 rest,
    split TEMPLATE_PARSER_SEPARATOR line = c0 :: rest /\
    has_tag TEMPLATE_PARSER_REG_UID c0 = true.
Proof.
  unfold kind_of_line.
  destruct (has_tag TEMPLATE_PARSER_DESC line); [discriminate|].
  destruct (has_tag TEMPLATE_PARSER_NETWORK line); [discriminate|].
  destruct (has_tag TEMPLATE_PARSER_REGISTER_DEF line) eqn:H; [|discriminate].
  intros _. unfold has_tag in H. apply String.eqb_eq in H.
  destruct line as [|c1 [|c2 [|c3 [|c4 [|c5 [|c6 [|c7 r]]]]]]]; try discriminate H.
  cbn in H. injection H as -> -> -> -> -> -> -> _.
  cbn. destruct (split TEMPLATE_PARSER_SEPARATOR r) as [|h t]; eexists _, _;
    (split; [reflexivity|]); [reflexivity|].
  unfold has_tag. cbn. by destruct h.
Qed.

(** The leading [paramId=n] field: the descriptor of [n] is looked up, and
    created when there is none. *)
Lemma register_field_leading regs c0 n st :
  has_tag TEMPLATE_PARSER_REG_UID c0 = true ->
  py_int (after_tag TEMPLATE_PARSER_REG_UID c0) = Ok n ->
  register_field {| registers := regs; reg_exists := false; this_reg := None |} c0 st =
    (Ok {| registers := with_descriptor n regs; reg_exists := true; this_reg := Some n |},
     st).
Proof.
  intros Htag Hint. unfold register_field. rewrite Htag.
  unfold bind, lift. rewrite py_int_strip, Hint, reg_exists_fold. cbn [orb reg_exists registers].
  unfold ret, with_descriptor. by case_bool_decide.
Qed.

Lemma merged_nothing reg : merged None None reg = reg.
Proof. by destruct reg. Qed.

Lemma merged_merged a1 t1 a2 t2 reg :
  merged a2 t2 (merged a1 t1 reg) =
  merged (match a2 with Some _ => a2 | None => a1 end)
         (match t2 with Some _ => t2 | None => t1 end) reg.
Proof. by destruct a1, t1, a2, t2. Qed.

Lemma last_assigned_cons {A} (f : string -> option A) c fields :
  last_assigned f (c :: fields) =
  match last_assigned f fields with Some y => Some y | None => f c end.
Proof.
  unfold last_assigned. cbn [omap list_omap].
  destruct (f c) as [x|]; [|by destruct (last _)].
  destruct (omap f fields) as [|y l] eqn:E; [done|].
  change (last (x :: y :: l)) with (last (y :: l)).
  destruct (last (y :: l)) eqn:El; [done|].
  by apply last_None in El.
Qed.

(** A later field of the line: what it assigns goes to the descriptor of the
    current parameter id and to nothing else. *)
Lemma register_field_merges l c (s : SlaveContext) (w : World) l' st' :
  has_tag TEMPLATE_PARSER_REG_UID c = false ->
  reg_exists l = true ->
  register_field l c (s, w) = (Ok l', st') ->
  registers l' =
    map (fun reg => if decide (param_id reg = this_reg l)
                    then merged (address_assigned (zero_mode s) c) (type_assigned c) reg
                    else reg) (registers l) /\
  reg_exists l' = true /\ this_reg l' = this_reg l /\ fst st' = s.
Proof.
  intros Hu Hex. unfold address_assigned, type_assigned.
  assert (Hid : registers l =
                map (fun reg => if decide (param_id reg = this_reg l)
                                then merged None None reg else reg) (registers l)).
  { rewrite <- (map_id (registers l)) at 1. apply map_ext. intros reg.
    destruct (decide _); [by rewrite merged_nothing|done]. }
  destruct (has_tag TEMPLATE_PARSER_REG_ADDRESS c) eqn:Ha.
  - destruct (py_int (after_tag TEMPLATE_PARSER_REG_ADDRESS c)) as [a|e] eqn:Hint.
    + replace (if zero_mode s then a else a + 1)
        with (if negb (zero_mode s) then a + 1 else a) by (by destruct (zero_mode s)).
      cbn zeta. destruct (in_range _ 0 (99999 + 1)) eqn:Hr.
      * intros H.
        pose proof (register_field_assigns_address l c a s w Hu Ha Hint Hr Hex) as R.
        pose proof (eq_trans (eq_sym R) H) as E. injection E as <- <-.
        cbn. repeat split; try done.
      * intros H.
        pose proof (register_field_invalid_address l c a s w Hu Ha Hint Hr) as R.
        pose proof (eq_trans (eq_sym R) H) as E. injection E as <- <-.
        cbn. repeat split; try done.
    + unfold register_field. rewrite Hu, Ha. unfold bind, lift.
      rewrite py_int_strip, Hint. discriminate.
  - destruct (has_tag TEMPLATE_PARSER_REG_TYPE c) eqn:Ht.
    + destruct (register_type_of_token _) as [ty|] eqn:Htok.
      * intros H.
        pose proof (register_field_assigns_type l c ty (s, w) Hu Ha Ht Htok) as R.
        pose proof (eq_trans (eq_sym R) H) as E. injection E as <- <-.
        cbn. repeat split; try done.
      * intros H.
        pose proof (register_field_unsupported_type l c s w Hu Ha Ht Htok) as R.
        pose proof (eq_trans (eq_sym R) H) as E. injection E as <- <-.
        cbn. repeat split; try done.
    + unfold register_field. rewrite Hu, Ha, Ht. intros [= <- <-]. repeat split; try done.
Qed.

(** The later fields of the line, one after the other: for each attribute
    the last assignment is the one that stays. *)
Lemma register_fields_merge fields : forall l (s : SlaveContext) (w : World) l' st',
  Forall (fun c => has_tag TEMPLATE_PARSER_REG_UID c = false) fields ->
  reg_exists l = true ->
  for_fold register_field fields l (s, w) = (Ok l', st') ->
  registers l' =
    map (fun reg => if decide (param_id reg = this_reg l)
                    then merged (last_assigned (address_assigned (zero_mode s)) fields)
                                (last_assigned type_assigned fields) reg
                    else reg) (registers l) /\
  fst st' = s.
Proof.
  induction fields as [|c fields IH]; intros l s w l' st' Hall Hex H; cbn [for_fold] in H.
  - injection H as <- <-. split; [|done].
    rewrite <- (map_id (registers l)) at 1. apply map_ext. intros reg.
    destruct (decide _); [by rewrite merged_nothing|done].
  - inversion Hall as [|? ? Hc Hrest]; subst. unfold bind in H.
    destruct (register_field l c (s, w)) as [[l1|e] [s1 w1]] eqn:Hstep; [|discriminate].
    destruct (register_field_merges l c s w l1 (s1, w1) Hc Hex Hstep)
      as (Hregs & Hex1 & Hthis & Hs).
    cbn [fst] in Hs. subst s1.
    destruct (IH l1 s w1 l' st' Hrest Hex1 H) as (Hregs' & Hst).
    split; [|exact Hst].
    rewrite Hregs', Hregs, Hthis, map_map. apply map_ext. intros reg.
    rewrite !last_assigned_cons.
    destruct (decide (param_id reg = this_reg l)) as [E|E].
    + cbn [merged param_id]. rewrite decide_True by exact E.
      rewrite merged_merged.
      by destruct (last_assigned (address_assigned _) fields),
                  (last_assigned type_assigned fields).
    + by rewrite decide_False.
Qed.

Lemma parse_line_register regs line st :
  kind_of_line line = RegisterLine ->
  parse_line regs line st =
    match for_fold register_field (split TEMPLATE_PARSER_SEPARATOR line)
            {| registers := regs; reg_exists := false; this_reg := None |} st with
    | (Ok l, st') => (Ok (registers l), st')
    | (Raise e, st') => (Raise e, st')
    end.
Proof.
  unfold parse_line, kind_of_line.
  destruct (has_tag TEMPLATE_PARSER_DESC line); [discriminate|].
  destruct (has_tag TEMPLATE_PARSER_NETWORK line); [discriminate|].
  destruct (has_tag TEMPLATE_PARSER_REGISTER_DEF line); [|discriminate].
  intros _. unfold bind. by destruct (for_fold _ _ _ st) as [[l|e] st'].
Qed.

(** A register-definition line merges into the descriptors. *)
Lemma parse_line_merges regs line n fields (s : SlaveContext) (w : World) regs' st' :
  register_line line n fields ->
  parse_line regs line (s, w) = (Ok regs', st') ->
  regs' = merge_line (zero_mode s) n fields regs /\ fst st' = s.
Proof.
  intros (Hk & c0 & Hsplit & Hint & Hall).
  destruct (register_line_leads line Hk) as (c0' & rest & Hsplit' & Htag).
  rewrite Hsplit in Hsplit'. injection Hsplit' as <- <-.
  rewrite (parse_line_register regs line (s, w) Hk), Hsplit. cbn [for_fold].
  unfold bind at 1. rewrite (register_field_leading regs c0 n (s, w) Htag Hint).
  destruct (for_fold register_field fields _ (s, w)) as [[l|e] st1] eqn:Hloop; [|discriminate].
  intros [= <- <-].
  destruct (register_fields_merge fields
              {| registers := with_descriptor n regs; reg_exists := true;
                 this_reg := Some n |} s w l st1 Hall eq_refl Hloop) as (Hregs & Hst).
  split; [|exact Hst]. rewrite Hregs. reflexivity.
Qed.

Lemma filter_assign_address_other this addr regs n :
  this <> Some n ->
  filter (fun reg => param_id reg = Some n) (assign_address this addr regs) =
  filter (fun reg => param_id reg = Some n) regs.
Proof.
  intros Hne. unfold assign_address. induction regs as [|r regs IH]; [done|].
  cbn [map]. rewrite !filter_cons, IH.
  destruct (decide (param_id r = this)) as [E|E]; [|done].
  cbn [param_id]. rewrite !decide_False by congruence. done.
Qed.

Lemma filter_assign_register_type_other this ty regs n :
  this <> Some n ->
  filter (fun reg => param_id reg = Some n) (assign_register_type this ty regs) =
  filter (fun reg => param_id reg = Some n) regs.
Proof.
  intros Hne. unfold assign_register_type. induction regs as [|r regs IH]; [done|].
  cbn [map]. rewrite !filter_cons, IH.
  destruct (decide (param_id r = this)) as [E|E]; [|done].
  cbn [param_id]. rewrite !decide_False by congruence. done.
Qed.

(** A field of a line that is about other parameter ids leaves the
    descriptor of [n] alone. *)
Lemma register_field_keeps_others n l c st l' st' :
  ~ (has_tag TEMPLATE_PARSER_REG_UID c = true /\
     py_int (after_tag TEMPLATE_PARSER_REG_UID c) = Ok n) ->
  this_reg l <> Some n ->
  register_field l c st = (Ok l', st') ->
  this_reg l' <> Some n /\
  filter (fun reg => param_id reg = Some n) (registers l') =
  filter (fun reg => param_id reg = Some n) (registers l).
Proof.
  intros Hc Hthis. unfold register_field.
  destruct (has_tag TEMPLATE_PARSER_REG_UID c) eqn:Hu.
  - unfold bind, lift. rewrite py_int_strip.
    destruct (py_int _) as [m|e] eqn:Hint; [|discriminate].
    assert (Hm : Some m <> Some n) by (intros [= ->]; by apply Hc).
    unfold ret. destruct (negb _); intros [= <- <-]; cbn; (split; [done|]); [|done].
    rewrite filter_app, filter_cons, decide_False by done. by rewrite filter_nil, app_nil_r.
  - destruct (has_tag TEMPLATE_PARSER_REG_ADDRESS c).
    + unfold bind, lift.
      destruct (py_int (strip (after_tag TEMPLATE_PARSER_REG_ADDRESS c))) as [a|e];
        [|discriminate].
      unfold self. cbn beta iota. destruct (in_range _ _ _).
      * unfold ret. destruct (negb (reg_exists l)); intros [= <- <-]; cbn; (split; [done|]).
        -- rewrite filter_app, filter_assign_address_other by done.
           rewrite filter_cons, decide_False by done. by rewrite filter_nil, app_nil_r.
        -- by apply filter_assign_address_other.
      * intros [= <- <-]. done.
    + destruct (has_tag TEMPLATE_PARSER_REG_TYPE c); [|intros [= <- <-]; done].
      repeat (match goal with |- context [str_in ?x ?ls] => destruct (str_in x ls) end;
              [intros [= <- <-]; cbn; split;
               [done|by apply filter_assign_register_type_other]|]).
      intros [= <- <-]. done.
Qed.

Lemma register_fields_keep_others n fields : forall l st l' st',
  Forall (fun c => ~ (has_tag TEMPLATE_PARSER_REG_UID c = true /\
                      py_int (after_tag TEMPLATE_PARSER_REG_UID c) = Ok n)) fields ->
  this_reg l <> Some n ->
  for_fold register_field fields l st = (Ok l', st') ->
  filter (fun reg => param_id reg = Some n) (registers l') =
  filter (fun reg => param_id reg = Some n) (registers l).
Proof.
  induction fields as [|c fields IH]; intros l st l' st' Hall Hthis H; cbn [for_fold] in H.
  - by injection H as <- <-.
  - inversion Hall as [|? ? Hc Hrest]; subst. unfold bind in H.
    destruct (register_field l c st) as [[l1|e] st1] eqn:Hstep; [|discriminate].
    destruct (register_field_keeps_others n l c st l1 st1 Hc Hthis Hstep) as [Hthis1 Hf].
    rewrite <- Hf. by eapply IH.
Qed.

Lemma parse_line_other regs line st regs' st' :
  kind_of_line line <> RegisterLine ->
  parse_line regs line st = (Ok regs', st') -> regs' = regs.
Proof.
  unfold parse_line, kind_of_line.
  destruct (has_tag TEMPLATE_PARSER_DESC line).
  { intros _. unfold bind. destruct (for_each _ _ st) as [[[]|e] s1]; [|discriminate].
    by intros [= <- <-]. }
  destruct (has_tag TEMPLATE_PARSER_NETWORK line).
  { intros _. unfold bind. destruct (for_each _ _ st) as [[[]|e] s1]; [|discriminate].
    by intros [= <- <-]. }
  destruct (has_tag TEMPLATE_PARSER_REGISTER_DEF line); [done|].
  by intros _ [= <- <-].
Qed.

(** A line that has no [paramId=n] field leaves the descriptor of [n] as it
    is. *)
Lemma parse_line_keeps_others n regs line st regs' st' :
  ~ mentions n line ->
  parse_line regs line st = (Ok regs', st') ->
  filter (fun reg => param_id reg = Some n) regs' =
  filter (fun reg => param_id reg = Some n) regs.
Proof.
  intros Hn H. destruct (kind_of_line line) eqn:Hk.
  1,2,4: by rewrite (parse_line_other regs line st regs' st' ltac:(by rewrite Hk) H).
  rewrite (parse_line_register regs line st Hk) in H.
  destruct (for_fold register_field _ _ st) as [[l|e] st1] eqn:Hloop; [|discriminate].
  injection H as <- <-.
  apply (register_fields_keep_others n _ _ _ _ _) in Hloop; [done| |done].
  apply Forall_forall. intros c Hc [Htag Hint]. apply Hn. split; [done|]. by exists c.
Qed.

Lemma parse_loop_keeps_others n lines : forall regs st regs' st',
  Forall (fun line => ~ mentions n line) lines ->
  for_fold parse_line lines regs st = (Ok regs', st') ->
  filter (fun reg => param_id reg = Some n) regs' =
  filter (fun reg => param_id reg = Some n) regs.
Proof.
  induction lines as [|line lines IH]; intros regs st regs' st' Hall H; cbn [for_fold] in H.
  - by injection H as <- <-.
  - inversion Hall as [|? ? Hline Hrest]; subst. unfold bind in H.
    destruct (parse_line regs line st) as [[regs1|e] st1] eqn:Hstep; [|discriminate].
    rewrite (IH _ _ _ _ Hrest H). by eapply parse_line_keeps_others.
Qed.

Lemma filter_map_param_id (g : _RegisterBlockConfig -> _RegisterBlockConfig) regs n :
  (forall reg, param_id (g reg) = param_id reg) ->
  filter (fun reg => param_id reg = Some n) (map g regs) =
  map g (filter (fun reg => param_id reg = Some n) regs).
Proof.
  intros Hg. induction regs as [|r regs IH]; [done|].
  cbn [map]. rewrite !filter_cons, IH, Hg. by destruct (decide (param_id r = Some n)).
Qed.

(** The descriptor of [n] after the merge of a line. *)
Lemma filter_merge_line zm n fields regs :
  NoDup (param_ids regs) ->
  filter (fun reg => param_id reg = Some n) (merge_line zm n fields regs) =
    [merged (last_assigned (address_assigned zm) fields)
            (last_assigned type_assigned fields) (descriptor_of n regs)].
Proof.
  intros Hnd. unfold merge_line. rewrite filter_map_param_id.
  2:{ intros reg. by destruct (decide _). }
  assert (Hone : filter (fun reg => param_id reg = Some n) (with_descriptor n regs) =
                 [descriptor_of n regs] /\ param_id (descriptor_of n regs) = Some n).
  { unfold with_descriptor, descriptor_of. case_bool_decide as Hin.
    - pose proof (one_descriptor regs n Hnd Hin) as Hlen.
      destruct (filter (fun reg => param_id reg = Some n) regs) as [|d [|d' l]] eqn:E;
        try discriminate Hlen.
      cbn. split; [done|].
      assert (Hd : d ∈ filter (fun reg => param_id reg = Some n) regs)
        by (rewrite E; apply elem_of_cons; by left).
      by apply list_elem_of_filter in Hd as [Hd _].
    - rewrite filter_app, (no_descriptor regs n Hin), filter_cons. cbn.
      rewrite decide_True by done. done. }
  destruct Hone as [-> Hpid]. cbn [map]. by rewrite decide_True.
Qed.

(** C8. When the parser returns, no two descriptors share a parameter id,
    and every register-definition line that leads with [paramId=n] has
    exactly one descriptor for [n], however many such lines there are.  A
    line [paramId=n;fields] merges into the descriptors: the descriptor of
    [n] is created at the end of the list when there is none; each of its
    attributes, address and register type, takes the value of the last
    field of the line that validly assigns it (the address shifted by one
    when [zero_mode] is off), whatever it held, and keeps its value when no
    field does; every other descriptor stays as it is.  Across the lines of
    the template the last line for [n] decides in the same way: the
    descriptor of [n] in the result is the one it had before that line,
    merged with the fields of that line.  The two lines of [merge_template]
    give one descriptor with parameter id 12, address 42 and type coil. *)
Theorem parse_lines_one_descriptor_per_param_id (config_file : string)
    (s : SlaveContext) (w : World) (regs : list _RegisterBlockConfig) :
  fst (parse_lines config_file (s, w)) = Ok regs ->
  NoDup (param_ids regs) /\
  (forall line n,
     line ∈ splitlines config_file -> defines_param line n ->
     List.length (filter (fun reg => param_id reg = Some n) regs) = 1%nat) /\
  (forall regs0 line n fields (s0 : SlaveContext) (w0 : World) regs1 st1,
     register_line line n fields ->
     parse_line regs0 line (s0, w0) = (Ok regs1, st1) ->
     regs1 = merge_line (zero_mode s0) n fields regs0) /\
  (forall before line after n fields,
     splitlines config_file = before ++ line :: after ->
     register_line line n fields ->
     Forall (fun later => ~ mentions n later) after ->
     exists regs_b (s_b : SlaveContext) (w_b : World),
       for_fold parse_line before [] (s, w) = (Ok regs_b, (s_b, w_b)) /\
       filter (fun reg => param_id reg = Some n) regs =
         [merged (last_assigned (address_assigned (zero_mode s_b)) fields)
                 (last_assigned type_assigned fields) (descriptor_of n regs_b)]) /\
  (zero_mode s = true ->
   fst (parse_lines merge_template (s, w)) =
     Ok [{| param_id := Some 12; address := Some 42;
            register_type := Some TYPE_COIL; block_size := 1 |}]).
Proof.
  intros H. unfold parse_lines in H.
  destruct (for_fold parse_line (splitlines config_file) [] (s, w)) as [[regs0|e] st']
    eqn:Hrun; [|discriminate].
  cbn in H. injection H as ->.
  assert (Hnd : NoDup (param_ids regs)).
  { eapply parse_loop_NoDup; [exact Hrun|]. apply NoDup_nil_2. }
  split; [exact Hnd|]. split; [|split; [|split]].
  - intros line n Hin Hdef. apply one_descriptor; [exact Hnd|].
    apply list_elem_of_split in Hin as (l1 & l2 & Hsplit).
    rewrite Hsplit, for_fold_app in Hrun.
    destruct (for_fold parse_line l1 [] (s, w)) as [[r1|e] s1]; [|discriminate].
    cbn [for_fold] in Hrun. unfold bind in Hrun.
    destruct (parse_line r1 line s1) as [[r2|e] s2] eqn:Hline; [|discriminate].
    eapply parse_loop_mono; [exact Hrun|].
    eapply parse_line_defines; eauto.
  - intros regs0 line n fields s0 w0 regs1 st1 Hline Hrun1.
    by destruct (parse_line_merges _ _ _ _ _ _ _ _ Hline Hrun1).
  - intros before line after n fields Hsplit Hline Hafter.
    rewrite Hsplit, for_fold_app in Hrun.
    destruct (for_fold parse_line before [] (s, w)) as [[regs_b|e] [s_b w_b]] eqn:Hb;
      [|discriminate].
    cbn [for_fold] in Hrun. unfold bind in Hrun.
    destruct (parse_line regs_b line (s_b, w_b)) as [[regs1|e] st1] eqn:Hl; [|discriminate].
    exists regs_b, s_b, w_b. split; [reflexivity|].
    rewrite (parse_loop_keeps_others n after _ _ _ _ Hafter Hrun).
    destruct (parse_line_merges _ _ _ _ _ _ _ _ Hline Hl) as [-> _].
    apply filter_merge_line. eapply parse_loop_NoDup; [exact Hb|]. apply NoDup_nil_2.
  - intros Hz. destruct s as [p1 p2 p3 zm p5 p6 p7]. cbn in Hz. subst zm.
    vm_compute. reflexivity.
Qed.

(** The spec's scenario: the second line for parameter id 12 only assigns a
    register type, so the descriptor keeps the address of the first line
    and takes the type of the second. *)
Lemma parse_lines_one_descriptor_per_param_id_witness :
  let regs := [{| param_id := Some 12; address := Some 42;
                  register_type := Some TYPE_COIL; block_size := 1 |}] in
  fst (parse_lines merge_template (example_context false, example_world [])) = Ok regs /\
  NoDup (param_ids regs) /\
  List.length (filter (fun reg => param_id reg = Some 12) regs) = 1%nat /\
  filter (fun reg => param_id reg = Some 12) regs =
    [merged None (Some TYPE_COIL)
       {| param_id := Some 12; address := Some 42;
          register_type := Some TYPE_HOLDING_REGISTER; block_size := 1 |}].
Proof.
  intros regs. split; [vm_compute; reflexivity|].
  destruct (parse_lines_one_descriptor_per_param_id merge_template
              (example_context false) (example_world []) regs)
    as (Hnd & Hone & _ & Hlast & _); [vm_compute; reflexivity|].
  split; [exact Hnd|]. split.
  - apply (Hone "paramId=12;registerType=coil"%string 12).
    + vm_compute. apply elem_of_cons. right. apply elem_of_cons. by left.
    + split; [reflexivity|]. do 2 eexists. repeat split.
  - destruct (Hlast ["paramId=12;address=42;registerType=holding"%string]
                "paramId=12;registerType=coil"%string [] 12 ["registerType=coil"%string])
      as (regs_b & s_b & w_b & Hb & ->).
    + vm_compute. reflexivity.
    + split; [reflexivity|]. eexists. split; [reflexivity|]. split; [reflexivity|].
      repeat constructor.
    + constructor.
    + vm_compute in Hb. injection Hb as <- <- <-. vm_compute. reflexivity.
Defined.

(** ** The server context *)

Lemma existsb_eqb_elem_of (x : Z) (l : list Z) : existsb (Z.eqb x) l = true <-> x ∈ l.
Proof.
  rewrite existsb_exists. split.
  - intros (y & Hy & ->%Z.eqb_eq). by apply list_elem_of_In.
  - intros H. exists x. split; [by apply list_elem_of_In|apply Z.eqb_refl].
Qed.

Lemma blind_ret {A} (a : A) : world_blind (ret a).
Proof. intros s w1 w2. split; reflexivity. Qed.

Lemma blind_lift {A} (r : result A) : world_blind (lift r).
Proof. intros s w1 w2. split; reflexivity. Qed.

Lemma blind_self : world_blind self.
Proof. intros s w1 w2. split; reflexivity. Qed.

Lemma blind_assign f : world_blind (assign f).
Proof. intros s w1 w2. split; reflexivity. Qed.

Lemma blind_self_log lv m : world_blind (self_log lv m).
Proof. intros s w1 w2. split; reflexivity. Qed.

Lemma blind_bind {A B} (c : Parser A) (k : A -> Parser B) :
  world_blind c -> (forall a, world_blind (k a)) -> world_blind (bind c k).
Proof.
  intros Hc Hk s w1 w2. unfold bind.
  destruct (Hc s w1 w2) as [H1 H2].
  destruct (c (s, w1)) as [r1 [s1 w1']], (c (s, w2)) as [r2 [s2 w2']].
  cbn in H1, H2. subst r2 s2.
  destruct r1 as [a|e]; [apply Hk|split; reflexivity].
Qed.

Lemma blind_for_each {A} (body : A -> Parser unit) (xs : list A) :
  (forall x, world_blind (body x)) -> world_blind (for_each body xs).
Proof.
  intros Hb. induction xs as [|x xs IH]; cbn [for_each]; [apply blind_ret|].
  apply blind_bind; [apply Hb|intros _; exact IH].
Qed.

Lemma blind_for_fold {A B} (body : B -> A -> Parser B) (xs : list A) :
  (forall acc x, world_blind (body acc x)) ->
  forall acc, world_blind (for_fold body xs acc).
Proof.
  intros Hb. induction xs as [|x xs IH]; intros acc; cbn [for_fold]; [apply blind_ret|].
  apply blind_bind; [apply Hb|intros acc'; apply IH].
Qed.

Ltac blind_step :=
  first [ apply blind_ret | apply blind_lift | apply blind_self | apply blind_assign
        | apply blind_self_log
        | apply blind_bind; [|intros ?]
        | match goal with
          | |- world_blind (if ?b then _ else _) => destruct b
          end ].

Lemma blind_identity_field id_tag : world_blind (identity_field id_tag).
Proof. unfold identity_field. repeat blind_step. Qed.

Lemma blind_network_field i : world_blind (network_field i).
Proof. unfold network_field. repeat blind_step. Qed.

Lemma blind_register_field l c : world_blind (register_field l c).
Proof. unfold register_field. repeat blind_step. Qed.

Lemma blind_parse_line regs line : world_blind (parse_line regs line).
Proof.
  unfold parse_line. repeat blind_step.
  - apply blind_for_each, blind_identity_field.
  - apply blind_for_each, blind_network_field.
  - apply blind_for_fold, blind_register_field.
Qed.

Lemma blind_parse_lines config_file : world_blind (parse_lines config_file).
Proof. apply blind_for_fold, blind_parse_line. Qed.

Lemma blind_build_store regs : world_blind (build_store regs).
Proof. unfold build_store. repeat blind_step. Qed.

Lemma blind_parse_config config_file : world_blind (_parse_config config_file).
Proof.
  unfold _parse_config. apply blind_bind; [apply blind_parse_lines|].
  intros regs. apply blind_build_store.
Qed.

Lemma blind_run (c : Parser unit) (s0 : SlaveContext) (w w' : World) :
  world_blind c ->
  fst (match c (s0, w) with
       | (Ok _, (s, w'')) => (Ok s, w'')
       | (Raise e, (_, w'')) => (@Raise SlaveContext e, w'')
       end) =
  fst (match c (s0, w') with
       | (Ok _, (s, w'')) => (Ok s, w'')
       | (Raise e, (_, w'')) => (@Raise SlaveContext e, w'')
       end).
Proof.
  intros Hc. destruct (Hc s0 w w') as [H1 H2].
  destruct (c (s0, w)) as [r1 [s1 w1']], (c (s0, w')) as [r2 [s2 w2']].
  cbn in H1, H2. subst r2 s2. by destruct r1.
Qed.

(** Whether the slave context of a row can be constructed, and the context
    that results, do not depend on the world. *)
Lemma new_SlaveContext_blind (row : rtu_row) (w1 w2 : World) :
  fst (new_SlaveContext row w1) = fst (new_SlaveContext row w2).
Proof.
  unfold new_SlaveContext.
  set (self0 := Build_ClearBladeModbusProxySlaveContext _ _ _ _ _ _ _ _).
  set (c := bind (_parse_config _) _).
  assert (Hc : world_blind c).
  { apply blind_bind; [apply blind_parse_config|]. intros _. apply blind_self_log. }
  clearbody c. unfold bind. destruct (String.eqb _ _).
  - exact (blind_run c self0 (logged WARNING NoProxyAddress w1)
             (logged WARNING NoProxyAddress w2) Hc).
  - exact (blind_run c self0 w1 w2 Hc).
Qed.

Lemma constructs_iff (row : rtu_row) (w : World) :
  constructs row <-> is_ok (fst (new_SlaveContext row w)) = true.
Proof.
  split; [intros H; apply H|].
  intros H w'. by rewrite (new_SlaveContext_blind row w' w).
Qed.

(** A row whose unit id was seen is logged and changes nothing. *)
Lemma initialize_slave_duplicate st row w :
  COL_SLAVE_ID_ row ∈ slaves st ->
  initialize_slave st row w =
    (Ok st, logged WARNING (DuplicateSlaveId (COL_SLAVE_ID_ row)) w).
Proof.
  intros Hin. unfold initialize_slave.
  apply existsb_eqb_elem_of in Hin. rewrite Hin. reflexivity.
Qed.

(** A row whose unit id is new has its context constructed, and the context
    is stored when the unit id is one the base class accepts. *)
Lemma initialize_slave_fresh st row w :
  COL_SLAVE_ID_ row ∉ slaves st ->
  initialize_slave st row w =
    match new_SlaveContext row w with
    | (Ok ctx, w') =>
        if (0 <=? COL_SLAVE_ID_ row) && (COL_SLAVE_ID_ row <=? 247)
        then (Ok {| slaves := slaves st ++ [COL_SLAVE_ID_ row];
                    _slaves := <[COL_SLAVE_ID_ row := ctx]> (_slaves st) |}, w')
        else (Raise NoSuchSlaveException, w')
    | (Raise e, w') => (Raise e, w')
    end.
Proof.
  intros Hin. unfold initialize_slave.
  destruct (existsb _ _) eqn:E; [by apply existsb_eqb_elem_of in E|]. cbn [negb].
  unfold bind, lift, ModbusServerContext__setitem__.
  destruct (new_SlaveContext row w) as [[ctx|e] w']; [|reflexivity].
  by destruct ((0 <=? COL_SLAVE_ID_ row) && (COL_SLAVE_ID_ row <=? 247)).
Qed.

Lemma elem_of_fold_add_id ids : forall acc x,
  x ∈ fold_left add_id ids acc <-> x ∈ acc \/ x ∈ ids.
Proof.
  induction ids as [|id ids IH]; intros acc x; cbn [fold_left].
  - rewrite elem_of_nil. tauto.
  - rewrite IH, elem_of_cons. unfold add_id. case_bool_decide as Hd.
    + split; [tauto|]. intros [H|[->|H]]; [by left|by left|by right].
    + rewrite elem_of_app, list_elem_of_singleton. tauto.
Qed.

(** Adding the ids one by one keeps the first occurrence of each. *)
Lemma fold_add_id_first_seen ids :
  fold_left add_id ids [] = reverse (remove_dups (reverse ids)).
Proof.
  induction ids as [|id ids IH] using rev_ind; [done|].
  rewrite fold_left_app, reverse_snoc. cbn [fold_left remove_dups].
  rewrite IH. unfold add_id.
  case_bool_decide as Hd; destruct (decide_rel elem_of id (reverse ids)) as [Hr|Hr].
  - done.
  - exfalso. apply Hr. by rewrite elem_of_reverse, elem_of_remove_dups in Hd.
  - exfalso. apply Hd. by rewrite elem_of_reverse, elem_of_remove_dups.
  - by rewrite reverse_cons.
Qed.

Lemma dom_insert_seen (m : gmap Z SlaveContext) (ids : list Z) id ctx :
  dom m = list_to_set ids ->
  dom (<[id := ctx]> m) = list_to_set (ids ++ [id]).
Proof.
  intros Hdom. apply set_eq. intros x.
  rewrite dom_insert_L, elem_of_union, elem_of_singleton, Hdom.
  rewrite !elem_of_list_to_set, elem_of_app, list_elem_of_singleton. tauto.
Qed.

(** The loop over the rows, when it returns. *)
Lemma initialize_loop_returns rows : forall st w st' w',
  for_fold initialize_slave rows st w = (Ok st', w') ->
  dom (_slaves st) = list_to_set (slaves st) ->
  slaves st' = fold_left add_id (map COL_SLAVE_ID_ rows) (slaves st) /\
  dom (_slaves st') = list_to_set (slaves st') /\
  (forall id, id ∈ slaves st -> _slaves st' !! id = _slaves st !! id) /\
  (forall rows1 row rows2,
     rows = rows1 ++ row :: rows2 ->
     COL_SLAVE_ID_ row ∉ slaves st -> COL_SLAVE_ID_ row ∉ map COL_SLAVE_ID_ rows1 ->
     0 <= COL_SLAVE_ID_ row <= 247 /\
     exists ctx, (forall w1, fst (new_SlaveContext row w1) = Ok ctx) /\
                 _slaves st' !! COL_SLAVE_ID_ row = Some ctx).
Proof.
  induction rows as [|row rows IH]; intros st w st' w' Hrun Hdom.
  - cbn in Hrun. injection Hrun as <- <-.
    split; [reflexivity|]. split; [exact Hdom|]. split; [reflexivity|].
    intros [|? ?] ? ? [=].
  - cbn [for_fold map fold_left] in *. unfold bind in Hrun. unfold add_id at 2.
    case_bool_decide as Hd.
    + rewrite (initialize_slave_duplicate _ _ _ Hd) in Hrun.
      destruct (IH _ _ _ _ Hrun Hdom) as (Hs & Hdom' & Hkeep & Hfirst).
      split; [exact Hs|]. split; [exact Hdom'|]. split; [exact Hkeep|].
      intros rows1 row0 rows2 Hsplit Hnew Hfresh.
      destruct rows1 as [|r1 rows1]; cbn in Hsplit; injection Hsplit as <- Hsplit; [done|].
      apply (Hfirst rows1 row0 rows2); [done|done|].
      intros H. apply Hfresh. cbn. apply elem_of_cons. by right.
    + rewrite (initialize_slave_fresh _ _ _ Hd) in Hrun.
      destruct (new_SlaveContext row w) as [[ctx|e] w1] eqn:Hctx; [|discriminate].
      destruct ((0 <=? COL_SLAVE_ID_ row) && (COL_SLAVE_ID_ row <=? 247)) eqn:Hrange;
        [|discriminate].
      set (st1 := Build_server_state _ _) in Hrun.
      destruct (IH _ _ _ _ Hrun) as (Hs & Hdom' & Hkeep & Hfirst).
      { cbn. by apply dom_insert_seen. }
      split; [exact Hs|]. split; [exact Hdom'|]. split.
      { intros id Hid. rewrite Hkeep.
        - cbn. apply lookup_insert_ne. intros <-. done.
        - cbn. apply elem_of_app. by left. }
      intros rows1 row0 rows2 Hsplit Hnew Hfresh.
      destruct rows1 as [|r1 rows1]; cbn in Hsplit; injection Hsplit as <- Hsplit.
      * split; [lia|]. exists ctx. split.
        -- intros w2. rewrite (new_SlaveContext_blind row w2 w), Hctx. reflexivity.
        -- rewrite Hkeep; cbn; [apply lookup_insert_eq|].
           apply elem_of_app. right. by apply list_elem_of_singleton.
      * apply (Hfirst rows1 row0 rows2); [done| |].
        -- cbn. intros [H|E%list_elem_of_singleton]%elem_of_app; [done|].
           apply Hfresh. cbn. rewrite E. apply elem_of_cons. by left.
        -- intros H. apply Hfresh. cbn. apply elem_of_cons. by right.
Qed.

(** The loop returns when the first row of every unit id can be processed. *)
Lemma initialize_loop_ok rows : forall st w,
  (forall rows1 row rows2,
     rows = rows1 ++ row :: rows2 ->
     COL_SLAVE_ID_ row ∉ slaves st -> COL_SLAVE_ID_ row ∉ map COL_SLAVE_ID_ rows1 ->
     constructs row /\ 0 <= COL_SLAVE_ID_ row <= 247) ->
  is_ok (fst (for_fold initialize_slave rows st w)) = true.
Proof.
  induction rows as [|row rows IH]; intros st w Hall; [reflexivity|].
  cbn [for_fold]. unfold bind.
  destruct (decide (COL_SLAVE_ID_ row ∈ slaves st)) as [Hd|Hd].
  - rewrite (initialize_slave_duplicate _ _ _ Hd). apply IH.
    intros rows1 row0 rows2 -> Hnew Hfresh.
    apply (Hall (row :: rows1) row0 rows2); [reflexivity|done|].
    cbn. intros [E|H']%elem_of_cons; [|done]. apply Hnew. by rewrite E.
  - rewrite (initialize_slave_fresh _ _ _ Hd).
    destruct (Hall [] row rows eq_refl Hd) as [Hrow Hrange]; [apply not_elem_of_nil|].
    specialize (Hrow w).
    destruct (new_SlaveContext row w) as [[ctx|e] w1]; [|discriminate].
    destruct (Z.leb_spec 0 (COL_SLAVE_ID_ row)); [|lia].
    destruct (Z.leb_spec (COL_SLAVE_ID_ row) 247); [|lia]. cbn [andb].
    apply IH. cbn [slaves]. intros rows1 row0 rows2 -> Hnew Hfresh.
    apply (Hall (row :: rows1) row0 rows2); [reflexivity| |].
    + intros H'. apply Hnew. apply elem_of_app. by left.
    + cbn. intros [E|H']%elem_of_cons; [|done].
      apply Hnew. apply elem_of_app. right. apply list_elem_of_singleton. done.
Qed.

(** [_initialize_slaves] is the loop, run after two debug records. *)
Lemma initialize_slaves_loop (ip_address : option string) (rtus : list rtu_row) (w : World) :
  exists w0, _initialize_slaves ip_address rtus w =
             for_fold initialize_slave (selected_rows ip_address rtus)
                      {| slaves := []; _slaves := ∅ |} w0.
Proof.
  unfold _initialize_slaves, bind, log_msg, modify, ret.
  destruct ip_address; cbn; eauto.
Qed.

(** C9. [_initialize_slaves] returns exactly when every row that is the
    first of its unit id has a template from which the slave context can be
    constructed and a unit id in 0..247; one such row that has not makes it
    raise, and then there is no mapping at all.  When it returns, the unit
    ids it has seen are the distinct unit ids of the rows in first-seen
    order, and the mapping holds exactly one slave context for each of them,
    the one constructed from the first row of that unit id.  A row whose
    unit id was already seen is logged as a warning and leaves the unit ids
    and the mapping as they were. *)
Theorem initialize_slaves_first_seen_wins
    (ip_address : option string) (rtus : list rtu_row) (w : World) :
  let rows := selected_rows ip_address rtus in
  let r := _initialize_slaves ip_address rtus w in
  (is_ok (fst r) = true <->
   forall row, first_seen rows row ->
     constructs row /\ 0 <= COL_SLAVE_ID_ row <= 247) /\
  (forall st, fst r = Ok st ->
     slaves st = reverse (remove_dups (reverse (map COL_SLAVE_ID_ rows))) /\
     NoDup (slaves st) /\
     dom (_slaves st) = list_to_set (map COL_SLAVE_ID_ rows) /\
     forall row, first_seen rows row ->
       exists ctx, (forall w1, fst (new_SlaveContext row w1) = Ok ctx) /\
                   _slaves st !! COL_SLAVE_ID_ row = Some ctx) /\
  (forall st0 row w0,
     COL_SLAVE_ID_ row ∈ slaves st0 ->
     initialize_slave st0 row w0 =
       (Ok st0, logged WARNING (DuplicateSlaveId (COL_SLAVE_ID_ row)) w0)).
Proof.
  intros rows r. subst r.
  destruct (initialize_slaves_loop ip_address rtus w) as (w0 & ->). fold rows.
  set (st0 := {| slaves := []; _slaves := ∅ |}).
  assert (Hdom0 : dom (_slaves st0) = list_to_set (slaves st0)).
  { cbn. by rewrite dom_empty_L. }
  assert (Hret : forall st, fst (for_fold initialize_slave rows st0 w0) = Ok st ->
            slaves st = reverse (remove_dups (reverse (map COL_SLAVE_ID_ rows))) /\
            dom (_slaves st) = list_to_set (slaves st) /\
            forall row, first_seen rows row ->
              0 <= COL_SLAVE_ID_ row <= 247 /\
              exists ctx, (forall w1, fst (new_SlaveContext row w1) = Ok ctx) /\
                          _slaves st !! COL_SLAVE_ID_ row = Some ctx).
  { intros st Hst.
    destruct (for_fold initialize_slave rows st0 w0) as [r w'] eqn:Hrun.
    cbn in Hst. subst r.
    destruct (initialize_loop_returns rows st0 w0 st w' Hrun Hdom0)
      as (Hs & Hdom & _ & Hfirst).
    cbn [slaves st0] in Hs. rewrite fold_add_id_first_seen in Hs.
    split; [exact Hs|]. split; [exact Hdom|].
    intros row (rows1 & rows2 & Hsplit & Hfresh).
    apply (Hfirst rows1 row rows2 Hsplit); [apply not_elem_of_nil|exact Hfresh]. }
  split; [|split; [|apply initialize_slave_duplicate]].
  - split.
    + intros Hok row Hrow.
      destruct (fst (for_fold initialize_slave rows st0 w0)) as [st|e] eqn:Hst;
        [|discriminate].
      destruct (Hret st eq_refl) as (_ & _ & Hfirst).
      destruct (Hfirst row Hrow) as (Hrange & ctx & Hctx & _).
      split; [|exact Hrange]. intros w1. by rewrite Hctx.
    + intros Hall. apply initialize_loop_ok.
      intros rows1 row rows2 Hsplit _ Hfresh. apply Hall. by exists rows1, rows2.
  - intros st Hst. destruct (Hret st Hst) as (Hs & Hdom & Hfirst).
    split; [exact Hs|]. split.
    { rewrite Hs, reverse_Permutation. apply NoDup_remove_dups. }
    split.
    { rewrite Hdom, Hs. apply set_eq. intros x.
      rewrite !elem_of_list_to_set, elem_of_reverse, elem_of_remove_dups, elem_of_reverse.
      done. }
    intros row Hrow. by destruct (Hfirst row Hrow) as (_ & Hctx).
Qed.

(** Unit id 3 in two rows, unit id 4 in one: two contexts, the one of unit
    id 3 built from the first row. *)
Lemma initialize_slaves_first_seen_wins_witness :
  let rtus := [example_row 3 holding_template; example_row 4 untyped_template;
               example_row 3 untyped_template] in
  exists st,
    fst (_initialize_slaves None rtus (example_world [])) = Ok st /\
    slaves st = [3; 4] /\
    dom (_slaves st) = {[3; 4]} /\
    (exists ctx,
       (forall w1, fst (new_SlaveContext (example_row 3 holding_template) w1) = Ok ctx) /\
       _slaves st !! 3 = Some ctx).
Proof.
  intros rtus.
  destruct (initialize_slaves_first_seen_wins None rtus (example_world []))
    as (Hiff & Hret & _).
  destruct (fst (_initialize_slaves None rtus (example_world []))) as [st|e] eqn:Hst;
    [|vm_compute in Hst; discriminate].
  exists st. split; [reflexivity|].
  destruct (Hret st eq_refl) as (Hs & _ & Hdom & Hfirst).
  split; [exact Hs|]. split.
  - rewrite Hdom. vm_compute. reflexivity.
  - apply (Hfirst (example_row 3 holding_template)). exists [], (tl rtus).
    split; [reflexivity|]. apply not_elem_of_nil.
Defined.

(** A template with a field that is not an integer stops the
    initialisation for every row, and so does a unit id that the base class
    does not store: no mapping results. *)
Lemma initialize_slaves_bad_row_aborts :
  fst (_initialize_slaves None
         [example_row 3 holding_template; example_row 4 "paramId=abc"]
         (example_world [])) = Raise ValueError /\
  fst (_initialize_slaves None
         [example_row 3 holding_template; example_row 250 holding_template]
         (example_world [])) = Raise NoSuchSlaveException.
Proof. split; vm_compute; reflexivity. Qed.

(** The log of that run. *)
Example initialize_slaves_example :
  log (snd (_initialize_slaves None
              [example_row 3 holding_template; example_row 4 untyped_template;
               example_row 3 untyped_template] (example_world []))) =
    [(DEBUG, QueryingBySlaveId); (DEBUG, FoundRows 3);
     (DEBUG, SlaveContextComplete "10.0.0.1");
     (ERROR, UnsupportedRegisterType "float"); (ERROR, UnsupportedRegisterType "float");
     (DEBUG, SlaveContextComplete "10.0.0.1");
     (WARNING, DuplicateSlaveId 3)].
Proof. vm_compute. reflexivity. Qed.

(** * Further properties of the code *)

(** *** Stability of the sort, and the mapping of a sparse read *)

Lemma filter_insert_by {A} (key : A -> Z) (k : Z) x l :
  filter (fun y => key y = k) (insert_by (fun a b => key a <=? key b) x l) =
  filter (fun y => key y = k) (x :: l).
Proof.
  induction l as [|y l IH]; [done|].
  cbn [insert_by]. destruct (Z.leb_spec (key x) (key y)) as [Hle|Hlt]; [done|].
  rewrite filter_cons, IH, !filter_cons.
  destruct (decide (key y = k)) as [Hy|Hy]; destruct (decide (key x = k)) as [Hx|Hx];
    try done. lia.
Qed.

Lemma filter_sorted_by_key {A} (key : A -> Z) (k : Z) l :
  filter (fun y => key y = k) (sorted_by_key key l) = filter (fun y => key y = k) l.
Proof.
  unfold sorted_by_key. induction l as [|x l IH]; [done|].
  change (sorted _ (x :: l)) with
    (insert_by (fun a b => key a <=? key b) x (sorted (fun a b => key a <=? key b) l)).
  rewrite filter_insert_by, !filter_cons, IH. done.
Qed.

Lemma fold_insert_latest {A V} (key : A -> Z) (val : A -> V) (l : list A) :
  forall (d : gmap Z V) k,
    fold_left (fun d reg => <[key reg := val reg]> d) l d !! k =
    match last (filter (fun y => key y = k) l) with
    | Some y => Some (val y)
    | None => d !! k
    end.
Proof.
  induction l as [|x l IH]; intros d k; cbn [fold_left]; [done|].
  rewrite IH, filter_cons.
  destruct (decide (key x = k)) as [<-|Hne].
  - destruct (filter _ l) as [|y l'] eqn:E; cbn.
    + apply lookup_insert_eq.
    + change (last (x :: y :: l')) with (last (y :: l')).
      destruct (last (y :: l')) eqn:E2; [done|].
      rewrite last_cons in E2. by destruct (last l').
  - destruct (last (filter _ l)); [done|]. by apply lookup_insert_ne.
Qed.

(** The bridge read of a sparse context, in full: an address mapped twice
    keeps the row that the store returned last. *)
Lemma read_collection_data_sparse_latest {B} (ctx : ClearBladeModbusProxySlaveContext B)
    rt address count fill w :
  sparse ctx = true ->
  let rows := returned_rows ctx rt address count w in
  exists vd td,
    read_collection_data ctx rt address count fill w =
      (Ok (PyDict vd, PyDict td),
       {| collection := collection w;
          calls := calls w ++ [GetItems (read_query ctx rt address count)];
          log := log w ++ (if len rows =? count then []
                           else [(WARNING, GotRowsExpecting (len rows) count)]) |}) /\
    (forall k, vd !! k = COL_REG_DATA <$> latest_row rows k) /\
    (forall k, td !! k = COL_DATA_TIMESTAMP <$> latest_row rows k).
Proof.
  intros Hsp rows. unfold read_collection_data, bind, getItems. rewrite Hsp.
  fold (returned_rows ctx rt address count w). fold rows.
  set (rl := sorted_by_key COL_REG_ADDRESS rows).
  assert (Hlen : len rl = len rows) by (unfold len, rl, sorted_by_key; by rewrite length_sorted).
  rewrite Hlen. unfold log_msg, modify, ret.
  eexists _, _. split; [|split].
  - destruct (len rows =? count); cbn; [by rewrite app_nil_r|done].
  - intros k. rewrite fold_insert_latest, lookup_empty. unfold latest_row, rl.
    rewrite filter_sorted_by_key. by destruct (last _).
  - intros k. rewrite fold_insert_latest, lookup_empty. unfold latest_row, rl.
    rewrite filter_sorted_by_key. by destruct (last _).
Qed.


(** *** The merge of a sparse read *)

Section sparse_merge.
Context (vd : gmap Z Z) (td : gmap Z (option timestamp)).

(** One key of the read: the cache entry of that address is replaced when the
    block has the address, and nothing else changes. *)
Lemma merge_addr_spec key v ts addrs : forall b w,
  vd !! key = Some v -> td !! key = Some ts ->
  exists b',
    for_each (CbModbusSparseDataBlock.merge_addr (PyDict vd) (PyDict td) key) addrs (b, w)
      = (Ok tt, (b', w)) /\
    CbModbusSparseDataBlock.register_type b' = CbModbusSparseDataBlock.register_type b /\
    CbModbusSparseDataBlock.values b' =
      (if bool_decide (Some key ∈ addrs)
       then <[Some key := v]> (CbModbusSparseDataBlock.values b)
       else CbModbusSparseDataBlock.values b) /\
    CbModbusSparseDataBlock.timestamps b' =
      (if bool_decide (Some key ∈ addrs)
       then <[Some key := ts]> (CbModbusSparseDataBlock.timestamps b)
       else CbModbusSparseDataBlock.timestamps b).
Proof.
  intros b w Hv Hts. revert b.
  induction addrs as [|addr addrs IH]; intros b; cbn [for_each].
  - eexists. split; [reflexivity|]. by rewrite !bool_decide_eq_false_2 by apply not_elem_of_nil.
  - unfold bind at 1, CbModbusSparseDataBlock.merge_addr at 1.
    destruct (decide (Some key = addr)) as [<-|Hd].
    + unfold bind, lift, c_getitem, on_fst, modify. rewrite Hv, Hts. cbn.
      match goal with
      | |- context [for_each _ _ (?b1, _)] => destruct (IH b1) as (b' & -> & Hr & Hvs & Htss)
      end.
      exists b'. split; [done|]. split; [done|].
      rewrite Hvs, Htss. cbn.
      rewrite (bool_decide_eq_true_2 (Some key ∈ Some key :: addrs)) by (apply elem_of_cons; auto).
      case_bool_decide; [by rewrite !insert_insert_eq|done].
    + unfold ret. destruct (IH b) as (b' & -> & Hr & Hvs & Htss).
      exists b'. split; [done|]. split; [done|]. rewrite Hvs, Htss.
      rewrite (bool_decide_ext (Some key ∈ addr :: addrs) (Some key ∈ addrs)); [done|].
      rewrite elem_of_cons. split; [intros [?|?]; [congruence|done]|auto].
Qed.

Lemma merge_key_spec key v ts b w :
  vd !! key = Some v -> td !! key = Some ts ->
  exists b',
    CbModbusSparseDataBlock.merge_key (PyDict vd) (PyDict td) key (b, w) = (Ok tt, (b', w)) /\
    CbModbusSparseDataBlock.register_type b' = CbModbusSparseDataBlock.register_type b /\
    (forall a, CbModbusSparseDataBlock.values b' !! a =
               match CbModbusSparseDataBlock.values b !! a with
               | Some old => Some (if decide (a = Some key) then v else old)
               | None => None
               end) /\
    (forall a, CbModbusSparseDataBlock.timestamps b' !! a =
               if decide (a = Some key /\ is_Some (CbModbusSparseDataBlock.values b !! a))
               then Some ts else CbModbusSparseDataBlock.timestamps b !! a).
Proof.
  intros Hv Hts. unfold CbModbusSparseDataBlock.merge_key.
  unfold bind at 1, CbModbusSparseDataBlock.self at 1. cbn [fst].
  destruct (merge_addr_spec key v ts (map_to_list (CbModbusSparseDataBlock.values b)).*1
              b w Hv Hts) as (b' & -> & Hr & Hvs & Htss).
  exists b'. split; [done|]. split; [done|].
  assert (Hin : Some key ∈ (map_to_list (CbModbusSparseDataBlock.values b)).*1 <->
                is_Some (CbModbusSparseDataBlock.values b !! Some key)).
  { rewrite list_elem_of_fmap. split.
    - intros ([k x] & Hk & Hx). cbn in Hk. subst k. apply elem_of_map_to_list in Hx. eauto.
    - intros [x Hx]. exists (Some key, x). split; [done|]. by apply elem_of_map_to_list. }
  rewrite Hvs, Htss. split; intros a.
  - case_bool_decide as Hk.
    + apply Hin in Hk as [x Hx]. destruct (decide (a = Some key)) as [->|Hne].
      * by rewrite lookup_insert_eq, Hx.
      * rewrite lookup_insert_ne by done. by destruct (_ !! a).
    + destruct (CbModbusSparseDataBlock.values b !! a) eqn:Ha; [|done].
      rewrite decide_False; [done|]. intros ->. apply Hk, Hin. eauto.
  - case_bool_decide as Hk.
    + apply Hin in Hk. destruct (decide (a = Some key)) as [->|Hne].
      * rewrite lookup_insert_eq, decide_True; done.
      * rewrite lookup_insert_ne by done. rewrite decide_False; [done|]. by intros [? _].
    + rewrite decide_False; [done|]. intros [-> Hs]. by apply Hk, Hin.
Qed.

Lemma merge_loop_spec keys : forall b w,
  Forall (fun key => is_Some (vd !! key) /\ is_Some (td !! key)) keys ->
  exists b',
    for_each (CbModbusSparseDataBlock.merge_key (PyDict vd) (PyDict td)) keys (b, w)
      = (Ok tt, (b', w)) /\
    CbModbusSparseDataBlock.register_type b' = CbModbusSparseDataBlock.register_type b /\
    (forall a, CbModbusSparseDataBlock.values b' !! a =
               match a, CbModbusSparseDataBlock.values b !! a with
               | Some k, Some old => Some (if decide (k ∈ keys) then default old (vd !! k)
                                           else old)
               | _, r => r
               end) /\
    (forall a, CbModbusSparseDataBlock.timestamps b' !! a =
               match a, CbModbusSparseDataBlock.values b !! a with
               | Some k, Some _ => if decide (k ∈ keys) then td !! k
                                   else CbModbusSparseDataBlock.timestamps b !! a
               | _, _ => CbModbusSparseDataBlock.timestamps b !! a
               end).
Proof.
  intros b w Hall. revert b.
  induction Hall as [|key keys [[v Hv] [ts Hts]] Hall IH]; intros b; cbn [for_each].
  - exists b. split; [done|]. split; [done|]. split; intros [k|]; try done.
    + destruct (CbModbusSparseDataBlock.values b !! Some k); [|done].
      rewrite decide_False; [done|apply not_elem_of_nil].
    + destruct (CbModbusSparseDataBlock.values b !! Some k); [|done].
      rewrite decide_False; [done|apply not_elem_of_nil].
  - unfold bind at 1.
    destruct (merge_key_spec key v ts b w Hv Hts) as (b1 & -> & Hr1 & Hv1 & Ht1).
    destruct (IH b1) as (b' & -> & Hr & Hvs & Htss).
    exists b'. split; [done|]. split; [congruence|].
    split; intros a; [rewrite Hvs|rewrite Htss]; destruct a as [k|]; rewrite ?Hv1, ?Ht1.
    + destruct (CbModbusSparseDataBlock.values b !! Some k) as [old|]; [|done].
      f_equal. destruct (decide (k ∈ keys)) as [Hin|Hin].
      * rewrite (decide_True (P := k ∈ key :: keys)) by (apply elem_of_cons; auto).
        rewrite Forall_forall in Hall. destruct (Hall k Hin) as [[x ->] _]. done.
      * destruct (decide (Some k = Some key)) as [[= ->]|Hne].
        -- rewrite (decide_True (P := key ∈ key :: keys)) by (apply elem_of_cons; auto).
           by rewrite Hv.
        -- rewrite decide_False; [done|]. rewrite elem_of_cons. intros [?|?]; congruence.
    + destruct (CbModbusSparseDataBlock.values b !! None); [|done].
      by rewrite decide_False.
    + destruct (CbModbusSparseDataBlock.values b !! Some k) as [old|] eqn:Hold.
      * destruct (decide (k ∈ keys)) as [Hin|Hin].
        -- by rewrite (decide_True (P := k ∈ key :: keys)) by (apply elem_of_cons; auto).
        -- destruct (decide (k = key)) as [->|Hne].
           ++ rewrite (decide_True (P := key ∈ key :: keys)) by (apply elem_of_cons; auto).
              rewrite decide_True; [done|]. split; [done|]. eauto.
           ++ rewrite (decide_False (P := k ∈ key :: keys))
                by (rewrite elem_of_cons; intros [?|?]; congruence).
              rewrite decide_False; [done|]. intros [? _]. congruence.
      * rewrite decide_False; [done|]. intros [_ [? ?]]. congruence.
    + rewrite decide_False; [|by intros [? _]]. by destruct (_ !! None).
Qed.
End sparse_merge.

Lemma value_at_run k b w :
  CbModbusSparseDataBlock.value_at k (b, w) =
  (match CbModbusSparseDataBlock.values b !! k with
   | Some v => Ok v | None => Raise KeyError end, (b, w)).
Proof.
  unfold CbModbusSparseDataBlock.value_at, bind, CbModbusSparseDataBlock.self. cbn [fst].
  by destruct (_ !! k).
Qed.

Lemma list_comp_lookup {S A V} (f : A -> M S V) (g : A -> option V) s xs :
  (forall k, f k s = (match g k with Some v => Ok v | None => Raise KeyError end, s)) ->
  list_comp f xs s = (lookup_all g xs, s).
Proof.
  intros Hf. unfold lookup_all. induction xs as [|x xs IH]; [done|].
  cbn [list_comp]. unfold bind at 1. rewrite Hf. cbn.
  destruct (g x) as [v|]; [|done]. cbn.
  unfold bind at 1. rewrite IH.
  destruct (mapM _ xs); done.
Qed.

Lemma dom_fold_insert {A V} (key : A -> Z) (val : A -> V) (l : list A) :
  forall d : gmap Z V,
    dom (fold_left (fun d reg => <[key reg := val reg]> d) l d) =
    dom d ∪ list_to_set (map key l).
Proof.
  induction l as [|x l IH]; intros d; cbn [fold_left map list_to_set].
  - by rewrite (right_id_L ∅ (∪)).
  - rewrite IH, dom_insert_L. apply set_eq. intros k.
    rewrite !elem_of_union, elem_of_singleton. tauto.
Qed.

Lemma size_fold_insert {A V} (key : A -> Z) (val : A -> V) (l : list A) :
  size (fold_left (fun d reg => <[key reg := val reg]> d) l (∅ : gmap Z V)) =
  List.length (remove_dups (map key l)).
Proof.
  rewrite <- size_dom, dom_fold_insert, dom_empty_L, (left_id_L ∅ (∪)).
  assert (Heq : (list_to_set (map key l) : gset Z) = list_to_set (remove_dups (map key l))).
  { apply set_eq. intros k. by rewrite !elem_of_list_to_set, elem_of_remove_dups. }
  rewrite Heq. apply size_list_to_set, NoDup_remove_dups.
Qed.

Lemma remove_dups_sorted_by_key {A} (key : A -> Z) l :
  List.length (remove_dups (map key (sorted_by_key key l))) =
  List.length (remove_dups (map key l)).
Proof.
  apply Permutation_length, NoDup_Permutation; [apply NoDup_remove_dups..|].
  intros k. rewrite !elem_of_remove_dups, !list_elem_of_fmap.
  unfold sorted_by_key. split; intros (x & -> & Hx); exists x; split; try done.
  - by apply elem_of_sorted in Hx.
  - by apply elem_of_sorted.
Qed.

(** The number of keys of the mapping of a sparse read. *)
Lemma read_collection_data_sparse_size {B} (ctx : ClearBladeModbusProxySlaveContext B)
    rt address count fill w vd td w' :
  sparse ctx = true ->
  read_collection_data ctx rt address count fill w = (Ok (PyDict vd, PyDict td), w') ->
  c_len (PyDict vd) = distinct_addresses (returned_rows ctx rt address count w).
Proof.
  intros Hsp. unfold read_collection_data, bind, getItems. rewrite Hsp.
  fold (returned_rows ctx rt address count w).
  unfold log_msg, modify, ret.
  destruct (negb _); intros [= <- _ _]; cbn [c_len]; unfold distinct_addresses, len;
    by rewrite size_fold_insert, remove_dups_sorted_by_key.
Qed.

(** [getValues] of a sparse block in a sparse context, unrolled. *)
Lemma sparse_getValues_run {B} (ctx : ClearBladeModbusProxySlaveContext B)
    (b : CbModbusSparseDataBlock.t) (w : World) (address count : Z) :
  sparse ctx = true ->
  let rt := CbModbusSparseDataBlock.register_type b in
  let rows := returned_rows ctx rt address count w in
  exists b',
    CbModbusSparseDataBlock.getValues ctx address count (b, w) =
      (lookup_all (fun i => CbModbusSparseDataBlock.values b' !! Some i)
                  (py_range address (address + count)),
       (b', {| collection := collection w;
               calls := calls w ++ [GetItems (read_query ctx rt address count)];
               log := log w ++ read_warnings rows count |})) /\
    CbModbusSparseDataBlock.register_type b' = rt /\
    (forall a, CbModbusSparseDataBlock.values b' !! a =
               refreshed COL_REG_DATA rows (CbModbusSparseDataBlock.values b)
                         (CbModbusSparseDataBlock.values b) a) /\
    (forall a, CbModbusSparseDataBlock.timestamps b' !! a =
               refreshed COL_DATA_TIMESTAMP rows (CbModbusSparseDataBlock.values b)
                         (CbModbusSparseDataBlock.timestamps b) a).
Proof.
  intros Hsp rt rows.
  destruct (read_collection_data_sparse_latest ctx rt address count (Some 0) w Hsp)
    as (vd & td & Hread & Hvd & Htd).
  pose proof (read_collection_data_sparse_size ctx rt address count (Some 0) w _ _ _
                Hsp Hread) as Hsize.
  fold rows in Hread, Hvd, Htd, Hsize.
  unfold CbModbusSparseDataBlock.getValues.
  unfold bind at 1, CbModbusSparseDataBlock.self at 1. cbn [fst].
  unfold bind at 1, on_snd at 1. cbn [fst snd]. fold rt. rewrite Hread.
  unfold bind at 1. rewrite Hsize.
  set (w1 := {| collection := collection w; calls := _; log := _ |}).
  set (w2 := {| collection := collection w;
                calls := calls w ++ [GetItems (read_query ctx rt address count)];
                log := log w ++ read_warnings rows count |}).
  assert (Hlog : (if negb (distinct_addresses rows =? count)
                  then on_snd (log_msg WARNING
                         (RegisterCountMismatch count (distinct_addresses rows)))
                  else ret tt) (b, w1) = (Ok tt, (b, w2))).
  { unfold w2, read_warnings. destruct (distinct_addresses rows =? count); cbn.
    - unfold ret. by rewrite app_nil_r.
    - unfold on_snd, log_msg, modify. cbn. by rewrite <- app_assoc. }
  rewrite Hlog. unfold bind at 1.
  destruct (merge_loop_spec vd td (c_iter (PyDict vd)) b w2) as (b' & -> & Hr & Hvs & Hts).
  { apply Forall_forall. intros key Hin. cbn in Hin.
    apply list_elem_of_fmap in Hin as ([k v] & -> & Hin).
    apply elem_of_map_to_list in Hin. cbn. split; [eauto|].
    rewrite Htd. rewrite Hvd in Hin. destruct (latest_row rows k); [eauto|done]. }
  exists b'. split; [|split; [done|]].
  - apply list_comp_lookup. intros k. apply value_at_run.
  - assert (Hkeys : forall k, k ∈ c_iter (PyDict vd) <-> is_Some (latest_row rows k)).
    { intros k. cbn. rewrite list_elem_of_fmap. split.
      - intros ([k' v] & -> & Hin). apply elem_of_map_to_list in Hin. cbn.
        rewrite Hvd in Hin. destruct (latest_row rows k'); [eauto|done].
      - intros [it Hit]. exists (k, COL_REG_DATA it). split; [done|].
        apply elem_of_map_to_list. by rewrite Hvd, Hit. }
    split; intros a; [rewrite Hvs|rewrite Hts]; destruct a as [k|]; cbn [refreshed]; try done.
    + destruct (CbModbusSparseDataBlock.values b !! Some k) as [old|] eqn:Hold; [|done].
      destruct (decide _) as [Hin|Hin].
      * apply Hkeys in Hin as [it Hit]. by rewrite Hvd, Hit.
      * destruct (latest_row rows k) as [it|] eqn:Hit; [|done].
        exfalso. apply Hin, Hkeys. eauto.
    + destruct (CbModbusSparseDataBlock.values b !! Some k) as [old|] eqn:Hold; [|done].
      destruct (decide _) as [Hin|Hin].
      * apply Hkeys in Hin as [it Hit]. by rewrite Htd, Hit.
      * destruct (latest_row rows k) as [it|] eqn:Hit; [|done].
        exfalso. apply Hin, Hkeys. eauto.
Qed.

Lemma lookup_all_ext {A V} (g g' : A -> option V) xs :
  (forall x, g x = g' x) -> lookup_all g xs = lookup_all g' xs.
Proof.
  intros Hg. unfold lookup_all. induction xs as [|x xs IH]; [done|].
  cbn. rewrite Hg. destruct (g' x); [|done]. cbn.
  destruct (mapM g xs), (mapM g' xs); cbn in *; congruence.
Qed.

Lemma lookup_all_is_ok {A V} (g : A -> option V) xs :
  is_ok (lookup_all g xs) = true <-> forall x, x ∈ xs -> is_Some (g x).
Proof.
  unfold lookup_all. induction xs as [|x xs IH]; cbn.
  - split; [|done]. intros _ x Hx. by apply elem_of_nil in Hx.
  - destruct (g x) as [v|] eqn:Hx; cbn.
    + destruct (mapM g xs) as [vs|]; cbn in *.
      * split; [|done]. intros _ y Hy. apply elem_of_cons in Hy as [->|Hy]; [eauto|].
        by apply IH.
      * split; [done|]. intros H. apply IH. intros y Hy. apply H, elem_of_cons. auto.
    + split; [done|]. intros H. destruct (H x) as [? ?]; [apply elem_of_cons; auto|].
      congruence.
Qed.

Lemma refreshed_is_Some {V} (field : item -> V) (rows : list item)
    (keys : gmap (option Z) Z) (cache : gmap (option Z) V) (a : option Z) :
  (is_Some (keys !! a) <-> is_Some (cache !! a)) ->
  (is_Some (refreshed field rows keys cache a) <-> is_Some (keys !! a)).
Proof.
  intros Hk. destruct a as [k|]; cbn [refreshed]; [|by rewrite Hk].
  destruct (keys !! Some k) as [x|] eqn:Hx.
  - destruct (latest_row rows k); [by split; eauto|]. rewrite <- Hk. by split; eauto.
  - by rewrite <- Hk.
Qed.

(** X1. In a sparse context the bridge read always returns, with exactly one
    query and the row-count warning when the counts differ.  Its mappings
    hold, for every address of a returned row, the data and the time stamp of
    the last such row in store order (the sort is stable, a later row
    overwrites an earlier one) and nothing for any other address; the number
    of keys is the number of distinct addresses. *)
Theorem sparse_read_holds_latest_rows {B} (ctx : ClearBladeModbusProxySlaveContext B)
    (rt : string) (address count : Z) (fill : option Z) (w : World) :
  sparse ctx = true ->
  let rows := returned_rows ctx rt address count w in
  exists vd td,
    read_collection_data ctx rt address count fill w =
      (Ok (PyDict vd, PyDict td),
       {| collection := collection w;
          calls := calls w ++ [GetItems (read_query ctx rt address count)];
          log := log w ++ (if len rows =? count then []
                           else [(WARNING, GotRowsExpecting (len rows) count)]) |}) /\
    (forall k, vd !! k = COL_REG_DATA <$> latest_row rows k) /\
    (forall k, td !! k = COL_DATA_TIMESTAMP <$> latest_row rows k) /\
    c_len (PyDict vd) = distinct_addresses rows.
Proof.
  intros Hsp rows.
  destruct (read_collection_data_sparse_latest ctx rt address count fill w Hsp)
    as (vd & td & Hread & Hvd & Htd).
  exists vd, td. repeat split; try done.
  eapply read_collection_data_sparse_size; eauto.
Qed.

Lemma sparse_read_holds_latest_rows_witness :
  let w := example_world [example_item 5 50 "t5"; example_item 6 60 "t6";
                          example_item 5 51 "t5b"] in
  sparse (example_context true) = true /\
  exists vd td,
    fst (read_collection_data (example_context true) "hr" 5 3 None w) =
      Ok (PyDict vd, PyDict td) /\
    vd !! 5 = Some 51 /\ td !! 5 = Some (Some "t5b"%string) /\ vd !! 7 = None /\
    c_len (PyDict vd) = 2.
Proof.
  intros w. split; [reflexivity|].
  destruct (sparse_read_holds_latest_rows (example_context true) "hr" 5 3 None w eq_refl)
    as (vd & td & Hread & Hvd & Htd & Hlen).
  exists vd, td. rewrite Hread, !Hvd, Htd, Hlen. repeat split.
Defined.

(** X2. [getValues] of a sparse block in a sparse context, whether it returns
    or raises: every address the block already has and for which a row came
    back takes that row's data and time stamp, every other entry of the cache
    and of the time stamps is left as it was, no address is added, and the
    world gets one query and the warnings of the read. *)
Theorem sparse_getValues_refreshes_cache {B} (ctx : ClearBladeModbusProxySlaveContext B)
    (b : CbModbusSparseDataBlock.t) (w : World) (address count : Z) :
  sparse ctx = true ->
  let rt := CbModbusSparseDataBlock.register_type b in
  let rows := returned_rows ctx rt address count w in
  let s' := snd (CbModbusSparseDataBlock.getValues ctx address count (b, w)) in
  CbModbusSparseDataBlock.register_type (fst s') = rt /\
  (forall a, CbModbusSparseDataBlock.values (fst s') !! a =
             refreshed COL_REG_DATA rows (CbModbusSparseDataBlock.values b)
                       (CbModbusSparseDataBlock.values b) a) /\
  (forall a, CbModbusSparseDataBlock.timestamps (fst s') !! a =
             refreshed COL_DATA_TIMESTAMP rows (CbModbusSparseDataBlock.values b)
                       (CbModbusSparseDataBlock.timestamps b) a) /\
  snd s' = {| collection := collection w;
              calls := calls w ++ [GetItems (read_query ctx rt address count)];
              log := log w ++ read_warnings rows count |}.
Proof.
  intros Hsp rt rows s'.
  destruct (sparse_getValues_run ctx b w address count Hsp) as (b' & Hrun & Hr & Hv & Ht).
  subst s'. rewrite Hrun. cbn [fst snd]. auto.
Qed.

Lemma sparse_getValues_refreshes_cache_witness :
  let w := example_world [example_item 5 50 "t5"; example_item 6 60 "t6"] in
  let s' := snd (CbModbusSparseDataBlock.getValues (example_context true) 5 3
                   (example_sparse_block, w)) in
  sparse (example_context true) = true /\
  CbModbusSparseDataBlock.values (fst s') !! Some 5 = Some 50 /\
  CbModbusSparseDataBlock.values (fst s') !! Some 6 = None /\
  CbModbusSparseDataBlock.values (fst s') !! Some 7 = Some 0 /\
  CbModbusSparseDataBlock.timestamps (fst s') !! Some 5 = Some (Some "t5"%string) /\
  log (snd s') = [(WARNING, GotRowsExpecting 2 3); (WARNING, RegisterCountMismatch 3 2)].
Proof.
  intros w s'. split; [reflexivity|].
  destruct (sparse_getValues_refreshes_cache (example_context true) example_sparse_block
              w 5 3 eq_refl) as (_ & Hv & Ht & Hw).
  fold s' in Hv, Ht, Hw. rewrite !Hv, Ht, Hw. repeat split.
Defined.

(** X3. In a sparse context [getValues] returns exactly when every address
    of the range is an address of the block; it then returns one value per
    address: the data of the row returned for it, or the cached value when
    no row came back for that address. *)
Theorem sparse_getValues_returns_iff_keys {B} (ctx : ClearBladeModbusProxySlaveContext B)
    (b : CbModbusSparseDataBlock.t) (w : World) (address count : Z) :
  sparse ctx = true ->
  let rows := returned_rows ctx (CbModbusSparseDataBlock.register_type b) address count w in
  fst (CbModbusSparseDataBlock.getValues ctx address count (b, w)) =
    lookup_all (fun i => refreshed COL_REG_DATA rows (CbModbusSparseDataBlock.values b)
                           (CbModbusSparseDataBlock.values b) (Some i))
               (py_range address (address + count)) /\
  (is_ok (fst (CbModbusSparseDataBlock.getValues ctx address count (b, w))) = true <->
   forall i, address <= i < address + count ->
             is_Some (CbModbusSparseDataBlock.values b !! Some i)).
Proof.
  intros Hsp rows.
  destruct (sparse_getValues_run ctx b w address count Hsp) as (b' & Hrun & _ & Hv & _).
  fold rows in Hv. rewrite Hrun. cbn [fst].
  rewrite (lookup_all_ext _ (fun i => refreshed COL_REG_DATA rows
             (CbModbusSparseDataBlock.values b) (CbModbusSparseDataBlock.values b) (Some i)))
    by (intros i; apply Hv).
  split; [done|]. rewrite lookup_all_is_ok. split.
  - intros H i Hi.
    apply (proj1 (refreshed_is_Some COL_REG_DATA rows _ _ (Some i) (iff_refl _))).
    by apply H, elem_of_py_range.
  - intros H i Hi%elem_of_py_range.
    apply (proj2 (refreshed_is_Some COL_REG_DATA rows _ _ (Some i) (iff_refl _))).
    by apply H.
Qed.

Lemma sparse_getValues_returns_iff_keys_witness :
  let w := example_world [example_item 7 70 "t7"] in
  sparse (example_context true) = true /\
  fst (CbModbusSparseDataBlock.getValues (example_context true) 7 1
         (example_sparse_block, w)) = Ok [70] /\
  is_ok (fst (CbModbusSparseDataBlock.getValues (example_context true) 7 3
                (example_sparse_block, w))) = false.
Proof.
  intros w. split; [reflexivity|].
  destruct (sparse_getValues_returns_iff_keys (example_context true) example_sparse_block
              w 7 1 eq_refl) as [Hr _].
  destruct (sparse_getValues_returns_iff_keys (example_context true) example_sparse_block
              w 7 3 eq_refl) as [_ Hiff].
  split; [rewrite Hr; reflexivity|].
  destruct (is_ok _) eqn:Hok; [|done].
  destruct (proj1 Hiff eq_refl 8) as [v Hv]; [lia|]. discriminate Hv.
Defined.

(** X4. The key sets of the cache and of the time stamps: a read in a sparse
    context adds no address to the cache, and keeps the two key sets equal
    when they were. *)
Theorem sparse_getValues_keeps_key_sets {B} (ctx : ClearBladeModbusProxySlaveContext B)
    (b : CbModbusSparseDataBlock.t) (w : World) (address count : Z) :
  sparse ctx = true ->
  let b' := fst (snd (CbModbusSparseDataBlock.getValues ctx address count (b, w))) in
  dom (CbModbusSparseDataBlock.values b') = dom (CbModbusSparseDataBlock.values b) /\
  (dom (CbModbusSparseDataBlock.timestamps b) = dom (CbModbusSparseDataBlock.values b) ->
   dom (CbModbusSparseDataBlock.timestamps b') = dom (CbModbusSparseDataBlock.values b')).
Proof.
  intros Hsp b1.
  destruct (sparse_getValues_run ctx b w address count Hsp) as (b' & Hrun & _ & Hv & Ht).
  subst b1. rewrite Hrun. cbn [fst snd].
  assert (Hdv : dom (CbModbusSparseDataBlock.values b') =
                dom (CbModbusSparseDataBlock.values b)).
  { apply set_eq. intros a. rewrite !elem_of_dom, Hv.
    apply refreshed_is_Some. done. }
  split; [done|]. intros Hdom. rewrite Hdv. apply set_eq. intros a.
  rewrite !elem_of_dom, Ht.
  assert (Hk : is_Some (CbModbusSparseDataBlock.values b !! a) <->
               is_Some (CbModbusSparseDataBlock.timestamps b !! a)).
  { by rewrite <- !elem_of_dom, Hdom. }
  by apply refreshed_is_Some.
Qed.

Lemma sparse_getValues_keeps_key_sets_witness :
  let w := example_world [example_item 5 50 "t5"; example_item 6 60 "t6"] in
  let b' := fst (snd (CbModbusSparseDataBlock.getValues (example_context true) 5 3
                        (example_sparse_block, w))) in
  sparse (example_context true) = true /\
  dom (CbModbusSparseDataBlock.values b') =
    dom (CbModbusSparseDataBlock.values example_sparse_block) /\
  dom (CbModbusSparseDataBlock.timestamps b') = dom (CbModbusSparseDataBlock.values b').
Proof.
  intros w b'. split; [reflexivity|].
  destruct (sparse_getValues_keeps_key_sets (example_context true) example_sparse_block
              w 5 3 eq_refl) as [Hv Ht].
  split; [exact Hv|]. apply Ht. reflexivity.
Defined.

(** *** Construction and timestamps of a sparse block *)

Lemma fold_insert_const {K V} `{Countable K} (v : V) (ks : list K) : forall (d : gmap K V) k,
  fold_left (fun ts addr => <[addr := v]> ts) ks d !! k =
  if decide (k ∈ ks) then Some v else d !! k.
Proof.
  induction ks as [|x ks IH]; intros d k; cbn [fold_left].
  - rewrite decide_False; [done|apply not_elem_of_nil].
  - rewrite IH. destruct (decide (k ∈ ks)) as [Hin|Hin].
    + rewrite decide_True; [done|]. apply elem_of_cons; auto.
    + destruct (decide (k = x)) as [->|Hne].
      * rewrite decide_True by (apply elem_of_cons; auto). apply lookup_insert_eq.
      * rewrite decide_False by (rewrite elem_of_cons; intros [?|?]; done).
        by apply lookup_insert_ne.
Qed.

(** The constructor loop in closed form. *)
Lemma sparse_init_run (rt : string) (vs : gmap (option Z) Z) :
  CbModbusSparseDataBlock.__init__ rt vs =
    if str_in rt REGISTER_TYPES
    then Ok {| CbModbusSparseDataBlock.values := vs;
               CbModbusSparseDataBlock.register_type := rt;
               CbModbusSparseDataBlock.timestamps := (fun _ => None) <$> vs |}
    else Raise ParameterException.
Proof.
  unfold CbModbusSparseDataBlock.__init__, CbModbusSparseDataBlock.super__init__.
  destruct (str_in rt REGISTER_TYPES); [|done]. do 2 f_equal.
  apply map_eq. intros k. rewrite fold_insert_const, lookup_fmap, lookup_empty.
  destruct (vs !! k) as [v|] eqn:Hk; cbn.
  - rewrite decide_True; [done|]. apply list_elem_of_fmap. exists (k, v).
    split; [done|]. by apply elem_of_map_to_list.
  - rewrite decide_False; [done|]. intros Hin.
    apply list_elem_of_fmap in Hin as ([k' v] & -> & Hin).
    apply elem_of_map_to_list in Hin. cbn in Hk. congruence.
Qed.

Lemma sparse_get_timestamps_run (b : CbModbusSparseDataBlock.t) (w : World)
    (address count : Z) :
  CbModbusSparseDataBlock.get_timestamps address count (b, w) =
    (lookup_all (fun i => CbModbusSparseDataBlock.timestamps b !! Some i)
                (py_range address (address + count)), (b, w)).
Proof.
  apply list_comp_lookup. intros k.
  unfold bind, CbModbusSparseDataBlock.self. cbn [fst].
  by destruct (_ !! Some k).
Qed.

Lemma lookup_all_ok {A V} (g : A -> option V) (f : A -> V) xs :
  (forall x, x ∈ xs -> g x = Some (f x)) -> lookup_all g xs = Ok (map f xs).
Proof.
  intros Hg. unfold lookup_all.
  assert (Hm : mapM g xs = Some (map f xs)); [|by rewrite Hm].
  apply mapM_Some. induction xs as [|x xs IH]; [constructor|].
  cbn. constructor.
  - apply Hg, elem_of_cons; auto.
  - apply IH. intros y Hy. apply Hg, elem_of_cons; auto.
Qed.

Lemma lookup_all_raises {A V} (g : A -> option V) xs x :
  x ∈ xs -> g x = None -> lookup_all g xs = Raise KeyError.
Proof.
  intros Hin Hx. unfold lookup_all.
  destruct (mapM g xs) as [vs|] eqn:Hm; [|done].
  apply mapM_Some in Hm. apply list_elem_of_lookup_1 in Hin as [i Hi].
  destruct (Forall2_lookup_l _ _ _ _ _ Hm Hi) as (y & _ & Hy). congruence.
Qed.

(** X5. A new sparse block stores the mapping and the register type it was
    given and has one time stamp entry per address of the mapping, unset;
    [get_timestamps] on it returns one unset entry per address when every
    address of the range is in the mapping and raises [KeyError] otherwise,
    and changes nothing. *)
Theorem sparse_new_block_timestamps_unset (rt : string) (vs : gmap (option Z) Z)
    (b : CbModbusSparseDataBlock.t) (w : World) (address count : Z) :
  CbModbusSparseDataBlock.__init__ rt vs = Ok b ->
  CbModbusSparseDataBlock.values b = vs /\
  CbModbusSparseDataBlock.register_type b = rt /\
  CbModbusSparseDataBlock.timestamps b = (fun _ => None) <$> vs /\
  CbModbusSparseDataBlock.get_timestamps address count (b, w) =
    (if bool_decide (Forall (fun i => is_Some (vs !! Some i))
                            (py_range address (address + count)))
     then Ok (map (fun _ => None) (py_range address (address + count)))
     else Raise KeyError, (b, w)).
Proof.
  rewrite sparse_init_run. destruct (str_in rt REGISTER_TYPES); [|done].
  intros [= <-]. repeat split. rewrite sparse_get_timestamps_run. cbn. f_equal.
  case_bool_decide as Hall.
  - apply lookup_all_ok. intros i Hi. rewrite Forall_forall in Hall.
    destruct (Hall i Hi) as [v Hv]. by rewrite lookup_fmap, Hv.
  - apply not_Forall_Exists in Hall; [|intros i; apply _].
    apply Exists_exists in Hall as (i & Hi & Hnone).
    apply (lookup_all_raises _ _ i); [done|].
    rewrite lookup_fmap. destruct (vs !! Some i) eqn:E; [|done].
    exfalso. apply Hnone. eauto.
Qed.

Lemma sparse_new_block_timestamps_unset_witness :
  let vs : gmap (option Z) Z := {[ Some 5 := 0; Some 6 := 0; Some 9 := 0 ]} in
  exists b,
    CbModbusSparseDataBlock.__init__ "hr" vs = Ok b /\
    fst (CbModbusSparseDataBlock.get_timestamps 5 2 (b, example_world [])) = Ok [None; None] /\
    fst (CbModbusSparseDataBlock.get_timestamps 5 3 (b, example_world [])) = Raise KeyError.
Proof.
  intros vs.
  destruct (CbModbusSparseDataBlock.__init__ "hr" vs) as [b|e] eqn:Hb; [|discriminate Hb].
  exists b. split; [reflexivity|].
  destruct (sparse_new_block_timestamps_unset "hr" vs b (example_world []) 5 2 Hb)
    as (_ & _ & _ & H2).
  destruct (sparse_new_block_timestamps_unset "hr" vs b (example_world []) 5 3 Hb)
    as (_ & _ & _ & H3).
  rewrite H2, H3. split; reflexivity.
Defined.

(** *** Writes through a sparse block *)

Lemma py_range_cons a b : a < b -> py_range a b = a :: py_range (a + 1) b.
Proof.
  intros Hlt. unfold py_range.
  replace (Z.to_nat (b - a)) with (S (Z.to_nat (b - (a + 1)))) by lia.
  cbn [seq map]. f_equal; [lia|].
  rewrite <- seq_shift, map_map. apply map_ext. intros k. lia.
Qed.

Lemma written_nil address k : written address [] k = None.
Proof.
  unfold written, len. cbn [List.length].
  destruct (Z.leb_spec address k), (Z.ltb_spec k (address + Z.of_nat 0)); cbn [andb];
    try done; lia.
Qed.

Lemma written_cons address v l k :
  written address (v :: l) k =
  match written (address + 1) l k with
  | Some x => Some x
  | None => if decide (k = address) then Some v else None
  end.
Proof.
  unfold written, len. cbn [List.length].
  destruct (Z.leb_spec (address + 1) k), (Z.ltb_spec k (address + 1 + Z.of_nat (List.length l)));
    cbn [andb].
  - rewrite (proj2 (Z.leb_le address k)) by lia.
    rewrite (proj2 (Z.ltb_lt k (address + Z.of_nat (S (List.length l))))) by lia. cbn [andb].
    replace (Z.to_nat (k - address)) with (S (Z.to_nat (k - (address + 1)))) by lia.
    cbn. destruct (l !! _) eqn:E; [done|].
    apply lookup_ge_None in E. lia.
  - destruct (Z.leb_spec address k), (Z.ltb_spec k (address + Z.of_nat (S (List.length l))));
      cbn [andb]; try lia; destruct (decide (k = address)); try done; lia.
  - destruct (decide (k = address)) as [->|Hne].
    + rewrite Z.leb_refl. rewrite (proj2 (Z.ltb_lt _ _)) by lia. cbn.
      by rewrite Z.sub_diag.
    + rewrite (proj2 (Z.leb_gt address k)) by lia. done.
  - lia.
Qed.

Lemma matches_set_data q v it : matches q (set_data v it) = matches q it.
Proof.
  unfold matches. induction q as [|c q IH]; [done|].
  cbn [forallb]. rewrite IH. by destruct c.
Qed.

Lemma matches_app q1 q2 it : matches (q1 ++ q2) it = matches q1 it && matches q2 it.
Proof. apply forallb_app. Qed.

Section sparse_writes.
Context {B : Type} (ctx : ClearBladeModbusProxySlaveContext B) (rt : string).

(** The [enumerate] loop, from position [o] of the list. *)
Lemma sparse_write_loop l : forall address o b w,
  exists b',
    for_each (fun '(idx, val) =>
                on_fst (modify (fun b =>
                  CbModbusSparseDataBlock.with_values b
                    (<[Some (address + idx) := val]> (CbModbusSparseDataBlock.values b)))) ;;;
                on_snd (write_collection_data ctx rt (address + idx) val))
             (zip (py_range o (o + len l)) l) (b, w) =
      (Ok tt,
       (b', {| collection := map (updated_row (data_query ctx rt) (address + o) l)
                                 (collection w);
               calls := calls w ++
                        imap (fun i v => UpdateItems
                                (write_query ctx rt (address + o + Z.of_nat i)) v) l;
               log := log w |})) /\
    CbModbusSparseDataBlock.register_type b' = CbModbusSparseDataBlock.register_type b /\
    CbModbusSparseDataBlock.timestamps b' = CbModbusSparseDataBlock.timestamps b /\
    (forall a, CbModbusSparseDataBlock.values b' !! a =
               match a with
               | Some k => match written (address + o) l k with
                           | Some v => Some v
                           | None => CbModbusSparseDataBlock.values b !! a
                           end
               | None => CbModbusSparseDataBlock.values b !! a
               end).
Proof.
  induction l as [|v l IH]; intros address o b w.
  - unfold len. cbn. rewrite Z.add_0_r, py_range_nil by lia. cbn.
    exists b. split; [|split; [done|split; [done|]]].
    + unfold ret. destruct w as [c cl lg]. cbn. f_equal. f_equal. f_equal.
      * rewrite <- (map_id c) at 1. apply map_ext. intros it.
        unfold updated_row. rewrite written_nil. by destruct (matches _ it).
      * by rewrite app_nil_r.
    + intros [k|]; [|done]. by rewrite written_nil.
  - assert (Hl : len (v :: l) = 1 + len l) by (unfold len; cbn [List.length]; lia).
    rewrite Hl, py_range_cons by (unfold len; lia).
    replace (o + (1 + len l)) with (o + 1 + len l) by lia.
    cbn [zip zip_with for_each].
    unfold bind at 1. unfold bind at 1, on_fst at 1, modify at 1. cbn [fst snd].
    unfold on_snd at 1, write_collection_data at 1, updateItems at 1, modify at 1.
    cbn [fst snd].
    match goal with
    | |- context [for_each _ _ (?b1, ?w1)] =>
        destruct (IH address (o + 1) b1 w1) as (b' & -> & Hr & Hts & Hvs)
    end.
    exists b'. split; [|split; [done|split; [done|]]].
    + cbn [collection calls log]. f_equal. f_equal. f_equal.
      * rewrite map_map. apply map_ext. intros it.
        unfold updated_row. fold (write_query ctx rt (address + o)).
        unfold write_query. rewrite matches_app.
        replace (address + (o + 1)) with (address + o + 1) by lia.
        rewrite written_cons.
        destruct (matches (data_query ctx rt) it) eqn:Hm; cbn [andb].
        -- change (matches [equalTo_register_address (address + o)] it)
             with ((COL_REG_ADDRESS it =? address + o) && true).
           rewrite andb_true_r.
           destruct (Z.eqb_spec (COL_REG_ADDRESS it) (address + o)) as [He|He].
           ++ rewrite matches_set_data, Hm. cbn [set_data COL_REG_ADDRESS].
              rewrite decide_True by done.
              destruct (written _ l _); [|done]. by destruct it.
           ++ rewrite Hm. rewrite decide_False by done. by destruct (written _ l _).
        -- by rewrite Hm.
      * rewrite <- app_assoc. f_equal. cbn [imap app]. unfold write_query. f_equal.
        -- by rewrite Z.add_0_r.
        -- apply imap_ext. intros i x _. cbn.
           by replace (address + (o + 1) + Z.of_nat i) with (address + o + Z.of_nat (S i))
             by lia.
    + intros [k|]; rewrite Hvs; [|cbn; by rewrite lookup_insert_ne].
      replace (address + (o + 1)) with (address + o + 1) by lia.
      rewrite written_cons. destruct (written _ l k); [done|]. cbn.
      destruct (decide (k = address + o)) as [->|Hne].
      * apply lookup_insert_eq.
      * apply lookup_insert_ne. congruence.
Qed.
End sparse_writes.

(** [setValues] of a sparse block, unrolled. *)
Lemma sparse_setValues_run {B} (ctx : ClearBladeModbusProxySlaveContext B)
    (b : CbModbusSparseDataBlock.t) (w : World) (address : Z)
    (values : CbModbusSequentialDataBlock.int_or_list) :
  let rt := CbModbusSparseDataBlock.register_type b in
  let l := seq_values values in
  exists b',
    CbModbusSparseDataBlock.setValues ctx address values (b, w) =
      (Ok tt,
       (b', {| collection := map (updated_row (data_query ctx rt) address l) (collection w);
               calls := calls w ++
                        imap (fun i v => UpdateItems
                                (write_query ctx rt (address + Z.of_nat i)) v) l;
               log := log w |})) /\
    CbModbusSparseDataBlock.register_type b' = rt /\
    CbModbusSparseDataBlock.timestamps b' = CbModbusSparseDataBlock.timestamps b /\
    (forall k, CbModbusSparseDataBlock.values b' !! Some k =
               match written address l k with
               | Some v => Some v
               | None => CbModbusSparseDataBlock.values b !! Some k
               end) /\
    CbModbusSparseDataBlock.values b' !! None = CbModbusSparseDataBlock.values b !! None.
Proof.
  intros rt l. unfold CbModbusSparseDataBlock.setValues.
  unfold bind at 1, CbModbusSparseDataBlock.self at 1. cbn [fst].
  fold (seq_values values). fold l. fold rt.
  destruct (sparse_write_loop ctx rt l address 0 b w) as (b' & Hrun & Hr & Hts & Hvs).
  rewrite Z.add_0_l in Hrun. rewrite Hrun. exists b'.
  split; [|split; [done|split; [done|split]]].
  - by rewrite Z.add_0_r.
  - intros k. rewrite (Hvs (Some k)), Z.add_0_r. done.
  - apply (Hvs None).
Qed.

(** X6. [setValues] on a sparse block with a value or a list never raises:
    the cache takes every value, position [i] at address [address + i]
    (creating the addresses it lacks); one update per value is sent, in
    order; the rows of this slave and register type whose address is in the
    written range take the values, no other row changes and none is created;
    the time stamps and the log are left alone. *)
Theorem sparse_setValues_writes_every_value {B} (ctx : ClearBladeModbusProxySlaveContext B)
    (b : CbModbusSparseDataBlock.t) (w : World) (address : Z)
    (values : CbModbusSequentialDataBlock.int_or_list) :
  let rt := CbModbusSparseDataBlock.register_type b in
  let l := seq_values values in
  let r := CbModbusSparseDataBlock.setValues ctx address values (b, w) in
  fst r = Ok tt /\
  CbModbusSparseDataBlock.register_type (fst (snd r)) = rt /\
  CbModbusSparseDataBlock.timestamps (fst (snd r)) = CbModbusSparseDataBlock.timestamps b /\
  (forall k, CbModbusSparseDataBlock.values (fst (snd r)) !! Some k =
             match written address l k with
             | Some v => Some v
             | None => CbModbusSparseDataBlock.values b !! Some k
             end) /\
  CbModbusSparseDataBlock.values (fst (snd r)) !! None =
    CbModbusSparseDataBlock.values b !! None /\
  snd (snd r) =
    {| collection := map (updated_row (data_query ctx rt) address l) (collection w);
       calls := calls w ++
                imap (fun i v => UpdateItems (write_query ctx rt (address + Z.of_nat i)) v) l;
       log := log w |}.
Proof.
  intros rt l r.
  destruct (sparse_setValues_run ctx b w address values) as (b' & Hrun & H).
  subst r. rewrite Hrun. cbn [fst snd]. tauto.
Qed.

Lemma lookup_all_range {V} (g : Z -> option V) (l : list V) : forall a,
  (forall k, a <= k < a + len l -> g k = l !! Z.to_nat (k - a)) ->
  lookup_all g (py_range a (a + len l)) = Ok l.
Proof.
  unfold lookup_all. induction l as [|v l IH]; intros a Hg.
  - unfold len. cbn. rewrite py_range_nil by lia. done.
  - assert (Hl : len (v :: l) = 1 + len l) by (unfold len; cbn [List.length]; lia).
    assert (Hl0 : 0 <= len l) by (unfold len; lia).
    rewrite py_range_cons by lia. cbn.
    rewrite (Hg a) by lia. rewrite Z.sub_diag. cbn.
    replace (a + len (v :: l)) with (a + 1 + len l) by lia.
    assert (IH' := IH (a + 1)).
    destruct (mapM g (py_range (a + 1) (a + 1 + len l))) as [vs|]; cbn.
    + assert (Hvs : Ok vs = Ok l); [|by injection Hvs as ->].
      apply IH'. intros k Hk. rewrite Hg by lia.
      by replace (Z.to_nat (k - a)) with (S (Z.to_nat (k - (a + 1)))) by lia.
    + exfalso. assert (H : @Raise (list V) KeyError = Ok l); [|discriminate].
      apply IH'. intros k Hk. rewrite Hg by lia.
      by replace (Z.to_nat (k - a)) with (S (Z.to_nat (k - (a + 1)))) by lia.
Qed.

Lemma written_Some address l k :
  address <= k < address + len l -> is_Some (written address l k).
Proof.
  intros Hk. unfold written.
  rewrite (proj2 (Z.leb_le address k)), (proj2 (Z.ltb_lt k (address + len l))) by lia.
  cbn. apply lookup_lt_is_Some. unfold len in Hk. lia.
Qed.

Lemma written_lookup address l k :
  address <= k < address + len l -> written address l k = l !! Z.to_nat (k - address).
Proof.
  intros Hk. unfold written.
  by rewrite (proj2 (Z.leb_le address k)), (proj2 (Z.ltb_lt k (address + len l))) by lia.
Qed.

Lemma latest_row_elem rows k it :
  latest_row rows k = Some it -> it ∈ rows /\ COL_REG_ADDRESS it = k.
Proof.
  unfold latest_row. intros Hl. apply last_Some in Hl as [l' Hl'].
  assert (Hin : it ∈ filter (fun it => COL_REG_ADDRESS it = k) rows).
  { rewrite Hl'. apply elem_of_app. right. by apply list_elem_of_singleton. }
  by apply list_elem_of_filter in Hin as [? ?].
Qed.

(** X7. In a sparse context, what was written through a sparse block is what
    a read of the same range returns next, whatever the block and the store
    held: a row of the range holds the written value, and an address without
    a row is served from the cache. *)
Theorem sparse_setValues_getValues {B} (ctx : ClearBladeModbusProxySlaveContext B)
    (b : CbModbusSparseDataBlock.t) (w : World) (address : Z)
    (values : CbModbusSequentialDataBlock.int_or_list) :
  sparse ctx = true ->
  fst ((CbModbusSparseDataBlock.setValues ctx address values ;;;
        CbModbusSparseDataBlock.getValues ctx address (len (seq_values values))) (b, w))
  = Ok (seq_values values).
Proof.
  intros Hsp. set (l := seq_values values).
  destruct (sparse_setValues_run ctx b w address values)
    as (b1 & Hset & Hr1 & _ & Hv1 & _).
  fold l in Hset, Hv1.
  unfold bind. rewrite Hset.
  match goal with
  | |- context [CbModbusSparseDataBlock.getValues _ _ _ (_, ?w1)] => set (w1' := w1)
  end.
  destruct (sparse_getValues_run ctx b1 w1' address (len l) Hsp)
    as (b2 & -> & _ & Hv2 & _).
  cbn [fst]. apply lookup_all_range. intros k Hk.
  rewrite Hv2. unfold refreshed. rewrite Hv1.
  destruct (written_Some address l k Hk) as [v Hv]. rewrite Hv.
  rewrite <- (written_lookup address l k Hk), Hv.
  destruct (latest_row _ k) as [it|] eqn:Hlast; [|done].
  apply latest_row_elem in Hlast as [Hin Haddr].
  unfold returned_rows in Hin. apply list_elem_of_filter in Hin as [Hm Hin].
  subst w1'. cbn [collection] in Hin.
  apply list_elem_of_fmap in Hin as (it0 & -> & _).
  unfold read_query in Hm. rewrite matches_app in Hm.
  apply andb_true_iff in Hm as [Hm _]. rewrite Hr1 in Hm.
  revert Hm Haddr. unfold updated_row.
  destruct (matches _ it0) eqn:Hm0.
  - destruct (written address l (COL_REG_ADDRESS it0)) as [v0|] eqn:Hw0.
    + intros _ Ha. cbn in Ha. rewrite Ha in Hw0. cbn. congruence.
    + intros _ Ha. rewrite Ha in Hw0. congruence.
  - congruence.
Qed.

Lemma sparse_setValues_getValues_witness :
  let w := example_world [example_item 5 50 "t5"] in
  sparse (example_context true) = true /\
  fst ((CbModbusSparseDataBlock.setValues (example_context true) 5
          (CbModbusSequentialDataBlock.Sequence [7; 8]) ;;;
        CbModbusSparseDataBlock.getValues (example_context true) 5 2)
         (example_sparse_block, w)) = Ok [7; 8].
Proof.
  intros w. split; [reflexivity|].
  apply (sparse_setValues_getValues (example_context true) example_sparse_block w 5
           (CbModbusSequentialDataBlock.Sequence [7; 8])).
  reflexivity.
Defined.

(** X8. A write to an address that has no time stamp entry leaves it without
    one: the value is in the cache afterwards, and [get_timestamps] for that
    address raises [KeyError]. *)
Theorem sparse_setValues_leaves_timestamps {B} (ctx : ClearBladeModbusProxySlaveContext B)
    (b : CbModbusSparseDataBlock.t) (w : World) (address v : Z) :
  CbModbusSparseDataBlock.timestamps b !! Some address = None ->
  let s' := snd (CbModbusSparseDataBlock.setValues ctx address
                   (CbModbusSequentialDataBlock.Single v) (b, w)) in
  CbModbusSparseDataBlock.values (fst s') !! Some address = Some v /\
  fst (CbModbusSparseDataBlock.get_timestamps address 1 s') = Raise KeyError.
Proof.
  intros Hts s'.
  destruct (sparse_setValues_run ctx b w address (CbModbusSequentialDataBlock.Single v))
    as (b' & Hrun & _ & Ht & Hv & _).
  subst s'. rewrite Hrun. cbn [fst snd]. split.
  - rewrite Hv. cbn [seq_values]. unfold written, len. cbn [List.length].
    rewrite Z.leb_refl, (proj2 (Z.ltb_lt _ _)) by lia. cbn. by rewrite Z.sub_diag.
  - rewrite sparse_get_timestamps_run. cbn [fst].
    apply (lookup_all_raises _ _ address); [apply elem_of_py_range; lia|].
    by rewrite Ht.
Qed.

Lemma sparse_setValues_leaves_timestamps_witness :
  let s' := snd (CbModbusSparseDataBlock.setValues (example_context true) 6
                   (CbModbusSequentialDataBlock.Single 7)
                   (example_sparse_block, example_world [])) in
  CbModbusSparseDataBlock.timestamps example_sparse_block !! Some 6 = None /\
  CbModbusSparseDataBlock.values (fst s') !! Some 6 = Some 7 /\
  fst (CbModbusSparseDataBlock.get_timestamps 6 1 s') = Raise KeyError.
Proof.
  intros s'. split; [reflexivity|].
  apply (sparse_setValues_leaves_timestamps (example_context true) example_sparse_block
           (example_world []) 6 7).
  reflexivity.
Defined.

(** *** The bridge read of a sequential context, when it returns *)

Lemma py_getitem_lookup {A} (l : list A) i x :
  0 <= i -> l !! Z.to_nat i = Some x -> py_getitem l i = Ok x.
Proof.
  intros Hi Hx. unfold py_getitem, py_index.
  apply lookup_lt_Some in Hx as Hlt.
  rewrite (proj2 (Z.leb_le 0 i)), (proj2 (Z.ltb_lt i (len l))) by (unfold len; lia).
  by rewrite Hx.
Qed.

Lemma read_loop_returns rt fill (rl : list item) xs : forall vs ts w,
  Forall (fun x => 0 <= x /\ exists it, rl !! Z.to_nat x = Some it /\ COL_REG_ADDRESS it = x) xs ->
  for_fold (read_step rt fill) xs (map Row rl, vs, ts) w =
    (Ok (map Row rl,
         vs ++ omap (fun x => COL_REG_DATA <$> rl !! Z.to_nat x) xs,
         ts ++ omap (fun x => COL_DATA_TIMESTAMP <$> rl !! Z.to_nat x) xs), w).
Proof.
  induction xs as [|x xs IH]; intros vs ts w Hall; cbn [for_fold omap].
  - unfold ret. by rewrite !app_nil_r.
  - inversion Hall as [|? ? (Hx & it & Hit & Ha) Hxs]; subst.
    unfold bind at 1, read_step at 1, bind, lift.
    assert (Hget : py_getitem (map Row rl) (COL_REG_ADDRESS it) = Ok (Row it)).
    { apply py_getitem_lookup; [done|]. by rewrite list_lookup_fmap, Hit. }
    rewrite Hget. cbn. rewrite Z.eqb_refl. cbn. rewrite Hget. cbn.
    rewrite IH by done. rewrite Hit. cbn. by rewrite <- !app_assoc.
Qed.

Lemma py_range_seq a b :
  0 <= a -> py_range a b = map Z.of_nat (seq (Z.to_nat a) (Z.to_nat (b - a))).
Proof.
  intros Ha. unfold py_range.
  replace (seq (Z.to_nat a) (Z.to_nat (b - a)))
    with (Nat.add (Z.to_nat a) <$> seq 0 (Z.to_nat (b - a)))
    by (rewrite fmap_add_seq; f_equal; lia).
  change (fmap ?f ?l) with (map f l). rewrite map_map.
  apply map_ext. intros k. lia.
Qed.

Lemma omap_lookup_seq {A B} (f : A -> B) (l : list A) (n : nat) : forall a : nat,
  (a + n <= List.length l)%nat ->
  omap (fun x => f <$> l !! Z.to_nat x) (map Z.of_nat (seq a n)) = map f (take n (drop a l)).
Proof.
  induction n as [|n IH]; intros a Hlen; [done|].
  change (seq a (S n)) with (a :: seq (S a) n). cbn. rewrite Nat2Z.id.
  destruct (l !! a) as [x|] eqn:Hx; [|apply lookup_ge_None in Hx; lia].
  cbn. rewrite (drop_S l x a Hx). cbn [take map]. f_equal. apply IH. lia.
Qed.

Lemma omap_lookup_range {A B} (f : A -> B) (l : list A) (address count : Z) :
  0 <= address ->
  (forall x, address <= x < address + count -> is_Some (l !! Z.to_nat x)) ->
  omap (fun x => f <$> l !! Z.to_nat x) (py_range address (address + count)) =
  map f (take (Z.to_nat count) (drop (Z.to_nat address) l)).
Proof.
  intros Ha Hall. destruct (Z.le_gt_cases count 0) as [Hc|Hc].
  - rewrite py_range_nil by lia. by replace (Z.to_nat count) with 0%nat by lia.
  - assert (Hlen : address + count <= len l).
    { destruct (Hall (address + count - 1)) as [x Hx]; [lia|].
      apply lookup_lt_Some in Hx. unfold len. lia. }
    rewrite py_range_seq by done.
    replace (address + count - address) with count by lia.
    apply omap_lookup_seq. unfold len in Hlen. lia.
Qed.

(** The sequential read returns when the rows are in place. *)
Lemma read_sequential_run {B} (ctx : ClearBladeModbusProxySlaveContext B)
    (rt : string) (address count : Z) (fill : option Z) (w : World) :
  sparse ctx = false -> 0 <= address ->
  let rl := sorted_by_key COL_REG_ADDRESS (returned_rows ctx rt address count w) in
  let its := take (Z.to_nat count) (drop (Z.to_nat address) rl) in
  (forall x, address <= x < address + count ->
     exists it, rl !! Z.to_nat x = Some it /\ COL_REG_ADDRESS it = x) ->
  read_collection_data ctx rt address count fill w =
    (Ok (PyList (map COL_REG_DATA its), PyList (map COL_DATA_TIMESTAMP its)),
     {| collection := collection w;
        calls := calls w ++ [GetItems (read_query ctx rt address count)];
        log := log w ++ (if len rl =? count then []
                         else [(WARNING, GotRowsExpecting (len rl) count)]) |}).
Proof.
  intros Hsp Ha rl its Hall. unfold read_collection_data, bind at 1, getItems at 1.
  fold (returned_rows ctx rt address count w). fold rl. rewrite Hsp.
  unfold bind at 1.
  set (w2 := {| collection := collection w;
       calls := calls w ++ [GetItems (read_query ctx rt address count)];
       log := log w ++ (if len rl =? count then []
                        else [(WARNING, GotRowsExpecting (len rl) count)]) |}).
  assert (Hlog : forall w1, w1 = {| collection := collection w;
       calls := calls w ++ [GetItems (read_query ctx rt address count)]; log := log w |} ->
     (if negb (len rl =? count)
      then log_msg WARNING (GotRowsExpecting (len rl) count) else ret tt) w1 = (Ok tt, w2)).
  { intros w1 ->. unfold w2. destruct (len rl =? count); cbn; [|done].
    unfold ret. by rewrite app_nil_r. }
  rewrite (Hlog _ eq_refl). unfold bind at 1.
  rewrite read_loop_returns.
  2:{ apply Forall_forall. intros x Hx%elem_of_py_range. split; [lia|]. by apply Hall. }
  cbn. unfold ret. rewrite !omap_lookup_range; try done.
  all: intros x Hx; destruct (Hall x Hx) as (it & -> & _); eauto.
Qed.

(** The sequential read returns only when the rows are in place. *)
Lemma read_sequential_ok {B} (ctx : ClearBladeModbusProxySlaveContext B)
    (rt : string) (address count : Z) (fill : option Z) (w : World) :
  sparse ctx = false -> 0 <= address ->
  is_ok (fst (read_collection_data ctx rt address count fill w)) = true ->
  forall x, address <= x < address + count ->
    exists it, sorted_by_key COL_REG_ADDRESS (returned_rows ctx rt address count w)
                 !! Z.to_nat x = Some it /\ COL_REG_ADDRESS it = x.
Proof.
  intros Hsp Ha Hok.
  set (rl := sorted_by_key COL_REG_ADDRESS (returned_rows ctx rt address count w)).
  destruct (read_collection_data ctx rt address count fill w) as [[r|e] w'] eqn:H;
    [|discriminate].
  unfold read_collection_data, bind, getItems in H.
  fold (returned_rows ctx rt address count w) in H. fold rl in H. rewrite Hsp in H.
  assert (Hloop : exists w2 rl' vs ts w3,
    for_fold (read_step rt fill) (py_range address (address + count))
             (map Row rl, [], []) w2 = (Ok (rl', vs, ts), w3)).
  { unfold log_msg, modify, ret in H.
    destruct (negb (len rl =? count)); cbn in H;
    match type of H with
    | context [for_fold ?f ?xs ?acc ?w2] =>
        destruct (for_fold f xs acc w2) as [[[[rl' vs] ts]|e] w3] eqn:Hloop;
        [|discriminate]; eauto 10
    end. }
  destruct Hloop as (w2 & rl' & vs & ts & w3 & Hloop).
  apply read_loop_ok in Hloop.
  2:{ apply Forall_forall. intros y Hy%elem_of_py_range. lia. }
  rewrite Forall_forall in Hloop. intros x Hx.
  destruct (Hloop x) as (it & Hget & Hit); [by apply elem_of_py_range|].
  apply py_getitem_ok_nonneg in Hget as [Hlt Hlk]; [|lia].
  rewrite list_lookup_fmap in Hlk.
  destruct (rl !! Z.to_nat x) as [it'|] eqn:E; [|discriminate].
  injection Hlk as ->. eauto.
Qed.

(** X9. In a sequential context a bridge read from an address that is not
    negative returns exactly when the sorted result set has, at every
    subscript of the requested range (the absolute address, not the offset
    in the range), the row of that address.  It then returns the data and
    the time stamps of the [count] rows from subscript [address], with one
    query, and nothing is filled. *)
Theorem sequential_read_returns_iff_rows_in_place {B}
    (ctx : ClearBladeModbusProxySlaveContext B) (rt : string) (address count : Z)
    (fill : option Z) (w : World) :
  sparse ctx = false -> 0 <= address ->
  let rl := sorted_by_key COL_REG_ADDRESS (returned_rows ctx rt address count w) in
  let its := take (Z.to_nat count) (drop (Z.to_nat address) rl) in
  (is_ok (fst (read_collection_data ctx rt address count fill w)) = true <->
   forall x, address <= x < address + count ->
     exists it, rl !! Z.to_nat x = Some it /\ COL_REG_ADDRESS it = x) /\
  (is_ok (fst (read_collection_data ctx rt address count fill w)) = true ->
   read_collection_data ctx rt address count fill w =
     (Ok (PyList (map COL_REG_DATA its), PyList (map COL_DATA_TIMESTAMP its)),
      {| collection := collection w;
         calls := calls w ++ [GetItems (read_query ctx rt address count)];
         log := log w ++ (if len rl =? count then []
                          else [(WARNING, GotRowsExpecting (len rl) count)]) |})).
Proof.
  intros Hsp Ha rl its. split; [split|].
  - by apply (read_sequential_ok ctx rt address count fill w).
  - intros Hall. by rewrite (read_sequential_run ctx rt address count fill w Hsp Ha Hall).
  - intros Hok. apply read_sequential_run; [done..|].
    by apply (read_sequential_ok ctx rt address count fill w).
Qed.

Lemma sequential_read_returns_iff_rows_in_place_witness :
  let w0 := example_world [example_item 1 11 "t1"; example_item 0 10 "t0";
                           example_item 2 12 "t2"] in
  let w5 := example_world [example_item 5 10 "t5"; example_item 6 11 "t6"] in
  sparse (example_context false) = false /\ 0 <= 0 /\ 0 <= 5 /\
  fst (read_collection_data (example_context false) "hr" 0 3 (Some 0) w0) =
    Ok (PyList [10; 11; 12],
        PyList [Some "t0"%string; Some "t1"%string; Some "t2"%string]) /\
  is_ok (fst (read_collection_data (example_context false) "hr" 5 2 (Some 0) w5)) = false.
Proof.
  intros w0 w5. split; [reflexivity|]. split; [lia|]. split; [lia|].
  destruct (sequential_read_returns_iff_rows_in_place (example_context false) "hr" 0 3
              (Some 0) w0 eq_refl (Z.le_refl 0)) as [_ Hread].
  destruct (sequential_read_returns_iff_rows_in_place (example_context false) "hr" 5 2
              (Some 0) w5 eq_refl) as [[Hnec _] _]; [lia|].
  split.
  - rewrite Hread; reflexivity.
  - destruct (is_ok (fst (read_collection_data (example_context false) "hr" 5 2
                              (Some 0) w5))) eqn:Hok; [|done].
    destruct (Hnec eq_refl 5) as (it & Hit & _); [lia|]. discriminate Hit.
Defined.

(** *** Reads through a sequential block *)

Lemma py_getitem_nonneg {A} (l : list A) i :
  0 <= i ->
  py_getitem l i = match l !! Z.to_nat i with Some x => Ok x | None => Raise IndexError end.
Proof.
  intros Hi. unfold py_getitem, py_index. rewrite (proj2 (Z.leb_le 0 i)) by done.
  destruct (Z.ltb_spec i (len l)) as [Hlt|Hge]; [done|].
  rewrite (proj2 (lookup_ge_None l (Z.to_nat i))); [done|]. unfold len in Hge. lia.
Qed.

Lemma py_setitem_nonneg {A} (l : list A) i x :
  0 <= i ->
  py_setitem l i x = if i <? len l then Ok (<[Z.to_nat i := x]> l) else Raise IndexError.
Proof.
  intros Hi. unfold py_setitem, py_index. rewrite (proj2 (Z.leb_le 0 i)) by done.
  by destruct (i <? len l).
Qed.

Section sequential_merge.
Context (vs : list Z) (ts : list (option timestamp)).

(** One iteration of the merge loop of [getValues]. *)
Lemma seq_merge_step j i b w :
  0 <= i -> 0 <= j ->
  (v <- lift (c_getitem (PyList vs) j) ;;
   CbModbusSequentialDataBlock.set_value i v ;;;
   t <- lift (c_getitem (PyList ts) i) ;;
   CbModbusSequentialDataBlock.set_timestamp i t ;;;
   ret (j + 1)) (b, w) =
  match vs !! Z.to_nat j with
  | None => (Raise IndexError, (b, w))
  | Some v =>
      if i <? len (CbModbusSequentialDataBlock.values b) then
        let b1 := CbModbusSequentialDataBlock.with_values b
                    (<[Z.to_nat i := v]> (CbModbusSequentialDataBlock.values b)) in
        match ts !! Z.to_nat i with
        | None => (Raise IndexError, (b1, w))
        | Some t =>
            if i <? len (CbModbusSequentialDataBlock.timestamps b) then
              (Ok (j + 1),
               (CbModbusSequentialDataBlock.with_timestamps b1
                  (<[Z.to_nat i := t]> (CbModbusSequentialDataBlock.timestamps b)), w))
            else (Raise IndexError, (b1, w))
        end
      else (Raise IndexError, (b, w))
  end.
Proof.
  intros Hi Hj. unfold bind at 1, lift at 1. cbn [c_getitem].
  rewrite py_getitem_nonneg by done.
  destruct (vs !! Z.to_nat j) as [v|]; [|done].
  unfold bind at 1, CbModbusSequentialDataBlock.set_value at 1.
  unfold bind at 1, CbModbusSequentialDataBlock.self at 1. cbn [fst].
  unfold bind at 1, lift at 1. rewrite py_setitem_nonneg by done.
  destruct (i <? len (CbModbusSequentialDataBlock.values b)); [|done].
  unfold on_fst at 1, modify at 1. cbn [fst snd].
  unfold bind at 1, lift at 1. cbn [c_getitem]. rewrite py_getitem_nonneg by done.
  destruct (ts !! Z.to_nat i) as [t|]; [|done].
  unfold bind at 1, CbModbusSequentialDataBlock.set_timestamp at 1.
  unfold bind at 1, CbModbusSequentialDataBlock.self at 1. cbn [fst].
  unfold bind at 1, lift at 1. rewrite py_setitem_nonneg by done.
  cbn [CbModbusSequentialDataBlock.timestamps CbModbusSequentialDataBlock.with_values].
  destruct (i <? len (CbModbusSequentialDataBlock.timestamps b)); [|done].
  reflexivity.
Qed.

(** The loop returns only when every subscript it visits is inside the
    cache, the cached time stamps and the time stamps that were read. *)
Lemma seq_merge_loop_ok xs : forall j b w r s,
  Forall (fun x => 0 <= x) xs -> 0 <= j ->
  for_fold (fun j i =>
              v <- lift (c_getitem (PyList vs) j) ;;
              CbModbusSequentialDataBlock.set_value i v ;;;
              t <- lift (c_getitem (PyList ts) i) ;;
              CbModbusSequentialDataBlock.set_timestamp i t ;;;
              ret (j + 1)) xs j (b, w) = (Ok r, s) ->
  Forall (fun x => x < len (CbModbusSequentialDataBlock.values b) /\
                   x < len ts /\
                   x < len (CbModbusSequentialDataBlock.timestamps b)) xs.
Proof.
  induction xs as [|x xs IH]; intros j b w r s Hpos Hj H; [constructor|].
  inversion Hpos as [|? ? Hx Hxs]; subst.
  cbn [for_fold] in H. unfold bind at 1 in H. rewrite seq_merge_step in H by done.
  destruct (vs !! Z.to_nat j) as [v|]; [|discriminate].
  destruct (Z.ltb_spec x (len (CbModbusSequentialDataBlock.values b))); [|discriminate].
  cbn zeta in H.
  destruct (ts !! Z.to_nat x) as [t|] eqn:Ht; [|discriminate].
  destruct (Z.ltb_spec x (len (CbModbusSequentialDataBlock.timestamps b))); [|discriminate].
  apply IH in H; [|done|lia]. cbn in H.
  constructor.
  - split; [done|]. split; [|done]. apply lookup_lt_Some in Ht. unfold len. lia.
  - eapply Forall_impl; [exact H|]. intros y. cbn. unfold len. rewrite !length_insert. done.
Qed.

(** From subscript [o], with the read position equal to the subscript. *)
Lemma seq_merge_loop_returns (n : nat) : forall (o : nat) b w,
  (o + n <= List.length vs)%nat -> (o + n <= List.length ts)%nat ->
  (o + n <= List.length (CbModbusSequentialDataBlock.values b))%nat ->
  (o + n <= List.length (CbModbusSequentialDataBlock.timestamps b))%nat ->
  for_fold (fun j i =>
              v <- lift (c_getitem (PyList vs) j) ;;
              CbModbusSequentialDataBlock.set_value i v ;;;
              t <- lift (c_getitem (PyList ts) i) ;;
              CbModbusSequentialDataBlock.set_timestamp i t ;;;
              ret (j + 1)) (map Z.of_nat (seq o n)) (Z.of_nat o) (b, w) =
  (Ok (Z.of_nat (o + n)),
   ({| CbModbusSequentialDataBlock.address := CbModbusSequentialDataBlock.address b;
       CbModbusSequentialDataBlock.values :=
         take o (CbModbusSequentialDataBlock.values b) ++ take n (drop o vs) ++
         drop (o + n) (CbModbusSequentialDataBlock.values b);
       CbModbusSequentialDataBlock.register_type :=
         CbModbusSequentialDataBlock.register_type b;
       CbModbusSequentialDataBlock.timestamps :=
         take o (CbModbusSequentialDataBlock.timestamps b) ++ take n (drop o ts) ++
         drop (o + n) (CbModbusSequentialDataBlock.timestamps b) |}, w)).
Proof.
  induction n as [|n IH]; intros o b w Hvs Hts Hb Htb.
  - cbn [seq map for_fold take app]. unfold ret. rewrite Nat.add_0_r.
    change (take 0 (drop o vs)) with (@nil Z).
    change (take 0 (drop o ts)) with (@nil (option timestamp)).
    cbn [app]. rewrite !take_drop. by destruct b.
  - change (seq o (S n)) with (o :: seq (S o) n). cbn [map for_fold].
    unfold bind at 1. rewrite seq_merge_step by lia. rewrite Nat2Z.id.
    destruct (vs !! o) as [v|] eqn:Hv; [|apply lookup_ge_None in Hv; lia].
    destruct (ts !! o) as [t|] eqn:Ht; [|apply lookup_ge_None in Ht; lia].
    rewrite (proj2 (Z.ltb_lt _ _)) by (unfold len; lia).
    rewrite (proj2 (Z.ltb_lt _ _)) by (unfold len; lia).
    cbn zeta. replace (Z.of_nat o + 1) with (Z.of_nat (S o)) by lia.
    rewrite IH; cbn; rewrite ?length_insert; try lia.
    assert (Hmid : forall {A} (l new : list A) x, new !! o = Some x ->
              (o + S n <= List.length l)%nat ->
              take (S o) (<[o:=x]> l) ++ take n (drop (S o) new) ++ drop (S (o + n)) (<[o:=x]> l) =
              take o l ++ take (S n) (drop o new) ++ drop (o + S n) l).
    { intros A l new x Hx Hl.
      rewrite (take_S_r _ o x) by (apply list_lookup_insert_eq; lia).
      rewrite take_insert_ge by lia. rewrite drop_insert_lt by lia.
      rewrite (drop_S new x o Hx). cbn [take].
      replace (S (o + n))%nat with (o + S n)%nat by lia. by rewrite <- app_assoc. }
    rewrite (Hmid _ _ vs v Hv Hb), (Hmid _ _ ts t Ht Htb).
    by replace (S (o + n)) with (o + S n)%nat by lia.
Qed.
End sequential_merge.

(** X10. In a sequential context [getValues] on a sequential block returns
    only for a read from address 0 that stays inside the cache and inside the
    cached time stamps, whatever the base address of the block and whatever
    the store holds: the loop subscripts the cache, the cached time stamps
    and the time stamps just read by the absolute address. *)
Theorem seq_getValues_returns_only_from_zero {B} (ctx : ClearBladeModbusProxySlaveContext B)
    (b : CbModbusSequentialDataBlock.t) (w : World) (address count : Z) :
  sparse ctx = false -> 0 <= address -> 0 < count ->
  is_ok (fst (CbModbusSequentialDataBlock.getValues ctx address count (b, w))) = true ->
  address = 0 /\
  count <= len (CbModbusSequentialDataBlock.values b) /\
  count <= len (CbModbusSequentialDataBlock.timestamps b).
Proof.
  intros Hsp Ha Hc.
  pose proof (read_sequential_ok ctx (CbModbusSequentialDataBlock.register_type b)
                address count (Some 0) w Hsp Ha) as Hiff.
  pose proof (read_sequential_run ctx (CbModbusSequentialDataBlock.register_type b)
                address count (Some 0) w Hsp Ha) as Hread.
  cbn zeta in Hread.
  unfold CbModbusSequentialDataBlock.getValues, bind at 1.
  unfold CbModbusSequentialDataBlock.self at 1. cbn [fst snd].
  unfold bind at 1, on_snd at 1. cbn [fst snd].
  destruct (is_ok (fst (read_collection_data ctx _ address count (Some 0) w))) eqn:Hok.
  2:{ destruct (read_collection_data ctx _ address count (Some 0) w) as [[r|e] w'];
        [discriminate|]. cbn. discriminate. }
  specialize (Hiff eq_refl). rewrite (Hread Hiff). clear Hread.
  set (rl := sorted_by_key _ _) in *.
  set (its := take (Z.to_nat count) (drop (Z.to_nat address) rl)).
  assert (Hlen : List.length its = Z.to_nat count).
  { unfold its. rewrite length_take, length_drop.
    destruct (Hiff (address + count - 1)) as (it & Hit & _); [lia|].
    apply lookup_lt_Some in Hit. lia. }
  cbn [c_len]. unfold len at 1. rewrite length_map, Hlen.
  rewrite (proj2 (Z.eqb_eq _ _)) by lia. cbn [negb].
  unfold bind at 1, ret at 1. unfold bind at 1.
  match goal with
  | |- context [for_fold ?f ?xs ?j ?s] =>
      destruct (for_fold f xs j s) as [[r|e] s'] eqn:Hloop; [|cbn; discriminate]
  end.
  intros _. apply seq_merge_loop_ok in Hloop; [|apply Forall_forall|lia].
  2:{ intros x Hx%elem_of_py_range. lia. }
  rewrite Forall_forall in Hloop.
  destruct (Hloop (address + count - 1)) as (Hv & Ht & Hts); [apply elem_of_py_range; lia|].
  unfold len in Ht. rewrite length_map, Hlen in Ht. lia.
Qed.

Lemma seq_getValues_returns_only_from_zero_witness :
  let w := example_world [example_item 0 10 "t0"; example_item 1 11 "t1";
                          example_item 2 12 "t2"] in
  let r := CbModbusSequentialDataBlock.getValues (example_context false) 0 3
             (example_block 0 [1; 2; 3; 4], w) in
  sparse (example_context false) = false /\ 0 <= 0 /\ 0 < 3 /\
  is_ok (fst r) = true /\
  3 <= len (CbModbusSequentialDataBlock.timestamps (example_block 0 [1; 2; 3; 4])).
Proof.
  intros w r. split; [reflexivity|]. split; [lia|]. split; [lia|]. split; [reflexivity|].
  apply (seq_getValues_returns_only_from_zero (example_context false)
           (example_block 0 [1; 2; 3; 4]) w 0 3); [reflexivity|lia|lia|reflexivity].
Defined.

(** [getValues] from address 0 on a sequential block, unrolled. *)
Lemma seq_getValues_from_zero_run {B} (ctx : ClearBladeModbusProxySlaveContext B)
    (b : CbModbusSequentialDataBlock.t) (w : World) (count : Z) :
  let rt := CbModbusSequentialDataBlock.register_type b in
  let rl := sorted_by_key COL_REG_ADDRESS (returned_rows ctx rt 0 count w) in
  let its := take (Z.to_nat count) rl in
  let values' := map COL_REG_DATA its ++
                 drop (Z.to_nat count) (CbModbusSequentialDataBlock.values b) in
  let start := 0 - CbModbusSequentialDataBlock.address b in
  sparse ctx = false -> 0 <= count ->
  (forall x, 0 <= x < count -> exists it, rl !! Z.to_nat x = Some it /\ COL_REG_ADDRESS it = x) ->
  count <= len (CbModbusSequentialDataBlock.values b) ->
  count <= len (CbModbusSequentialDataBlock.timestamps b) ->
  CbModbusSequentialDataBlock.getValues ctx 0 count (b, w) =
    (Ok (py_getslice values' start (start + count)),
     ({| CbModbusSequentialDataBlock.address := CbModbusSequentialDataBlock.address b;
         CbModbusSequentialDataBlock.values := values';
         CbModbusSequentialDataBlock.register_type := rt;
         CbModbusSequentialDataBlock.timestamps :=
           map COL_DATA_TIMESTAMP its ++
           drop (Z.to_nat count) (CbModbusSequentialDataBlock.timestamps b) |},
      {| collection := collection w;
         calls := calls w ++ [GetItems (read_query ctx rt 0 count)];
         log := log w ++ (if len rl =? count then []
                          else [(WARNING, GotRowsExpecting (len rl) count)]) |})) /\
  (CbModbusSequentialDataBlock.address b = 0 ->
   py_getslice values' start (start + count) = map COL_REG_DATA its).
Proof.
  intros rt rl its values' start Hsp Hc Hall Hv Ht.
  pose proof (read_sequential_run ctx rt 0 count (Some 0) w Hsp (Z.le_refl 0)) as Hread.
  cbn zeta in Hread. fold rl in Hread.
  change (Z.to_nat 0) with 0%nat in Hread. rewrite drop_0 in Hread. fold its in Hread.
  specialize (Hread (fun x Hx => Hall x ltac:(lia))).
  assert (Hlen : List.length its = Z.to_nat count).
  { unfold its. rewrite length_take.
    destruct (Z.eq_dec count 0) as [->|Hne]; [done|].
    destruct (Hall (count - 1)) as (it & Hit & _); [lia|].
    apply lookup_lt_Some in Hit. lia. }
  split.
  - unfold CbModbusSequentialDataBlock.getValues, bind at 1.
    unfold CbModbusSequentialDataBlock.self at 1. cbn [fst snd].
    unfold bind at 1, on_snd at 1. cbn [fst snd]. fold rt. rewrite Hread.
    cbn [c_len]. unfold len at 1. rewrite length_map, Hlen.
    rewrite (proj2 (Z.eqb_eq _ _)) by lia. cbn [negb].
    unfold bind at 1, ret at 1. unfold bind at 1.
    rewrite py_range_seq by lia. change (Z.to_nat 0) with 0%nat.
    replace (0 + count - 0) with count by lia.
    unfold len in Hv, Ht.
    rewrite (seq_merge_loop_returns _ _ (Z.to_nat count) 0);
      rewrite ?length_map; try lia.
    unfold bind, CbModbusSequentialDataBlock.self, ret. cbn.
    rewrite !drop_0.
    rewrite (take_ge (map COL_REG_DATA its)), (take_ge (map COL_DATA_TIMESTAMP its))
      by (rewrite length_map; lia).
    reflexivity.
  - intros Hbase. unfold start. rewrite Hbase.
    replace (0 - 0 + count) with count by lia. change (0 - 0) with 0.
    unfold py_getslice, py_clamp. cbn [Z.ltb Z.compare].
    destruct (Z.ltb_spec count 0); [lia|].
    assert (Hl : len values' = len (CbModbusSequentialDataBlock.values b)).
    { unfold values', len in *. rewrite length_app, length_map, Hlen, length_drop. lia. }
    rewrite Hl, (Z.min_l 0), (Z.min_l count) by (unfold len in *; lia).
    change (Z.to_nat 0) with 0%nat. rewrite drop_0, Nat.sub_0_r.
    unfold values'. rewrite take_app_length'; [done|]. by rewrite length_map.
Qed.

(** X11. A read from address 0 that stays inside the cache and the cached
    time stamps and that the store serves in full (the sorted result set has
    the row of address [x] at subscript [x]): the first [count] entries of
    the cache and of the time stamps are replaced by what was read, and the
    slice [start:start+count] of the cache is returned, [start] being minus
    the base address; for a block based at 0 that is the data read. *)
Theorem seq_getValues_from_zero {B} (ctx : ClearBladeModbusProxySlaveContext B)
    (b : CbModbusSequentialDataBlock.t) (w : World) (count : Z) :
  let rt := CbModbusSequentialDataBlock.register_type b in
  let rl := sorted_by_key COL_REG_ADDRESS (returned_rows ctx rt 0 count w) in
  let its := take (Z.to_nat count) rl in
  let start := 0 - CbModbusSequentialDataBlock.address b in
  let r := CbModbusSequentialDataBlock.getValues ctx 0 count (b, w) in
  sparse ctx = false -> 0 <= count ->
  (forall x, 0 <= x < count -> exists it, rl !! Z.to_nat x = Some it /\ COL_REG_ADDRESS it = x) ->
  count <= len (CbModbusSequentialDataBlock.values b) ->
  count <= len (CbModbusSequentialDataBlock.timestamps b) ->
  CbModbusSequentialDataBlock.values (fst (snd r)) =
    map COL_REG_DATA its ++ drop (Z.to_nat count) (CbModbusSequentialDataBlock.values b) /\
  CbModbusSequentialDataBlock.timestamps (fst (snd r)) =
    map COL_DATA_TIMESTAMP its ++
    drop (Z.to_nat count) (CbModbusSequentialDataBlock.timestamps b) /\
  CbModbusSequentialDataBlock.address (fst (snd r)) = CbModbusSequentialDataBlock.address b /\
  fst r = Ok (py_getslice (CbModbusSequentialDataBlock.values (fst (snd r)))
                          start (start + count)) /\
  (CbModbusSequentialDataBlock.address b = 0 -> fst r = Ok (map COL_REG_DATA its)) /\
  calls (snd (snd r)) = calls w ++ [GetItems (read_query ctx rt 0 count)] /\
  collection (snd (snd r)) = collection w.
Proof.
  intros rt rl its start r Hsp Hc Hall Hv Ht.
  destruct (seq_getValues_from_zero_run ctx b w count Hsp Hc Hall Hv Ht) as [Hrun Hbase].
  subst r. rewrite Hrun. cbn [fst snd CbModbusSequentialDataBlock.values
    CbModbusSequentialDataBlock.timestamps CbModbusSequentialDataBlock.address
    calls collection].
  repeat split. intros H0. f_equal. by apply Hbase.
Qed.

Lemma seq_getValues_from_zero_witness :
  let w := example_world [example_item 1 11 "t1"; example_item 0 10 "t0"] in
  let b := example_block 0 [1; 2; 3; 4] in
  let r := CbModbusSequentialDataBlock.getValues (example_context false) 0 2 (b, w) in
  sparse (example_context false) = false /\ 0 <= 2 /\
  2 <= len (CbModbusSequentialDataBlock.values b) /\
  2 <= len (CbModbusSequentialDataBlock.timestamps b) /\
  fst r = Ok [10; 11] /\
  CbModbusSequentialDataBlock.values (fst (snd r)) = [10; 11; 3; 4].
Proof.
  intros w b r. split; [reflexivity|]. split; [lia|].
  split; [vm_compute; discriminate|]. split; [vm_compute; discriminate|].
  destruct (seq_getValues_from_zero (example_context false) b w 2)
    as (Hv & _ & _ & _ & Hbase & _).
  - reflexivity.
  - lia.
  - intros x Hx. assert (Hcase : x = 0 \/ x = 1) by lia.
    destruct Hcase as [->| ->]; eexists; split; reflexivity.
  - vm_compute. discriminate.
  - vm_compute. discriminate.
  - fold r in Hv, Hbase. rewrite Hv. split; [by apply Hbase|reflexivity].
Defined.

(** *** Writes through a sequential block *)

Lemma sent_nil address l lo hi k : hi <= lo -> sent address l lo hi k = None.
Proof.
  intros H. unfold sent.
  destruct (Z.leb_spec lo (k - address)), (Z.ltb_spec (k - address) hi); cbn [andb];
    try done; lia.
Qed.

Lemma sent_cons address l lo hi k :
  0 <= lo < hi ->
  sent address l lo hi k =
  match sent address l (lo + 1) hi k with
  | Some x => Some x
  | None => if decide (k = address + lo) then l !! Z.to_nat lo else None
  end.
Proof.
  intros H. unfold sent.
  destruct (Z.leb_spec (lo + 1) (k - address)), (Z.ltb_spec (k - address) hi); cbn [andb].
  - rewrite (proj2 (Z.leb_le lo (k - address))) by lia. cbn [andb].
    destruct (l !! _) eqn:E; [done|].
    rewrite decide_False by lia. done.
  - rewrite andb_false_r. rewrite decide_False by lia. done.
  - destruct (decide (k = address + lo)) as [->|Hne].
    + rewrite (proj2 (Z.leb_le _ _)) by lia. cbn [andb].
      by replace (address + lo - address) with lo by lia.
    + rewrite (proj2 (Z.leb_gt lo (k - address))) by lia. done.
  - rewrite andb_false_r. rewrite decide_False by lia. done.
Qed.

Section sequential_writes.
Context {B : Type} (ctx : ClearBladeModbusProxySlaveContext B) (rt : string).
Context (address : Z) (l : list Z).

Lemma seq_write_loop (n : nat) : forall (lo : nat) (b : CbModbusSequentialDataBlock.t) w,
  (lo + n <= List.length l)%nat ->
  for_each (fun i =>
              d <- lift (py_getitem l i) ;;
              on_snd (write_collection_data ctx rt (address + i) d))
           (map Z.of_nat (seq lo n)) (b, w) =
    (Ok tt,
     (b, {| collection := map (sent_row (data_query ctx rt) address l
                                        (Z.of_nat lo) (Z.of_nat (lo + n)))
                              (collection w);
            calls := calls w ++
                     imap (fun i v => UpdateItems
                             (write_query ctx rt (address + Z.of_nat lo + Z.of_nat i)) v)
                          (take n (drop lo l));
            log := log w |})).
Proof.
  induction n as [|n IH]; intros lo b w Hlen.
  - cbn [seq map for_each take imap]. unfold ret. rewrite app_nil_r, Nat.add_0_r.
    destruct w as [c cl lg]. cbn. do 3 f_equal.
    rewrite <- (map_id c) at 1. apply map_ext. intros it.
    unfold sent_row. rewrite sent_nil by lia. by destruct (matches _ it).
  - change (seq lo (S n)) with (lo :: seq (S lo) n). cbn [map for_each].
    unfold bind at 1. unfold bind at 1, lift at 1.
    rewrite py_getitem_nonneg by lia. rewrite Nat2Z.id.
    destruct (l !! lo) as [v|] eqn:Hv; [|apply lookup_ge_None in Hv; lia].
    unfold on_snd at 1, write_collection_data at 1, updateItems at 1, modify at 1.
    cbn [fst snd]. rewrite IH by lia.
    cbn [collection calls log]. do 3 f_equal.
    + rewrite map_map. apply map_ext. intros it.
      unfold sent_row. rewrite matches_app.
      rewrite (sent_cons address l (Z.of_nat lo) (Z.of_nat (lo + S n))) by lia.
      replace (Z.of_nat (S lo)) with (Z.of_nat lo + 1) by lia.
      replace (Z.of_nat (S lo + n)) with (Z.of_nat (lo + S n)) by lia.
      rewrite Nat2Z.id, Hv.
      destruct (matches (data_query ctx rt) it) eqn:Hm; cbn [andb].
      * change (matches [equalTo_register_address (address + Z.of_nat lo)] it)
          with ((COL_REG_ADDRESS it =? address + Z.of_nat lo) && true).
        rewrite andb_true_r.
        destruct (Z.eqb_spec (COL_REG_ADDRESS it) (address + Z.of_nat lo)) as [He|He].
        -- rewrite matches_set_data, Hm. cbn [set_data COL_REG_ADDRESS].
           rewrite decide_True by done.
           destruct (sent _ _ _ _ _); [|done]. by destruct it.
        -- rewrite Hm. rewrite decide_False by done. by destruct (sent _ _ _ _ _).
      * by rewrite Hm.
    + rewrite <- app_assoc. f_equal. rewrite (drop_S l v lo Hv). cbn [take imap app].
      unfold write_query. f_equal.
      * by rewrite Z.add_0_r.
      * apply imap_ext. intros i x _. cbn.
        by replace (address + Z.of_nat (S lo) + Z.of_nat i)
          with (address + Z.of_nat lo + Z.of_nat (S i)) by lia.
Qed.
End sequential_writes.

(** [setValues] of a sequential block, unrolled. *)
Lemma seq_setValues_run {B} (ctx : ClearBladeModbusProxySlaveContext B)
    (b : CbModbusSequentialDataBlock.t) (w : World) (address : Z)
    (values : CbModbusSequentialDataBlock.int_or_list) :
  let rt := CbModbusSequentialDataBlock.register_type b in
  let l := seq_values values in
  let start := address - CbModbusSequentialDataBlock.address b in
  0 <= address ->
  CbModbusSequentialDataBlock.setValues ctx address values (b, w) =
    (Ok tt,
     (CbModbusSequentialDataBlock.with_values b
        (py_setslice (CbModbusSequentialDataBlock.values b) start (start + len l) l),
      {| collection := map (sent_row (data_query ctx rt) address l address (len l - 1))
                           (collection w);
         calls := calls w ++
                  imap (fun i v => UpdateItems
                          (write_query ctx rt (address + address + Z.of_nat i)) v)
                       (drop (Z.to_nat address) (take (List.length l - 1) l));
         log := log w |})).
Proof.
  intros rt l start Ha. unfold CbModbusSequentialDataBlock.setValues.
  fold (seq_values values). fold l.
  unfold bind at 1, CbModbusSequentialDataBlock.self at 1. cbn [fst].
  unfold bind at 1, on_fst at 1, modify at 1. cbn [fst snd]. fold rt start.
  clearbody l rt start.
  destruct (Z.le_gt_cases (len l - 1) address) as [Hle|Hgt].
  - rewrite py_range_nil by done. cbn [for_each]. unfold ret.
    rewrite drop_ge.
    2:{ rewrite length_take. unfold len in Hle.
        etransitivity; [apply Nat.le_min_l|lia]. }
    cbn [imap]. rewrite app_nil_r. destruct w as [c cl lg]. cbn. do 3 f_equal.
    rewrite <- (map_id c) at 1. apply map_ext. intros it.
    unfold sent_row. rewrite sent_nil by lia. by destruct (matches _ it).
  - rewrite py_range_seq by done.
    rewrite seq_write_loop by (unfold len in *; lia).
    rewrite Z2Nat.id by done.
    replace (Z.of_nat (Z.to_nat address + Z.to_nat (len l - 1 - address))) with (len l - 1)
      by (unfold len in *; lia).
    do 4 f_equal.
    rewrite take_drop_commute. do 3 f_equal. unfold len in *. lia.
Qed.

(** X12. [setValues] on a sequential block, for an address that is not
    negative, does not raise and leaves the log alone.  The store is sent the
    values at positions [address] to [len - 2] of the list only, each to the
    remote address [address + position]: the rows of this slave and register
    type at those remote addresses take them, and no other row changes. *)
Theorem seq_setValues_sends_shifted_positions {B}
    (ctx : ClearBladeModbusProxySlaveContext B)
    (b : CbModbusSequentialDataBlock.t) (w : World) (address : Z)
    (values : CbModbusSequentialDataBlock.int_or_list) :
  let rt := CbModbusSequentialDataBlock.register_type b in
  let l := seq_values values in
  let r := CbModbusSequentialDataBlock.setValues ctx address values (b, w) in
  0 <= address ->
  fst r = Ok tt /\
  calls (snd (snd r)) =
    calls w ++
    imap (fun i v => UpdateItems (write_query ctx rt (address + address + Z.of_nat i)) v)
         (drop (Z.to_nat address) (take (List.length l - 1) l)) /\
  collection (snd (snd r)) =
    map (sent_row (data_query ctx rt) address l address (len l - 1)) (collection w) /\
  log (snd (snd r)) = log w.
Proof.
  intros rt l r Ha. subst r. rewrite seq_setValues_run by done. cbn [fst snd]. auto.
Qed.

Lemma seq_setValues_sends_shifted_positions_witness :
  let w := example_world [example_item 1 0 "t1"; example_item 2 0 "t2";
                          example_item 3 0 "t3"; example_item 4 0 "t4"] in
  let r := CbModbusSequentialDataBlock.setValues (example_context false) 1
             (CbModbusSequentialDataBlock.Sequence [7; 8; 9; 10])
             (example_block 1 [0; 0; 0; 0], w) in
  0 <= 1 /\
  fst r = Ok tt /\
  calls (snd (snd r)) =
    [UpdateItems (write_query (example_context false) "hr" 2) 8;
     UpdateItems (write_query (example_context false) "hr" 3) 9] /\
  map COL_REG_DATA (collection (snd (snd r))) = [0; 8; 9; 0].
Proof.
  intros w r. split; [lia|].
  destruct (seq_setValues_sends_shifted_positions (example_context false)
              (example_block 1 [0; 0; 0; 0]) w 1
              (CbModbusSequentialDataBlock.Sequence [7; 8; 9; 10])) as (Hr & Hc & Hcol & _);
    [lia|].
  fold r in Hr, Hc, Hcol. rewrite Hr, Hc, Hcol. repeat split.
Defined.

Lemma py_setslice_in_range {A} (l new : list A) (start : Z) :
  0 <= start -> start + len new <= len l ->
  py_setslice l start (start + len new) new =
    take (Z.to_nat start) l ++ new ++ drop (Z.to_nat start + List.length new) l.
Proof.
  intros Hs Hl. unfold py_setslice, py_clamp.
  assert (Hn : 0 <= len new) by (unfold len; lia).
  destruct (Z.ltb_spec start 0), (Z.ltb_spec (start + len new) 0); try lia.
  rewrite !Z.min_l by lia. do 3 f_equal. unfold len. lia.
Qed.

Lemma py_setslice_past_end {A} (l new : list A) (start stop : Z) :
  len l <= start -> start <= stop -> py_setslice l start stop new = l ++ new.
Proof.
  intros Hs Hl. unfold py_setslice, py_clamp.
  assert (Hn : 0 <= len l) by (unfold len; lia).
  destruct (Z.ltb_spec start 0), (Z.ltb_spec stop 0); try lia.
  rewrite !Z.min_r by lia. unfold len.
  rewrite Nat2Z.id, Nat.max_id, take_ge, drop_ge by lia. by rewrite app_nil_r.
Qed.

(** X13. The cache after [setValues] on a sequential block, for a write that
    stays inside the block: the list replaces the slice at the offset of the
    address, and the cache keeps its length. *)
Theorem seq_setValues_in_range {B} (ctx : ClearBladeModbusProxySlaveContext B)
    (b : CbModbusSequentialDataBlock.t) (w : World) (address : Z)
    (values : CbModbusSequentialDataBlock.int_or_list) :
  let l := seq_values values in
  let start := address - CbModbusSequentialDataBlock.address b in
  let b' := fst (snd (CbModbusSequentialDataBlock.setValues ctx address values (b, w))) in
  0 <= address -> 0 <= start ->
  start + len l <= len (CbModbusSequentialDataBlock.values b) ->
  CbModbusSequentialDataBlock.values b' =
    take (Z.to_nat start) (CbModbusSequentialDataBlock.values b) ++ l ++
    drop (Z.to_nat start + List.length l) (CbModbusSequentialDataBlock.values b) /\
  len (CbModbusSequentialDataBlock.values b') = len (CbModbusSequentialDataBlock.values b) /\
  CbModbusSequentialDataBlock.address b' = CbModbusSequentialDataBlock.address b /\
  CbModbusSequentialDataBlock.timestamps b' = CbModbusSequentialDataBlock.timestamps b.
Proof.
  intros l start b' Ha Hs Hl. subst b'. rewrite seq_setValues_run by done.
  cbn [fst snd CbModbusSequentialDataBlock.with_values
       CbModbusSequentialDataBlock.values CbModbusSequentialDataBlock.address
       CbModbusSequentialDataBlock.timestamps].
  fold l start. rewrite py_setslice_in_range by done.
  repeat split. unfold len in *.
  rewrite !length_app, length_take, length_drop. lia.
Qed.

Lemma seq_setValues_in_range_witness :
  let b' := fst (snd (CbModbusSequentialDataBlock.setValues (example_context false) 6
                        (CbModbusSequentialDataBlock.Sequence [7; 8])
                        (example_block 5 [1; 2; 3; 4], example_world []))) in
  0 <= 6 /\ 0 <= 6 - 5 /\ 6 - 5 + 2 <= 4 /\
  CbModbusSequentialDataBlock.values b' = [1; 7; 8; 4].
Proof.
  intros b'. split; [lia|]. split; [lia|]. split; [lia|].
  destruct (seq_setValues_in_range (example_context false) (example_block 5 [1; 2; 3; 4])
              (example_world []) 6 (CbModbusSequentialDataBlock.Sequence [7; 8]))
    as [Hv _]; [lia|vm_compute; discriminate|vm_compute; discriminate|].
  fold b' in Hv. rewrite Hv. reflexivity.
Defined.

(** X14. A write that starts at or past the end of the cache appends the
    list to it, wherever the address is: the block grows and the gap between
    the end of the block and the address is not represented. *)
Theorem seq_setValues_past_end_appends {B} (ctx : ClearBladeModbusProxySlaveContext B)
    (b : CbModbusSequentialDataBlock.t) (w : World) (address : Z)
    (values : CbModbusSequentialDataBlock.int_or_list) :
  let start := address - CbModbusSequentialDataBlock.address b in
  let b' := fst (snd (CbModbusSequentialDataBlock.setValues ctx address values (b, w))) in
  0 <= address -> len (CbModbusSequentialDataBlock.values b) <= start ->
  CbModbusSequentialDataBlock.values b' =
    CbModbusSequentialDataBlock.values b ++ seq_values values.
Proof.
  intros start b' Ha Hs. subst b'. rewrite seq_setValues_run by done.
  cbn [fst snd CbModbusSequentialDataBlock.with_values CbModbusSequentialDataBlock.values].
  fold start. apply py_setslice_past_end; [done|]. unfold len. lia.
Qed.

Lemma seq_setValues_past_end_appends_witness :
  let b' := fst (snd (CbModbusSequentialDataBlock.setValues (example_context false) 20
                        (CbModbusSequentialDataBlock.Sequence [7; 8])
                        (example_block 5 [1; 2; 3; 4], example_world []))) in
  0 <= 20 /\ 4 <= 20 - 5 /\
  CbModbusSequentialDataBlock.values b' = [1; 2; 3; 4; 7; 8].
Proof.
  intros b'. split; [lia|]. split; [lia|].
  apply (seq_setValues_past_end_appends (example_context false)
           (example_block 5 [1; 2; 3; 4]) (example_world []) 20
           (CbModbusSequentialDataBlock.Sequence [7; 8])); [lia|vm_compute; discriminate].
Defined.

(** ** Time stamps after a read, and writes of a mapping *)

Lemma py_getslice_nonneg {A} (l : list A) (start count : Z) :
  0 <= start -> 0 <= count ->
  py_getslice l start (start + count) = take (Z.to_nat count) (drop (Z.to_nat start) l).
Proof.
  intros Hs Hc. unfold py_getslice, py_clamp.
  destruct (Z.ltb_spec start 0), (Z.ltb_spec (start + count) 0); try lia.
  assert (Hl : 0 <= len l) by (unfold len; lia).
  destruct (Z.le_gt_cases (len l) start) as [Hge|Hlt].
  - rewrite !drop_ge; [by rewrite !take_nil| |]; unfold len in *; lia.
  - rewrite (Z.min_l start) by lia.
    destruct (Z.le_gt_cases (start + count) (len l)) as [Hin|Hout].
    + rewrite Z.min_l by lia. f_equal. lia.
    + rewrite Z.min_r by lia. rewrite !take_ge; [done| |];
        rewrite length_drop; unfold len in *; lia.
Qed.

(** X15. [get_timestamps] of a sequential block, for an address at or above the
    base and a count that is not negative: it returns the time stamps from
    the offset of the address, at most [count] of them, fewer when the range
    runs past the end of the list (it never raises). *)
Theorem seq_get_timestamps_slice (b : CbModbusSequentialDataBlock.t) (address count : Z) :
  let start := address - CbModbusSequentialDataBlock.address b in
  0 <= start -> 0 <= count ->
  CbModbusSequentialDataBlock.get_timestamps b address count =
    take (Z.to_nat count) (drop (Z.to_nat start) (CbModbusSequentialDataBlock.timestamps b)) /\
  len (CbModbusSequentialDataBlock.get_timestamps b address count) =
    Z.min count (Z.max 0 (len (CbModbusSequentialDataBlock.timestamps b) - start)).
Proof.
  intros start Hs Hc. unfold CbModbusSequentialDataBlock.get_timestamps. fold start.
  clearbody start. rewrite py_getslice_nonneg by done. split; [done|].
  unfold len. rewrite length_take, length_drop, Nat2Z.inj_min. lia.
Qed.

Lemma seq_get_timestamps_slice_witness :
  let b := example_block 5 [0; 0; 0; 0] in
  0 <= 6 - 5 /\ 0 <= 4 /\
  CbModbusSequentialDataBlock.get_timestamps b 6 4 = [None; None] /\
  len (CbModbusSequentialDataBlock.get_timestamps b 6 4) = 2.
Proof.
  intros b. split; [lia|]. split; [lia|].
  destruct (seq_get_timestamps_slice b 6 4) as [H1 H2];
    [vm_compute; discriminate|lia|].
  rewrite H2. split; [rewrite H1|]; reflexivity.
Defined.

(** X16. After a read from address 0 on a sequential block based at 0 that the
    store serves in full, [get_timestamps] for the same range returns the
    time stamps of the rows that were read. *)
Theorem seq_getValues_then_get_timestamps {B} (ctx : ClearBladeModbusProxySlaveContext B)
    (b : CbModbusSequentialDataBlock.t) (w : World) (count : Z) :
  let rt := CbModbusSequentialDataBlock.register_type b in
  let rl := sorted_by_key COL_REG_ADDRESS (returned_rows ctx rt 0 count w) in
  let b' := fst (snd (CbModbusSequentialDataBlock.getValues ctx 0 count (b, w))) in
  sparse ctx = false -> 0 <= count ->
  CbModbusSequentialDataBlock.address b = 0 ->
  (forall x, 0 <= x < count -> exists it, rl !! Z.to_nat x = Some it /\ COL_REG_ADDRESS it = x) ->
  count <= len (CbModbusSequentialDataBlock.values b) ->
  count <= len (CbModbusSequentialDataBlock.timestamps b) ->
  CbModbusSequentialDataBlock.get_timestamps b' 0 count =
    map COL_DATA_TIMESTAMP (take (Z.to_nat count) rl).
Proof.
  intros rt rl b' Hsp Hc Hbase Hall Hv Ht.
  destruct (seq_getValues_from_zero_run ctx b w count Hsp Hc Hall Hv Ht) as [Hrun _].
  subst b'. rewrite Hrun. cbn [fst snd].
  unfold CbModbusSequentialDataBlock.get_timestamps.
  cbn [CbModbusSequentialDataBlock.address CbModbusSequentialDataBlock.timestamps].
  rewrite Hbase. change (0 - 0) with 0.
  rewrite py_getslice_nonneg by lia. change (Z.to_nat 0) with 0%nat. rewrite drop_0.
  fold rt rl.
  assert (Hlen : List.length (take (Z.to_nat count) rl) = Z.to_nat count).
  { rewrite length_take. destruct (Z.eq_dec count 0) as [->|Hne]; [done|].
    destruct (Hall (count - 1)) as (it & Hit & _); [lia|].
    apply lookup_lt_Some in Hit. lia. }
  rewrite take_app_length'; [done|]. by rewrite length_map.
Qed.

Lemma seq_getValues_then_get_timestamps_witness :
  let w := example_world [example_item 1 11 "t1"; example_item 0 10 "t0"] in
  let b := example_block 0 [1; 2; 3; 4] in
  let b' := fst (snd (CbModbusSequentialDataBlock.getValues (example_context false) 0 2
                        (b, w))) in
  sparse (example_context false) = false /\ 0 <= 2 /\
  CbModbusSequentialDataBlock.address b = 0 /\
  2 <= len (CbModbusSequentialDataBlock.values b) /\
  2 <= len (CbModbusSequentialDataBlock.timestamps b) /\
  CbModbusSequentialDataBlock.get_timestamps b' 0 2 =
    [Some "t0"%string; Some "t1"%string].
Proof.
  intros w b b'. split; [reflexivity|]. split; [lia|]. split; [reflexivity|].
  split; [vm_compute; discriminate|]. split; [vm_compute; discriminate|].
  etransitivity;
    [apply (seq_getValues_then_get_timestamps (example_context false) b w 2)|reflexivity].
  - reflexivity.
  - lia.
  - reflexivity.
  - intros x Hx. assert (Hcase : x = 0 \/ x = 1) by lia.
    destruct Hcase as [->| ->]; eexists; split; reflexivity.
  - vm_compute. discriminate.
  - vm_compute. discriminate.
Defined.

(** X17. In a sparse context, [get_timestamps] after [getValues] on the same
    range of a sparse block whose addresses are all keys: for each address it
    returns the time stamp of the row returned for it, or the entry the block
    had when no row came back; it raises [KeyError] when such an address has
    no time stamp entry. *)
Theorem sparse_getValues_then_get_timestamps {B} (ctx : ClearBladeModbusProxySlaveContext B)
    (b : CbModbusSparseDataBlock.t) (w : World) (address count : Z) :
  let rows := returned_rows ctx (CbModbusSparseDataBlock.register_type b) address count w in
  sparse ctx = true ->
  (forall i, address <= i < address + count ->
             is_Some (CbModbusSparseDataBlock.values b !! Some i)) ->
  fst ((CbModbusSparseDataBlock.getValues ctx address count ;;;
        CbModbusSparseDataBlock.get_timestamps address count) (b, w)) =
    lookup_all (fun i => refreshed COL_DATA_TIMESTAMP rows
                           (CbModbusSparseDataBlock.values b)
                           (CbModbusSparseDataBlock.timestamps b) (Some i))
               (py_range address (address + count)).
Proof.
  intros rows Hsp Hkeys.
  destruct (sparse_getValues_run ctx b w address count Hsp) as (b' & Hrun & _ & Hv & Ht).
  fold rows in Hv, Ht. unfold bind. rewrite Hrun.
  assert (Hok : is_ok (lookup_all (fun i => CbModbusSparseDataBlock.values b' !! Some i)
                         (py_range address (address + count))) = true).
  { apply lookup_all_is_ok. intros i Hi%elem_of_py_range. rewrite Hv.
    apply (proj2 (refreshed_is_Some COL_REG_DATA rows _ _ (Some i) (iff_refl _))).
    by apply Hkeys. }
  destruct (lookup_all _ _) as [vs|]; [|discriminate].
  rewrite sparse_get_timestamps_run. cbn [fst].
  apply lookup_all_ext. intros i. apply Ht.
Qed.

Lemma sparse_getValues_then_get_timestamps_witness :
  let w := example_world [example_item 5 50 "t5"] in
  sparse (example_context true) = true /\
  fst ((CbModbusSparseDataBlock.getValues (example_context true) 5 1 ;;;
        CbModbusSparseDataBlock.get_timestamps 5 1) (example_sparse_block, w)) =
    Ok [Some "t5"%string].
Proof.
  intros w. split; [reflexivity|].
  etransitivity;
    [apply (sparse_getValues_then_get_timestamps (example_context true)
              example_sparse_block w 5 1); [reflexivity|]|reflexivity].
  intros i Hi. assert (i = 5) as -> by lia. by eexists.
Defined.

Lemma sparse_setValues_single {B} (ctx : ClearBladeModbusProxySlaveContext B)
    (b : CbModbusSparseDataBlock.t) (w : World) (idx val : Z) :
  CbModbusSparseDataBlock.setValues ctx idx (CbModbusSequentialDataBlock.Single val) (b, w) =
    (on_fst (modify (fun b =>
       CbModbusSparseDataBlock.with_values b
         (<[Some idx := val]> (CbModbusSparseDataBlock.values b)))) ;;;
     on_snd (write_collection_data ctx (CbModbusSparseDataBlock.register_type b) idx val))
      (b, w).
Proof.
  unfold CbModbusSparseDataBlock.setValues.
  unfold bind at 1, CbModbusSparseDataBlock.self at 1. cbn [fst].
  change (zip (py_range 0 (len [val])) [val]) with [(0, val)].
  cbn [for_each]. rewrite Z.add_0_r. unfold bind, ret.
  by destruct (on_fst _ _) as [[[]|] ?]; [destruct (on_snd _ _) as [[[]|] ?]|].
Qed.

Lemma for_each_cons_ok {S A} (body : A -> M S unit) x xs s s1 :
  body x s = (Ok tt, s1) -> for_each body (x :: xs) s = for_each body xs s1.
Proof. intros H. cbn [for_each]. unfold bind. by rewrite H. Qed.

Lemma sparse_dict_loop {B} (ctx : ClearBladeModbusProxySlaveContext B) (rt : string)
    (items : list (Z * Z)) : forall (b : CbModbusSparseDataBlock.t) (w : World),
  CbModbusSparseDataBlock.register_type b = rt ->
  let r := for_each (fun '(idx, val) =>
                       on_fst (modify (fun b =>
                         CbModbusSparseDataBlock.with_values b
                           (<[Some idx := val]> (CbModbusSparseDataBlock.values b)))) ;;;
                       on_snd (write_collection_data ctx rt idx val)) items (b, w) in
  r = for_each (fun '(idx, val) =>
                  CbModbusSparseDataBlock.setValues ctx idx
                    (CbModbusSequentialDataBlock.Single val)) items (b, w) /\
  fst r = Ok tt /\
  calls (snd (snd r)) =
    calls w ++ map (fun '(idx, val) => UpdateItems (write_query ctx rt idx) val) items.
Proof.
  induction items as [|[idx val] items IH]; intros b w Hrt.
  - cbn. by rewrite app_nil_r.
  - set (b1 := CbModbusSparseDataBlock.with_values b
                 (<[Some idx := val]> (CbModbusSparseDataBlock.values b))).
    set (w1 := {| collection :=
                    map (fun it => if matches (write_query ctx rt idx) it
                                   then set_data val it else it) (collection w);
                  calls := calls w ++ [UpdateItems (write_query ctx rt idx) val];
                  log := log w |}).
    cbn zeta.
    rewrite (for_each_cons_ok _ (idx, val) items (b, w) (b1, w1)) by reflexivity.
    rewrite (for_each_cons_ok (fun '(idx, val) =>
               CbModbusSparseDataBlock.setValues ctx idx
                 (CbModbusSequentialDataBlock.Single val)) (idx, val) items (b, w) (b1, w1))
      by (rewrite sparse_setValues_single, Hrt; reflexivity).
    destruct (IH b1 w1 Hrt) as (H1 & H2 & H3). cbn zeta in H1, H2, H3.
    split; [exact H1|]. split; [exact H2|].
    rewrite H3. subst w1. cbn [calls map]. by rewrite <- app_assoc.
Qed.

(** X18. [setValues] with a dict on a sparse block ignores its [address]
    argument: it never raises and does what a single-value [setValues] at
    each key of the dict does, in iteration order, with one update per
    entry. *)
Theorem sparse_setValues_dict_is_single_writes {B}
    (ctx : ClearBladeModbusProxySlaveContext B)
    (b : CbModbusSparseDataBlock.t) (w : World) (address : Z) (items : list (Z * Z)) :
  sparse_setValues_dict ctx address items (b, w) =
    for_each (fun '(idx, val) =>
                CbModbusSparseDataBlock.setValues ctx idx
                  (CbModbusSequentialDataBlock.Single val)) items (b, w) /\
  fst (sparse_setValues_dict ctx address items (b, w)) = Ok tt /\
  calls (snd (snd (sparse_setValues_dict ctx address items (b, w)))) =
    calls w ++ map (fun '(idx, val) =>
                      UpdateItems (write_query ctx (CbModbusSparseDataBlock.register_type b)
                                               idx) val) items.
Proof.
  unfold sparse_setValues_dict, bind at 1 2 3, CbModbusSparseDataBlock.self. cbn [fst].
  exact (sparse_dict_loop ctx (CbModbusSparseDataBlock.register_type b) items b w eq_refl).
Qed.

(** ** The template parser: what the descriptors can hold *)

Lemma wf_assign_address this addr regs :
  in_range addr 0 (99999 + 1) = true ->
  Forall wf_descriptor regs -> Forall wf_descriptor (assign_address this addr regs).
Proof.
  intros Hr Hall. unfold assign_address. apply Forall_fmap.
  eapply Forall_impl; [exact Hall|]. intros reg Hwf. cbn.
  destruct (decide (param_id reg = this)); [|exact Hwf].
  destruct Hwf as (Hb & Ha & Ht & Hk).
  unfold in_range in Hr. apply andb_true_iff in Hr as [H1%Z.leb_le H2%Z.ltb_lt].
  split; [done|]. split; [|split; [done|]]; cbn.
  - intros a [= <-]. lia.
  - right. eauto.
Qed.

Lemma wf_assign_register_type this ty regs :
  str_in ty REGISTER_TYPES = true ->
  Forall wf_descriptor regs -> Forall wf_descriptor (assign_register_type this ty regs).
Proof.
  intros Hty Hall. unfold assign_register_type. apply Forall_fmap.
  eapply Forall_impl; [exact Hall|]. intros reg Hwf. cbn.
  destruct (decide (param_id reg = this)); [|exact Hwf].
  destruct Hwf as (Hb & Ha & Ht & Hk).
  split; [done|]. split; [done|]. split; [|done]. cbn. by intros ty' [= <-].
Qed.

Lemma register_field_wf l c st l' st' :
  register_field l c st = (Ok l', st') ->
  Forall wf_descriptor (registers l) -> Forall wf_descriptor (registers l').
Proof.
  unfold register_field. intros H Hall.
  destruct (has_tag TEMPLATE_PARSER_REG_UID c).
  { unfold bind, lift, ret in H. destruct (py_int _) as [pid|]; [|discriminate].
    injection H as <- <-. destruct (negb _); cbn [registers]; [|done].
    apply Forall_app. split; [done|]. constructor; [|constructor].
    split; [done|]. split; [done|]. split; [done|]. left. cbn. eauto. }
  destruct (has_tag TEMPLATE_PARSER_REG_ADDRESS c).
  { unfold bind, lift, ret in H. destruct (py_int _) as [addr|]; [|discriminate].
    cbn [self fst] in H.
    destruct (in_range _ 0 (99999 + 1)) eqn:Hr.
    - injection H as <- <-.
      pose proof (wf_assign_address (this_reg l) _ _ Hr Hall) as Hall'.
      destruct (negb (reg_exists l)); cbn [registers]; [|done].
      apply Forall_app. split; [done|]. constructor; [|constructor].
      unfold in_range in Hr. apply andb_true_iff in Hr as [H1%Z.leb_le H2%Z.ltb_lt].
      split; [done|]. split; [|split; [done|]]; cbn.
      + intros a [= <-]. lia.
      + right. eauto.
    - unfold self_log, on_snd, log_msg, modify in H. cbn in H. by injection H as <- <-. }
  destruct (has_tag TEMPLATE_PARSER_REG_TYPE c); [|by injection H as <- <-].
  cbn zeta in H. unfold ret in H.
  repeat (match type of H with
          | context [if str_in ?x ?y then _ else _] => destruct (str_in x y)
          end;
          [injection H as <- <-; cbn [registers];
           by apply wf_assign_register_type|]).
  unfold bind, self_log, on_snd, log_msg, modify in H. cbn in H. by injection H as <- <-.
Qed.

Lemma parse_line_wf regs line st regs' st' :
  parse_line regs line st = (Ok regs', st') ->
  Forall wf_descriptor regs -> Forall wf_descriptor regs'.
Proof.
  unfold parse_line. intros H Hall.
  destruct (has_tag TEMPLATE_PARSER_DESC line).
  { unfold bind, ret in H. destruct (for_each _ _ _) as [[[]|] ?]; [|discriminate].
    by injection H as <- <-. }
  destruct (has_tag TEMPLATE_PARSER_NETWORK line).
  { unfold bind, ret in H. destruct (for_each _ _ _) as [[[]|] ?]; [|discriminate].
    by injection H as <- <-. }
  destruct (has_tag TEMPLATE_PARSER_REGISTER_DEF line); [|by injection H as <- <-].
  unfold bind, ret in H.
  destruct (for_fold _ _ _ _) as [[l|] s1] eqn:Hfold; [|discriminate].
  injection H as <- <-.
  eapply (for_fold_invariant register_field (fun l => Forall wf_descriptor (registers l)));
    [|exact Hfold|exact Hall].
  intros acc x s acc' s'. apply register_field_wf.
Qed.

(** ** The template parser: what it leaves alone *)

Section loop_frames.
Context {S : Type} (R : S -> S -> Prop).
Hypothesis R_refl : forall s, R s s.
Hypothesis R_trans : forall a b c, R a b -> R b c -> R a c.

(** A relation between the states before and after that every iteration
    establishes holds across the loop, whether it returns or raises. *)
Lemma for_each_frame {A} (body : A -> M S unit) xs :
  (forall x s, R s (snd (body x s))) -> forall s, R s (snd (for_each body xs s)).
Proof.
  intros Hbody. induction xs as [|x xs IH]; intros s; cbn [for_each]; [apply R_refl|].
  unfold bind. specialize (Hbody x s).
  destruct (body x s) as [[[]|e] s1]; cbn in *; [|done].
  eapply R_trans; [exact Hbody|apply IH].
Qed.

Lemma for_fold_frame {A B} (body : B -> A -> M S B) xs :
  (forall acc x s, R s (snd (body acc x s))) ->
  forall acc s, R s (snd (for_fold body xs acc s)).
Proof.
  intros Hbody. induction xs as [|x xs IH]; intros acc s; cbn [for_fold]; [apply R_refl|].
  unfold bind. specialize (Hbody acc x s).
  destruct (body acc x s) as [[acc1|e] s1]; cbn in *; [|done].
  eapply R_trans; [exact Hbody|apply IH].
Qed.
End loop_frames.

Lemma parser_frame_refl st : parser_frame st st.
Proof.
  repeat split; auto. exists []. split; [by rewrite app_nil_r|constructor].
Qed.

Lemma parser_frame_trans a b c : parser_frame a b -> parser_frame b c -> parser_frame a c.
Proof.
  intros (H1 & H2 & H3 & H4 & H5 & H6 & m1 & H7 & H8)
         (G1 & G2 & G3 & G4 & G5 & G6 & m2 & G7 & G8).
  split; [congruence|]. split; [congruence|]. split; [congruence|].
  split; [destruct G4 as [G4|G4]; [rewrite G4; exact H4|by right]|].
  split; [congruence|]. split; [congruence|].
  exists (m1 ++ m2). split; [by rewrite G7, H7, app_assoc|by apply Forall_app].
Qed.

(** An assignment to an attribute other than the seven of the frame. *)
Lemma parser_frame_assign f s w :
  ip_proxy (f s) = ip_proxy s -> ip_port (f s) = ip_port s -> store (f s) = store s ->
  (slave_id (f s) = slave_id s \/ 1 <= slave_id (f s) <= 254) ->
  parser_frame (s, w) (snd (assign f (s, w))).
Proof.
  intros H1 H2 H3 H4. unfold assign, on_fst, modify. cbn.
  repeat split; auto. exists []. split; [by rewrite app_nil_r|constructor].
Qed.

Lemma parser_frame_error m s w : parser_frame (s, w) (snd (self_log ERROR m (s, w))).
Proof.
  unfold self_log, on_snd, log_msg, modify. cbn.
  repeat split; auto. exists [(ERROR, m)]. split; [done|]. by repeat constructor.
Qed.

Lemma identity_field_frame id_tag st : parser_frame st (snd (identity_field id_tag st)).
Proof.
  destruct st as [s w]. unfold identity_field.
  repeat (match goal with |- context [has_tag ?t id_tag] => destruct (has_tag t id_tag) end;
          [by apply parser_frame_assign; auto|]).
  destruct (String.eqb _ _); [|apply parser_frame_refl].
  unfold bind, lift. destruct (py_int _); [|apply parser_frame_refl].
  by apply parser_frame_assign; auto.
Qed.

Lemma network_field_frame i st : parser_frame st (snd (network_field i st)).
Proof.
  destruct st as [s w]. unfold network_field.
  destruct (has_tag TEMPLATE_PARSER_SLAVE_ID i).
  - unfold bind, lift. rewrite py_int_strip.
    destruct (py_int (after_tag _ _)) as [n|e]; [|apply parser_frame_refl].
    destruct (in_range n 1 255) eqn:Hr; [|apply parser_frame_error].
    apply parser_frame_assign; auto. right. cbn.
    unfold in_range in Hr. apply andb_true_iff in Hr as [H1%Z.leb_le H2%Z.ltb_lt]. lia.
  - destruct (has_tag TEMPLATE_PARSER_NOT_ZERO_MODE i); [|apply parser_frame_refl].
    unfold bind, lift. destruct (py_int _); [|apply parser_frame_refl].
    by apply parser_frame_assign; auto.
Qed.

Lemma register_field_frame l c st : parser_frame st (snd (register_field l c st)).
Proof.
  destruct st as [s w]. unfold register_field.
  destruct (has_tag TEMPLATE_PARSER_REG_UID c).
  { unfold bind, lift, ret. destruct (py_int _); apply parser_frame_refl. }
  destruct (has_tag TEMPLATE_PARSER_REG_ADDRESS c).
  { unfold bind, lift, ret. destruct (py_int _) as [addr|]; [|apply parser_frame_refl].
    cbn [self fst].
    destruct (in_range _ 0 (99999 + 1)); [apply parser_frame_refl|].
    apply (parser_frame_error _ s w). }
  destruct (has_tag TEMPLATE_PARSER_REG_TYPE c); [|apply parser_frame_refl].
  cbn zeta. unfold ret.
  repeat (match goal with
          | |- context [if str_in ?x ?y then _ else _] => destruct (str_in x y)
          end; [apply parser_frame_refl|]).
  unfold bind. apply (parser_frame_error _ s w).
Qed.

Lemma parse_line_frame regs line st : parser_frame st (snd (parse_line regs line st)).
Proof.
  unfold parse_line.
  destruct (has_tag TEMPLATE_PARSER_DESC line).
  { unfold bind, ret.
    pose proof (for_each_frame parser_frame parser_frame_refl parser_frame_trans
                  identity_field (split TEMPLATE_PARSER_SEPARATOR line)
                  identity_field_frame st) as H.
    by destruct (for_each _ _ st) as [[[]|] ?]. }
  destruct (has_tag TEMPLATE_PARSER_NETWORK line).
  { unfold bind, ret.
    pose proof (for_each_frame parser_frame parser_frame_refl parser_frame_trans
                  network_field (split TEMPLATE_PARSER_SEPARATOR line)
                  network_field_frame st) as H.
    by destruct (for_each _ _ st) as [[[]|] ?]. }
  destruct (has_tag TEMPLATE_PARSER_REGISTER_DEF line); [|apply parser_frame_refl].
  unfold bind, ret.
  pose proof (for_fold_frame parser_frame parser_frame_refl parser_frame_trans
                register_field (split TEMPLATE_PARSER_SEPARATOR line)
                register_field_frame
                {| registers := regs; reg_exists := false; this_reg := None |} st) as H.
  by destruct (for_fold _ _ _ st) as [[?|] ?].
Qed.

Lemma parse_lines_frame config_file st : parser_frame st (snd (parse_lines config_file st)).
Proof.
  unfold parse_lines.
  apply (for_fold_frame parser_frame parser_frame_refl parser_frame_trans).
  intros acc x s. apply parse_line_frame.
Qed.

(** ** Block construction: the grouping of the descriptors *)

Lemma addresses_of_cons ty reg regs :
  addresses_of ty (reg :: regs) =
  (if decide (block_type reg = ty) then [address reg] else []) ++ addresses_of ty regs.
Proof.
  unfold addresses_of. rewrite filter_cons. by destruct (decide (block_type reg = ty)).
Qed.

Lemma zero_block_lookup l a :
  zero_block l !! a = if decide (a ∈ l) then Some 0 else None.
Proof.
  unfold zero_block. rewrite lookup_gset_to_gmap.
  destruct (decide (a ∈ l)) as [Hin|Hin].
  - rewrite option_guard_True; [done|]. by apply elem_of_list_to_set.
  - rewrite option_guard_False; [done|]. by rewrite elem_of_list_to_set.
Qed.

Lemma zero_block_snoc l a : zero_block (l ++ [a]) = <[a := 0]> (zero_block l).
Proof.
  apply map_eq. intros k. rewrite zero_block_lookup.
  destruct (decide (k = a)) as [->|Hne].
  - rewrite lookup_insert_eq, decide_True; [done|].
    apply elem_of_app. right. by apply list_elem_of_singleton.
  - rewrite lookup_insert_ne by done. rewrite zero_block_lookup.
    destruct (decide (k ∈ l)) as [Hin|Hin].
    + rewrite decide_True; [done|]. apply elem_of_app. by left.
    + rewrite decide_False; [done|]. rewrite elem_of_app, list_elem_of_singleton.
      by intros [?|?].
Qed.

Lemma addresses_of_snoc ty regs reg :
  addresses_of ty (regs ++ [reg]) =
  addresses_of ty regs ++ (if decide (block_type reg = ty) then [address reg] else []).
Proof.
  unfold addresses_of. rewrite filter_app, map_app. f_equal.
  rewrite filter_cons, filter_nil. by destruct (decide (block_type reg = ty)).
Qed.

(** The grouping loop in closed form: in the sequential layout each list
    holds the addresses of the descriptors filed under its type, in
    descriptor order, and the mappings stay empty; in the sparse layout each
    mapping has value 0 at exactly those addresses, and the lists stay
    empty.  A descriptor is filed under holding, input or discrete when its
    type is that one, and under coil otherwise. *)
Lemma group_fold (regs : list _RegisterBlockConfig) :
  fold_left (group_register false) regs empty_layout =
    {| hr_sparse_block := ∅; ir_sparse_block := ∅; di_sparse_block := ∅;
       co_sparse_block := ∅;
       hr_sequential := addresses_of TYPE_HOLDING_REGISTER regs;
       ir_sequential := addresses_of TYPE_INPUT_REGISTER regs;
       di_sequential := addresses_of TYPE_DISCRETE_INPUT regs;
       co_sequential := addresses_of TYPE_COIL regs |} /\
  fold_left (group_register true) regs empty_layout =
    {| hr_sparse_block := zero_block (addresses_of TYPE_HOLDING_REGISTER regs);
       ir_sparse_block := zero_block (addresses_of TYPE_INPUT_REGISTER regs);
       di_sparse_block := zero_block (addresses_of TYPE_DISCRETE_INPUT regs);
       co_sparse_block := zero_block (addresses_of TYPE_COIL regs);
       hr_sequential := []; ir_sequential := []; di_sequential := [];
       co_sequential := [] |}.
Proof.
  induction regs as [|reg regs [IH1 IH2]] using rev_ind; [done|].
  rewrite !fold_left_app, IH1, IH2. cbn [fold_left].
  rewrite !addresses_of_snoc. unfold group_register, block_type.
  cbn [hr_sparse_block ir_sparse_block di_sparse_block co_sparse_block
       hr_sequential ir_sequential di_sequential co_sequential].
  repeat case_decide; try discriminate; try congruence;
    by rewrite ?app_nil_r, ?zero_block_snoc.
Qed.

(** ** Block construction: the blocks of the store *)

Lemma setup_sparse_block_run ty l :
  str_in ty REGISTER_TYPES = true ->
  _setup_sparse_block (zero_block l) ty = Ok (sparse_block_for ty l).
Proof.
  intros Hty. unfold _setup_sparse_block. rewrite Hty. cbn [andb].
  destruct l as [|a l]; [done|].
  destruct (Z.ltb_spec 0 (Z.of_nat (size (zero_block (a :: l))))) as [_|Hsz].
  - rewrite sparse_init_run, Hty. done.
  - assert (Hz : size (zero_block (a :: l)) = 0%nat) by lia.
    apply map_size_empty_iff in Hz.
    assert (Ha : zero_block (a :: l) !! a = Some 0).
    { rewrite zero_block_lookup, decide_True; [done|]. apply elem_of_cons. auto. }
    rewrite Hz, lookup_empty in Ha. discriminate.
Qed.

(** The store after the four assignments of the block construction. *)
Lemma build_store_sparse_run regs (s : SlaveContext) (w : World) :
  sparse s = true ->
  build_store regs (s, w) =
    (Ok tt,
     (set_store "c" (sparse_block_for TYPE_COIL (addresses_of TYPE_COIL regs))
        (set_store "d" (sparse_block_for TYPE_DISCRETE_INPUT
                          (addresses_of TYPE_DISCRETE_INPUT regs))
           (set_store "i" (sparse_block_for TYPE_INPUT_REGISTER
                             (addresses_of TYPE_INPUT_REGISTER regs))
              (set_store "h" (sparse_block_for TYPE_HOLDING_REGISTER
                                (addresses_of TYPE_HOLDING_REGISTER regs)) s))), w)).
Proof.
  intros Hsp. unfold build_store.
  unfold bind at 1, self at 1. cbn [fst]. unfold bind at 1, self at 1. cbn [fst].
  rewrite Hsp. rewrite (proj2 (group_fold regs)).
  cbn [hr_sparse_block ir_sparse_block di_sparse_block co_sparse_block].
  unfold bind, lift. rewrite !setup_sparse_block_run by reflexivity.
  reflexivity.
Qed.

Lemma sorted_head_None (l : list (option Z)) :
  None ∈ l -> sorted address_le l !! 0%nat = Some None.
Proof.
  intros Hin.
  destruct (sorted address_le l !! 0%nat) as [x|] eqn:Hx.
  - pose proof (ordered_first address_le address_le_total (sorted address_le l) x None
                  (sorted_ordered _ address_le_total address_le_trans _) Hx) as Hle.
    destruct x as [a|]; [|done].
    specialize (Hle ltac:(by apply elem_of_sorted)). discriminate.
  - apply lookup_ge_None in Hx. rewrite length_sorted in Hx.
    destruct l; [by apply elem_of_nil in Hin|cbn in Hx; lia].
Qed.

Lemma setup_sequential_block_unset l ty :
  str_in ty REGISTER_TYPES = true -> None ∈ l ->
  _setup_sequential_block l ty = Raise TypeError.
Proof.
  intros Hty Hin. unfold _setup_sequential_block. rewrite Hty. cbn [andb].
  assert (Hlen : (0 < List.length l)%nat).
  { destruct l; [by apply elem_of_nil in Hin|cbn; lia]. }
  rewrite (proj2 (Z.ltb_lt 0 (len l))) by (unfold len; lia).
  rewrite (py_getitem_first _ _ (sorted_head_None l Hin)).
  destruct (lookup_lt_is_Some_2 (sorted address_le l)
              (List.length (sorted address_le l) - 1)%nat) as [y Hy].
  { rewrite length_sorted. lia. }
  by rewrite (py_getitem_last _ _ Hy).
Qed.

Lemma map_Some_omap (l : list (option Z)) :
  None ∉ l -> l = map Some (omap id l).
Proof.
  induction l as [|[a|] l IH]; intros Hn; [done| |].
  - cbn. f_equal. apply IH. intros H. apply Hn. apply elem_of_cons. by right.
  - exfalso. apply Hn. apply elem_of_cons. by left.
Qed.

(** A group whose addresses are all set: the least and the greatest decide. *)
Lemma setup_sequential_block_set l ty :
  str_in ty REGISTER_TYPES = true -> l <> [] -> None ∉ l ->
  (one_address l /\ _setup_sequential_block l ty = Raise IndexError) \/
  ((exists a b, Some a ∈ l /\ Some b ∈ l /\ a <> b) /\
   exists b, _setup_sequential_block l ty = Ok (Some (Sequential b)) /\
             CbModbusSequentialDataBlock.register_type b = ty).
Proof.
  intros Hty Hne Hn. rewrite (map_Some_omap l Hn) in *.
  set (addresses := omap id l) in *. clearbody addresses.
  assert (Hne' : addresses <> []) by (intros ->; done).
  destruct (setup_sequential_block_run addresses ty Hty Hne')
    as (lo & hi & Hlo & Hhi & Hbounds & ->).
  rewrite (sequential_init_zeros ty lo _ Hty).
  destruct (decide (lo = hi)) as [<-|Hlt].
  - left. replace (lo - lo) with 0 by lia. split; [|reflexivity].
    split; [done|]. exists lo. intros x (a & -> & Ha)%list_elem_of_fmap.
    f_equal. specialize (Hbounds a Ha). lia.
  - right. split.
    + exists lo, hi. repeat split; [by apply list_elem_of_fmap_2..|done].
    + assert (Hlh : lo < hi) by (specialize (Hbounds lo Hlo); lia).
      destruct (Z.to_nat (hi - lo)) as [|n] eqn:E; [lia|].
      eexists. split; reflexivity.
Qed.

(** [_setup_sequential_block], by its result. *)
Lemma setup_sequential_block_cases l ty :
  str_in ty REGISTER_TYPES = true ->
  match _setup_sequential_block l ty with
  | Ok ob =>
      spans_block l /\
      match ob with
      | None => l = []
      | Some (Sequential b) => l <> [] /\ CbModbusSequentialDataBlock.register_type b = ty
      | Some (Sparse _) => False
      end
  | Raise e =>
      ~ spans_block l /\
      ((e = TypeError /\ None ∈ l) \/ (e = IndexError /\ one_address l))
  end.
Proof.
  intros Hty. destruct (decide (l = [])) as [->|Hne].
  { unfold _setup_sequential_block. rewrite Hty. cbn. split; [by left|done]. }
  destruct (decide (None ∈ l)) as [Hin|Hin].
  { rewrite (setup_sequential_block_unset l ty Hty Hin). split; [|by left].
    intros [->|[Hn _]]; done. }
  destruct (setup_sequential_block_set l ty Hty Hne Hin)
    as [[Hone ->]|[Htwo (b & -> & Hb)]].
  - split; [|by right]. intros [->|[_ (a & b & Ha & Hb & Hab)]]; [done|].
    destruct Hone as [_ (c & Hc)]. apply Hab.
    apply Hc in Ha. apply Hc in Hb. congruence.
  - split; [by right|done].
Qed.

Lemma Forall_addresses_of ty regs :
  Forall (fun reg => is_Some (address reg)) regs -> Forall is_Some (addresses_of ty regs).
Proof.
  intros Hall. unfold addresses_of. apply Forall_fmap.
  apply Forall_forall. intros reg Hin%list_elem_of_filter.
  rewrite Forall_forall in Hall. apply Hall. tauto.
Qed.

Lemma unset_addresses_of regs :
  ~ Forall (fun reg => is_Some (address reg)) regs ->
  exists ty, ty ∈ REGISTER_TYPES /\ None ∈ addresses_of ty regs.
Proof.
  intros Hn. apply not_Forall_Exists in Hn; [|intros reg; apply _].
  apply Exists_exists in Hn as (reg & Hin & Hnone). cbn in Hnone.
  exists (block_type reg). split.
  - unfold block_type, REGISTER_TYPES. repeat case_decide; set_unfold; tauto.
  - unfold addresses_of. apply list_elem_of_fmap. exists reg. split.
    + destruct (address reg) eqn:Ha; [|done]. exfalso. apply Hnone. eauto.
    + by apply list_elem_of_filter.
Qed.

Lemma build_store_sequential_unfold regs (s : SlaveContext) (w : World) :
  sparse s = false ->
  build_store regs (s, w) =
    match _setup_sequential_block (addresses_of TYPE_HOLDING_REGISTER regs)
            TYPE_HOLDING_REGISTER with
    | Raise e => (Raise e, (s, w))
    | Ok h =>
        match _setup_sequential_block (addresses_of TYPE_INPUT_REGISTER regs)
                TYPE_INPUT_REGISTER with
        | Raise e => (Raise e, (set_store "h" h s, w))
        | Ok i =>
            match _setup_sequential_block (addresses_of TYPE_DISCRETE_INPUT regs)
                    TYPE_DISCRETE_INPUT with
            | Raise e => (Raise e, (set_store "i" i (set_store "h" h s), w))
            | Ok d =>
                match _setup_sequential_block (addresses_of TYPE_COIL regs) TYPE_COIL with
                | Raise e =>
                    (Raise e, (set_store "d" d (set_store "i" i (set_store "h" h s)), w))
                | Ok c =>
                    (Ok tt, (set_store "c" c (set_store "d" d
                               (set_store "i" i (set_store "h" h s))), w))
                end
            end
        end
    end.
Proof.
  intros Hsp. unfold build_store.
  unfold bind at 1, self at 1. cbn [fst]. unfold bind at 1, self at 1. cbn [fst].
  rewrite Hsp. rewrite (proj1 (group_fold regs)).
  cbn [hr_sequential ir_sequential di_sequential co_sequential].
  unfold bind, lift, assign, on_fst, modify. cbn [fst snd].
  destruct (_setup_sequential_block (addresses_of TYPE_HOLDING_REGISTER regs) _); [|done].
  destruct (_setup_sequential_block (addresses_of TYPE_INPUT_REGISTER regs) _); [|done].
  destruct (_setup_sequential_block (addresses_of TYPE_DISCRETE_INPUT regs) _); [|done].
  destruct (_setup_sequential_block (addresses_of TYPE_COIL regs) _); done.
Qed.

(** The block construction of the sequential layout, by its result. *)
Lemma build_store_sequential_run regs (s : SlaveContext) (w : World) :
  sparse s = false ->
  match fst (build_store regs (s, w)) with
  | Ok _ =>
      (forall ty, ty ∈ REGISTER_TYPES -> spans_block (addresses_of ty regs)) /\
      exists h i d c,
        build_store regs (s, w) =
          (Ok tt, (set_store "c" c (set_store "d" d (set_store "i" i (set_store "h" h s))),
                   w)) /\
        Forall (fun '(ty, ob) =>
                  match ob with
                  | None => addresses_of ty regs = []
                  | Some (Sequential b) =>
                      addresses_of ty regs <> [] /\
                      CbModbusSequentialDataBlock.register_type b = ty
                  | Some (Sparse _) => False
                  end)
               [(TYPE_HOLDING_REGISTER, h); (TYPE_INPUT_REGISTER, i);
                (TYPE_DISCRETE_INPUT, d); (TYPE_COIL, c)]
  | Raise e =>
      exists ty, ty ∈ REGISTER_TYPES /\ ~ spans_block (addresses_of ty regs) /\
        ((e = TypeError /\ None ∈ addresses_of ty regs) \/
         (e = IndexError /\ one_address (addresses_of ty regs)))
  end.
Proof.
  intros Hsp. rewrite (build_store_sequential_unfold regs s w Hsp).
  pose proof (setup_sequential_block_cases (addresses_of TYPE_HOLDING_REGISTER regs)
                TYPE_HOLDING_REGISTER eq_refl) as Hh.
  pose proof (setup_sequential_block_cases (addresses_of TYPE_INPUT_REGISTER regs)
                TYPE_INPUT_REGISTER eq_refl) as Hi.
  pose proof (setup_sequential_block_cases (addresses_of TYPE_DISCRETE_INPUT regs)
                TYPE_DISCRETE_INPUT eq_refl) as Hd.
  pose proof (setup_sequential_block_cases (addresses_of TYPE_COIL regs)
                TYPE_COIL eq_refl) as Hc.
  assert (Hty : forall ty, ty ∈ REGISTER_TYPES <->
                  ty = TYPE_HOLDING_REGISTER \/ ty = TYPE_INPUT_REGISTER \/
                  ty = TYPE_DISCRETE_INPUT \/ ty = TYPE_COIL).
  { intros ty. unfold REGISTER_TYPES. rewrite !elem_of_cons, elem_of_nil. tauto. }
  destruct (_setup_sequential_block (addresses_of TYPE_HOLDING_REGISTER regs) _) as [h|e];
    [|cbn [fst]; exists TYPE_HOLDING_REGISTER; split; [apply Hty; tauto|exact Hh]].
  destruct (_setup_sequential_block (addresses_of TYPE_INPUT_REGISTER regs) _) as [i|e];
    [|cbn [fst]; exists TYPE_INPUT_REGISTER; split; [apply Hty; tauto|exact Hi]].
  destruct (_setup_sequential_block (addresses_of TYPE_DISCRETE_INPUT regs) _) as [d|e];
    [|cbn [fst]; exists TYPE_DISCRETE_INPUT; split; [apply Hty; tauto|exact Hd]].
  destruct (_setup_sequential_block (addresses_of TYPE_COIL regs) _) as [c|e];
    [|cbn [fst]; exists TYPE_COIL; split; [apply Hty; tauto|exact Hc]].
  cbn [fst]. destruct Hh as [Hh1 Hh2], Hi as [Hi1 Hi2], Hd as [Hd1 Hd2], Hc as [Hc1 Hc2].
  split.
  - intros ty [->|[->|[->| ->]]]%Hty; assumption.
  - exists h, i, d, c. split; [reflexivity|]. by repeat constructor.
Qed.

(** ** The template parser and the block construction, in sum *)

(** X19. When the line loop of the template parser returns, every descriptor
    has the default block size, an address that is unset or in 0..99999, a
    register type that is unset or one of the four, and a parameter id or an
    address. *)
Theorem parse_lines_descriptors_wellformed (config_file : string)
    (st st' : SlaveContext * World) (regs : list _RegisterBlockConfig) :
  parse_lines config_file st = (Ok regs, st') -> Forall wf_descriptor regs.
Proof.
  unfold parse_lines. intros H.
  eapply (for_fold_invariant parse_line (Forall wf_descriptor)); [|exact H|constructor].
  intros acc x s acc' s'. apply parse_line_wf.
Qed.

Lemma parse_lines_descriptors_wellformed_witness :
  exists regs st',
    parse_lines out_of_range_template (example_context false, example_world []) =
      (Ok regs, st') /\
    Forall wf_descriptor regs /\ List.length regs = 1%nat.
Proof.
  destruct (parse_lines out_of_range_template (example_context false, example_world []))
    as [[regs|e] st'] eqn:H; [|vm_compute in H; discriminate H].
  exists regs, st'. split; [reflexivity|]. split.
  - exact (parse_lines_descriptors_wellformed _ _ _ _ H).
  - vm_compute in H. injection H as <- _. reflexivity.
Defined.

(** X20. The line loop of the template parser, whether it returns or raises,
    leaves the proxy address, the port and the store of the context as they
    were, makes no call on the remote collection, adds only error records to
    the log, and leaves the unit id as it was or sets it to a value in
    1..254. *)
Theorem parse_lines_touches_only_parsed_attributes (config_file : string)
    (s : SlaveContext) (w : World) :
  let st' := snd (parse_lines config_file (s, w)) in
  ip_proxy (fst st') = ip_proxy s /\
  ip_port (fst st') = ip_port s /\
  store (fst st') = store s /\
  (slave_id (fst st') = slave_id s \/ 1 <= slave_id (fst st') <= 254) /\
  collection (snd st') = collection w /\
  calls (snd st') = calls w /\
  exists msgs, log (snd st') = log w ++ msgs /\ Forall (fun m => fst m = ERROR) msgs.
Proof. exact (parse_lines_frame config_file (s, w)). Qed.

(** X21. With [zero_mode] off (after [plcBaseAddress=1]) an [address=n] field
    stores [n + 1]: the addresses accepted in the template are -1..99998;
    outside of them the field is logged as an error with the shifted address
    and assigns nothing. *)
Theorem register_field_one_based (l : reg_locals) (c : string) (n : Z)
    (s : SlaveContext) (w : World) :
  zero_mode s = false ->
  has_tag TEMPLATE_PARSER_REG_UID c = false ->
  has_tag TEMPLATE_PARSER_REG_ADDRESS c = true ->
  py_int (after_tag TEMPLATE_PARSER_REG_ADDRESS c) = Ok n ->
  reg_exists l = true ->
  register_field l c (s, w) =
    if (-1 <=? n) && (n <=? 99998)
    then (Ok {| registers := assign_address (this_reg l) (n + 1) (registers l);
                reg_exists := true; this_reg := this_reg l |}, (s, w))
    else (Ok l, (s, logged ERROR (InvalidAddress (n + 1)) w)).
Proof.
  intros Hz Hu Htag Hint He.
  pose proof (register_field_assigns_address l c n s w Hu Htag Hint) as Hin.
  pose proof (register_field_invalid_address l c n s w Hu Htag Hint) as Hout.
  rewrite Hz in Hin, Hout. cbn [negb] in Hin, Hout. unfold in_range in Hin, Hout.
  destruct (Z.leb_spec (-1) n), (Z.leb_spec n 99998); cbn [andb].
  - apply Hin; [|done]. apply andb_true_iff. split; [apply Z.leb_le|apply Z.ltb_lt]; lia.
  - apply Hout. apply andb_false_iff. right. apply Z.ltb_ge. lia.
  - apply Hout. apply andb_false_iff. left. apply Z.leb_gt. lia.
  - lia.
Qed.

Lemma register_field_one_based_witness :
  let l := {| registers := [new_RegisterBlockConfig (Some 1) None];
              reg_exists := true; this_reg := Some 1 |} in
  let s := set_zero_mode false (example_context false) in
  zero_mode s = false /\
  fst (register_field l "address=-1" (s, example_world [])) =
    Ok {| registers := [{| param_id := Some 1; address := Some 0; register_type := None;
                           block_size := 1 |}];
          reg_exists := true; this_reg := Some 1 |} /\
  log (snd (snd (register_field l "address=99999" (s, example_world [])))) =
    [(ERROR, InvalidAddress 100000)].
Proof.
  intros l s. split; [reflexivity|].
  pose proof (register_field_one_based l "address=-1" (-1) s (example_world [])
                eq_refl eq_refl eq_refl eq_refl eq_refl) as H1.
  pose proof (register_field_one_based l "address=99999" 99999 s (example_world [])
                eq_refl eq_refl eq_refl eq_refl eq_refl) as H2.
  split; [exact (f_equal fst H1)|exact (f_equal (fun r => log (snd (snd r))) H2)].
Defined.

(** X22. In the sparse layout the block construction never raises and leaves
    the world alone: each of the four store keys gets no block when no
    descriptor is filed under its type, and otherwise a sparse block of that
    type with value 0 and an unset time stamp at exactly the addresses of
    those descriptors (an unset address is a key like any other). *)
Theorem build_store_sparse_never_raises (regs : list _RegisterBlockConfig)
    (s : SlaveContext) (w : World) :
  sparse s = true ->
  let r := build_store regs (s, w) in
  let blk ty := sparse_block_for ty (addresses_of ty regs) in
  fst r = Ok tt /\ snd (snd r) = w /\
  fst (snd r) =
    set_store "c" (blk TYPE_COIL)
      (set_store "d" (blk TYPE_DISCRETE_INPUT)
         (set_store "i" (blk TYPE_INPUT_REGISTER)
            (set_store "h" (blk TYPE_HOLDING_REGISTER) s))).
Proof.
  intros Hsp r blk. subst r. by rewrite (build_store_sparse_run regs s w Hsp).
Qed.

Lemma build_store_sparse_never_raises_witness :
  let regs := [{| param_id := Some 1; address := Some 5; register_type := Some "hr"%string;
                  block_size := 1 |};
               {| param_id := Some 2; address := None; register_type := Some "hr"%string;
                  block_size := 1 |}] in
  let r := build_store regs (example_context true, example_world []) in
  sparse (example_context true) = true /\
  fst r = Ok tt /\
  store (fst (snd r)) !! "h"%string =
    Some (Some (Sparse {| CbModbusSparseDataBlock.values := {[ Some 5 := 0; None := 0 ]};
                          CbModbusSparseDataBlock.register_type := "hr";
                          CbModbusSparseDataBlock.timestamps :=
                            {[ Some 5 := None; None := None ]} |})) /\
  store (fst (snd r)) !! "c"%string = Some None.
Proof.
  intros regs r. split; [reflexivity|].
  destruct (build_store_sparse_never_raises regs (example_context true) (example_world [])
              eq_refl) as (Hr & _ & Hs).
  fold r in Hr, Hs. rewrite Hr, Hs. repeat split; vm_compute; reflexivity.
Defined.

(** X23. In the sequential layout the block construction returns exactly when
    the descriptors filed under each register type are none, or all have an
    address and two of these addresses differ.  It raises [TypeError] only
    when a descriptor has no address, and [IndexError] only when the
    descriptors of a type have one address between them (the range from
    the least to the greatest address is then empty); it raises nothing
    else and leaves the world alone either way.  When it returns, each of
    the four store keys holds no block when no descriptor is filed under
    its type and a sequential block of that type otherwise. *)
Theorem build_store_sequential_returns_iff_spans (regs : list _RegisterBlockConfig)
    (s : SlaveContext) (w : World) :
  sparse s = false ->
  let r := build_store regs (s, w) in
  (is_ok (fst r) = true <->
   forall ty, ty ∈ REGISTER_TYPES -> spans_block (addresses_of ty regs)) /\
  (forall e, fst r = Raise e ->
     (e = TypeError /\ exists reg, reg ∈ regs /\ address reg = None) \/
     (e = IndexError /\
      exists ty, ty ∈ REGISTER_TYPES /\ one_address (addresses_of ty regs))) /\
  snd (snd r) = w /\
  (is_ok (fst r) = true ->
   forall ty, ty ∈ REGISTER_TYPES ->
     match store (fst (snd r)) !! store_key ty with
     | Some None => addresses_of ty regs = []
     | Some (Some (Sequential b)) =>
         addresses_of ty regs <> [] /\ CbModbusSequentialDataBlock.register_type b = ty
     | _ => False
     end).
Proof.
  intros Hsp r. subst r.
  pose proof (build_store_sequential_run regs s w Hsp) as Hrun.
  pose proof (build_store_sequential_unfold regs s w Hsp) as Hun.
  assert (Hw : snd (snd (build_store regs (s, w))) = w).
  { rewrite Hun.
    repeat (match goal with
            | |- context [match ?x with Ok _ => _ | Raise _ => _ end] => destruct x
            end; [|reflexivity]).
    reflexivity. }
  destruct (fst (build_store regs (s, w))) as [[]|e] eqn:Hr; cbn [is_ok].
  - destruct Hrun as (Hall & h & i & d & c & Heq & Hblocks).
    split; [done|]. split; [discriminate|]. split; [exact Hw|]. intros _ ty Hty.
    rewrite Heq. cbn [fst snd].
    inversion Hblocks as [|? ? Hh Hb1]; subst. inversion Hb1 as [|? ? Hi Hb2]; subst.
    inversion Hb2 as [|? ? Hd Hb3]; subst. inversion Hb3 as [|? ? Hc _]; subst.
    unfold REGISTER_TYPES in Hty.
    repeat (apply elem_of_cons in Hty as [->|Hty];
            [cbn [set_store store]; unfold store_key; cbn;
             rewrite ?lookup_insert_eq; rewrite ?lookup_insert_ne by done;
             rewrite ?lookup_insert_eq; try done|]).
    by apply elem_of_nil in Hty.
  - destruct Hrun as (ty & Hty & Hnot & Hcause).
    split; [split; [discriminate|intros Hall; by destruct (Hnot (Hall ty Hty))]|].
    split; [|split; [exact Hw|discriminate]].
    intros e' [= <-]. destruct Hcause as [[-> Hin]|[-> Hone]].
    + left. split; [done|]. unfold addresses_of in Hin.
      apply list_elem_of_fmap in Hin as (reg & Ha & Hreg%list_elem_of_filter).
      exists reg. split; [tauto|done].
    + right. split; [done|]. by exists ty.
Qed.

(** One holding register with an address and one without: [TypeError]; one
    holding register: [IndexError]; two at different addresses: a block. *)
Lemma build_store_sequential_returns_iff_spans_witness :
  let reg a := {| param_id := None; address := a; register_type := Some "hr"%string;
                  block_size := 1 |} in
  let run regs := fst (build_store regs (example_context false, example_world [])) in
  sparse (example_context false) = false /\
  run [reg (Some 5); reg None] = Raise TypeError /\
  run [reg (Some 5)] = Raise IndexError /\
  is_ok (run [reg (Some 5); reg (Some 7)]) = true.
Proof.
  intros reg run. split; [reflexivity|]. split; [reflexivity|]. split; [reflexivity|].
  apply (build_store_sequential_returns_iff_spans [reg (Some 5); reg (Some 7)]
           (example_context false) (example_world []) eq_refl).
  intros ty Hty. unfold REGISTER_TYPES in Hty.
  apply elem_of_cons in Hty as [->|Hty].
  - right. split.
    + vm_compute. intros H. apply elem_of_cons in H as [H|H]; [discriminate|].
      apply elem_of_cons in H as [H|H]; [discriminate|]. by apply elem_of_nil in H.
    + exists 5, 7. vm_compute. repeat split; [| |done].
      * apply elem_of_cons. by left.
      * apply elem_of_cons. right. apply elem_of_cons. by left.
  - left. repeat (apply elem_of_cons in Hty as [->|Hty]; [reflexivity|]).
    by apply elem_of_nil in Hty.
Defined.

(** ** The slave context and the server context: construction *)

Lemma log_grows_refl w : log_grows w w.
Proof. repeat split. exists []. by rewrite app_nil_r. Qed.

Lemma log_grows_trans a b c : log_grows a b -> log_grows b c -> log_grows a c.
Proof.
  intros (H1 & H2 & m1 & H3) (G1 & G2 & m2 & G3).
  split; [congruence|]. split; [congruence|].
  exists (m1 ++ m2). by rewrite G3, H3, app_assoc.
Qed.

Lemma log_grows_log_msg lv m w : log_grows w (snd (log_msg lv m w)).
Proof. unfold log_msg, modify. cbn. repeat split. eauto. Qed.

Lemma build_store_frame regs (s : SlaveContext) (w : World) :
  let r := build_store regs (s, w) in
  snd (snd r) = w /\
  ip_proxy (fst (snd r)) = ip_proxy s /\ ip_port (fst (snd r)) = ip_port s /\
  slave_id (fst (snd r)) = slave_id s /\ sparse (fst (snd r)) = sparse s /\
  (forall e, fst r = Raise e -> e = TypeError \/ e = IndexError).
Proof.
  intros r. subst r. destruct (sparse s) eqn:Hsp.
  - rewrite (build_store_sparse_run regs s w Hsp). cbn. repeat split; try done.
  - pose proof (build_store_sequential_run regs s w Hsp) as Hrun.
    assert (Hexn : forall e, fst (build_store regs (s, w)) = Raise e ->
                             e = TypeError \/ e = IndexError).
    { intros e He. rewrite He in Hrun.
      destruct Hrun as (_ & _ & _ & [[-> _]|[-> _]]); auto. }
    clear Hrun. revert Hexn.
    rewrite (build_store_sequential_unfold regs s w Hsp). intros Hexn.
    repeat (match goal with
            | |- context [match ?x with Ok _ => _ | Raise _ => _ end] => destruct x
            end; [|cbn; by rewrite ?Hsp]).
    cbn. by rewrite ?Hsp.
Qed.

(** [_parse_config], whether it returns or raises. *)
Lemma parse_config_frame config_file (s : SlaveContext) (w : World) :
  let r := _parse_config config_file (s, w) in
  ip_proxy (fst (snd r)) = ip_proxy s /\ ip_port (fst (snd r)) = ip_port s /\
  (slave_id (fst (snd r)) = slave_id s \/ 1 <= slave_id (fst (snd r)) <= 254) /\
  log_grows w (snd (snd r)) /\
  (forall e, fst r = Raise e -> e = ValueError \/ e = TypeError \/ e = IndexError).
Proof.
  intros r. subst r. unfold _parse_config, bind.
  pose proof (parse_lines_frame config_file (s, w)) as Hf.
  destruct (parse_lines config_file (s, w)) as [[regs|e] [s1 w1]] eqn:Hp;
    destruct Hf as (H1 & H2 & H3 & H4 & H5 & H6 & msgs & H7 & _); cbn [fst snd] in *.
  - destruct (build_store_frame regs s1 w1) as (G1 & G2 & G3 & G4 & _ & G5).
    rewrite G1, G2, G3, G4. repeat split; try done; [eauto|].
    intros e He. right. by apply G5.
  - repeat split; try done; [eauto|].
    intros e' [= <-]. left. by eapply parse_lines_raises.
Qed.


Lemma new_SlaveContext_unfold (row : rtu_row) (w : World) :
  let w0 := if String.eqb (COL_PROXY_IP_ADDRESS_ row) ""
            then logged WARNING NoProxyAddress w else w in
  let self0 : SlaveContext :=
    {| ip_proxy := COL_PROXY_IP_ADDRESS_ row; ip_port := COL_PROXY_IP_PORT row;
       slave_id := COL_SLAVE_ID_ row; zero_mode := true; identity := empty_identity;
       sparse := false; store := ∅ |} in
  new_SlaveContext row w =
    match _parse_config (COL_PROXY_CONFIG_FILE row) (self0, w0) with
    | (Ok _, (s, w1)) => (Ok s, logged DEBUG (SlaveContextComplete (ip_proxy self0)) w1)
    | (Raise e, (_, w1)) => (Raise e, w1)
    end.
Proof.
  intros w0 self0. unfold new_SlaveContext. cbn [ip_proxy]. unfold bind at 1.
  assert (Hw : (if String.eqb (COL_PROXY_IP_ADDRESS_ row) ""
                then log_msg WARNING NoProxyAddress else ret tt) w = (Ok tt, w0)).
  { subst w0. by destruct (String.eqb _ _). }
  rewrite Hw. fold self0. unfold bind.
  destruct (_parse_config _ (self0, w0)) as [[[]|e] [s1 w1]]; reflexivity.
Qed.

Lemma new_SlaveContext_frame (row : rtu_row) (w : World) :
  log_grows w (snd (new_SlaveContext row w)) /\
  (forall e, fst (new_SlaveContext row w) = Raise e ->
     e = ValueError \/ e = TypeError \/ e = IndexError).
Proof.
  rewrite new_SlaveContext_unfold. cbn zeta.
  set (w0 := if String.eqb _ _ then _ else w).
  assert (H0 : log_grows w w0).
  { subst w0. destruct (String.eqb _ _); [|apply log_grows_refl].
    repeat split. cbn. eauto. }
  match goal with
  | |- context [_parse_config ?cf (?s0, w0)] =>
      destruct (parse_config_frame cf s0 w0) as (_ & _ & _ & Hg & He);
      destruct (_parse_config cf (@pair SlaveContext World s0 w0)) as [[[]|e] [s1 w1]]
  end; cbn [fst snd] in *.
  - split; [|discriminate]. eapply log_grows_trans; [exact H0|].
    eapply log_grows_trans; [exact Hg|]. repeat split. cbn. eauto.
  - split; [by eapply log_grows_trans|]. intros e' [= <-]. by apply He.
Qed.


(** X24. Constructing a slave context makes no call on the data collection and
    only writes to the log, whether it returns or raises; and it raises
    nothing but [ValueError] (a numeric field of the template that is not an
    integer), [TypeError] (a descriptor without address in the sequential
    layout) and [IndexError] (the descriptors of a register type with one
    address between them in the sequential layout).  Each of the three is
    raised by a template of one line. *)
Theorem new_SlaveContext_raises_three (row : rtu_row) (w : World) :
  let r := new_SlaveContext row w in
  (collection (snd r) = collection w /\
   calls (snd r) = calls w /\
   (exists msgs, log (snd r) = log w ++ msgs) /\
   (forall e, fst r = Raise e -> e = ValueError \/ e = TypeError \/ e = IndexError)) /\
  (fst (new_SlaveContext (example_row 3 "paramId=abc") w) = Raise ValueError /\
   fst (new_SlaveContext (example_row 3 "paramId=1;registerType=holding") w)
     = Raise TypeError /\
   fst (new_SlaveContext (example_row 3 "paramId=1;address=5;registerType=holding") w)
     = Raise IndexError).
Proof.
  intros r. split.
  - destruct (new_SlaveContext_frame row w) as ((H1 & H2 & H3) & H4). auto.
  - repeat split; reflexivity.
Qed.



(** ** The server context *)

(** A step of the loop, whether it returns or raises. *)
Lemma initialize_slave_frame st row w :
  log_grows w (snd (initialize_slave st row w)) /\
  (forall e, fst (initialize_slave st row w) = Raise e ->
     (e = NoSuchSlaveException /\ ~ 0 <= COL_SLAVE_ID_ row <= 247) \/
     ((e = ValueError \/ e = TypeError \/ e = IndexError) /\
      fst (new_SlaveContext row w) = Raise e)).
Proof.
  unfold initialize_slave. destruct (negb _).
  - unfold bind, ret, lift, ModbusServerContext__setitem__.
    destruct (new_SlaveContext_frame row w) as [Hg He].
    destruct (new_SlaveContext row w) as [[ctx|e] w1]; cbn [fst snd] in *;
      [|split; [done|intros e' [= <-]; right; split; [by apply He|done]]].
    destruct (Z.leb_spec 0 (COL_SLAVE_ID_ row)), (Z.leb_spec (COL_SLAVE_ID_ row) 247);
      cbn [andb fst snd]; (split; [done|]); try discriminate;
      intros e [= <-]; left; (split; [done|lia]).
  - unfold bind, ret, log_msg, modify. cbn. split; [|discriminate].
    repeat split. cbn. eauto.
Qed.


(** What the loop raises was raised by the step of one of its rows. *)
Lemma initialize_loop_raises rows : forall st w e w',
  for_fold initialize_slave rows st w = (Raise e, w') ->
  exists row st0 w0, row ∈ rows /\ fst (initialize_slave st0 row w0) = Raise e.
Proof.
  induction rows as [|row rows IH]; intros st w e w' H; cbn [for_fold] in H;
    [discriminate|].
  unfold bind in H.
  destruct (initialize_slave st row w) as [[st1|e1] w1] eqn:Hstep.
  - destruct (IH _ _ _ _ H) as (r & st0 & w0 & Hin & Hr).
    exists r, st0, w0. split; [apply elem_of_cons; auto|done].
  - injection H as <- <-. exists row, st, w. split; [apply elem_of_cons; auto|].
    by rewrite Hstep.
Qed.

Lemma initialize_slaves_unfold ip_address rtus w :
  _initialize_slaves ip_address rtus w =
    for_fold initialize_slave (selected_rows ip_address rtus)
             {| slaves := []; _slaves := ∅ |}
             (logged DEBUG (FoundRows (len (selected_rows ip_address rtus)))
                (logged DEBUG (match ip_address with
                               | Some ip => QueryingByAddress ip
                               | None => QueryingBySlaveId
                               end) w)).
Proof. unfold _initialize_slaves, selected_rows. by destruct ip_address. Qed.



(** X27. Initialising the server context makes no call on the data collection
    and only writes to the log, whether it returns or raises.  What it
    raises comes from one of the rows the query selected: [ValueError],
    [TypeError] or [IndexError] as raised by the construction of the slave
    context of that row, or [NoSuchSlaveException] for a row whose unit id
    is not in 0..247; it raises nothing else, and then no server context
    exists: one row that cannot be processed aborts the initialisation for
    every row of the query. *)
Theorem initialize_slaves_raises_from_a_row (ip_address : option string)
    (rtus : list rtu_row) (w : World) :
  let r := _initialize_slaves ip_address rtus w in
  collection (snd r) = collection w /\
  calls (snd r) = calls w /\
  (exists msgs, log (snd r) = log w ++ msgs) /\
  (forall e, fst r = Raise e ->
     exists row, row ∈ selected_rows ip_address rtus /\
       ((e = NoSuchSlaveException /\ ~ 0 <= COL_SLAVE_ID_ row <= 247) \/
        ((e = ValueError \/ e = TypeError \/ e = IndexError) /\
         exists w0, fst (new_SlaveContext row w0) = Raise e))).
Proof.
  intros r. subst r. rewrite initialize_slaves_unfold.
  set (w0 := logged DEBUG _ (logged DEBUG _ w)).
  assert (H0 : log_grows w w0).
  { subst w0. repeat split. cbn. rewrite <- app_assoc. eauto. }
  pose proof (for_fold_frame log_grows log_grows_refl log_grows_trans initialize_slave
                (selected_rows ip_address rtus)
                (fun acc x s => proj1 (initialize_slave_frame acc x s))
                {| slaves := []; _slaves := ∅ |} w0) as Hg.
  destruct (log_grows_trans _ _ _ H0 Hg) as (H1 & H2 & H3).
  split; [done|]. split; [done|]. split; [done|].
  intros e He.
  destruct (for_fold initialize_slave _ _ w0) as [[st|e'] w1] eqn:Hrun; [discriminate|].
  injection He as ->.
  destruct (initialize_loop_raises _ _ _ _ _ Hrun) as (row & st1 & w2 & Hin & Hstep).
  exists row. split; [exact Hin|].
  destruct (proj2 (initialize_slave_frame st1 row w2) e Hstep) as [H|[H Hnew]];
    [by left|right; eauto].
Qed.

(** A unit id of 250 is valid for the template parser and is refused by the
    mapping. *)
Example initialize_slaves_unit_id_example :
  fst (_initialize_slaves None [example_row 250 holding_template] (example_world []))
    = Raise NoSuchSlaveException.
Proof. vm_compute. reflexivity. Qed.

(** ** The discovery of the proxies *)

Lemma str_in_elem_of x l : str_in x l = true <-> x ∈ l.
Proof.
  unfold str_in. rewrite existsb_exists. split.
  - intros (y & Hy & He). apply String.eqb_eq in He as ->. by apply list_elem_of_In.
  - intros Hin. exists x. split; [by apply list_elem_of_In|apply String.eqb_refl].
Qed.

Lemma first_row_app ip rows rows' :
  first_row ip (rows ++ rows') =
  match first_row ip rows with Some r => Some r | None => first_row ip rows' end.
Proof.
  unfold first_row. induction rows as [|r rows IH]; [done|].
  cbn. by destruct (String.eqb _ ip).
Qed.

Lemma first_row_None ip rows :
  first_row ip rows = None <-> forall r, r ∈ rows -> COL_PROXY_IP_ADDRESS_ r <> ip.
Proof.
  unfold first_row. induction rows as [|r rows IH]; cbn.
  - split; [|done]. intros _ r Hr. by apply elem_of_nil in Hr.
  - destruct (String.eqb_spec (COL_PROXY_IP_ADDRESS_ r) ip) as [He|Hne].
    + split; [done|]. intros H. destruct (H r); [apply elem_of_cons; auto|done].
    + rewrite IH. split.
      * intros H r' [->|Hr']%elem_of_cons; auto.
      * intros H r' Hr'. apply H, elem_of_cons. auto.
Qed.

(** The discovery loop after the rows [rows]. *)
Lemma discover_loop rows :
  let '(p, lg) := fold_left discover_proxy rows
                    ({| ip_proxies := []; proxy_ports := [] |}, []) in
  NoDup (ip_proxies p) /\
  (forall ip, ip ∈ ip_proxies p <-> exists r, r ∈ rows /\ COL_PROXY_IP_ADDRESS_ r = ip) /\
  (forall i ip, ip_proxies p !! i = Some ip ->
                proxy_ports p !! i = COL_PROXY_IP_PORT <$> first_row ip rows) /\
  List.length (proxy_ports p) = List.length (ip_proxies p) /\
  List.length lg = List.length rows.
Proof.
  induction rows as [|row rows IH] using rev_ind.
  - cbn. split; [constructor|]. split; [|done]. intros ip. split.
    + by intros ?%elem_of_nil.
    + by intros (r & ?%elem_of_nil & _).
  - rewrite fold_left_app. cbn [fold_left].
    destruct (fold_left discover_proxy rows _) as [p lg].
    destruct IH as (Hnd & Hmem & Hport & Hlen & Hlg).
    unfold discover_proxy.
    destruct (str_in (COL_PROXY_IP_ADDRESS_ row) (ip_proxies p)) eqn:Hin; cbn [negb].
    + apply str_in_elem_of in Hin.
      split; [done|]. split; [|split; [|split]].
      * intros ip. rewrite Hmem. split.
        -- intros (r & Hr & He). exists r. split; [apply elem_of_app; auto|done].
        -- intros (r & [Hr|Hr%list_elem_of_singleton]%elem_of_app & He); [eauto|].
           subst r. apply Hmem. by rewrite <- He.
      * intros i ip Hi. rewrite (Hport i ip Hi), first_row_app.
        destruct (first_row ip rows) as [r|] eqn:Hf; [done|].
        exfalso. apply list_elem_of_lookup_2, Hmem in Hi as (r & Hr & He).
        rewrite first_row_None in Hf. by apply (Hf r).
      * done.
      * rewrite !length_app. cbn. lia.
    + assert (Hnew : COL_PROXY_IP_ADDRESS_ row ∉ ip_proxies p).
      { intros H%str_in_elem_of. congruence. }
      cbn [ip_proxies proxy_ports].
      split; [|split; [|split; [|split]]].
      * apply NoDup_app. split; [done|]. split; [|apply NoDup_singleton].
        intros x Hx ->%list_elem_of_singleton. done.
      * intros ip. rewrite elem_of_app, list_elem_of_singleton, Hmem. split.
        -- intros [(r & Hr & He)| ->].
           ++ exists r. split; [apply elem_of_app; auto|done].
           ++ exists row. split; [|done]. apply elem_of_app. right.
              by apply list_elem_of_singleton.
        -- intros (r & [Hr|Hr%list_elem_of_singleton]%elem_of_app & He); [eauto|].
           subst r. by right.
      * intros i ip Hi. rewrite first_row_app.
        apply lookup_app_Some in Hi as [Hi|[Hge Hi]].
        -- rewrite lookup_app_l by (rewrite Hlen; by eapply lookup_lt_Some).
           rewrite (Hport i ip Hi).
           destruct (first_row ip rows) as [r|] eqn:Hf; [done|].
           exfalso. apply list_elem_of_lookup_2, Hmem in Hi as (r & Hr & He).
           rewrite first_row_None in Hf. by apply (Hf r).
        -- apply list_lookup_singleton_Some in Hi as [Hi <-].
           rewrite lookup_app_r by lia. rewrite Hlen, Hi. cbn.
           assert (Hf : first_row (COL_PROXY_IP_ADDRESS_ row) rows = None).
           { apply first_row_None. intros r Hr He. apply Hnew, Hmem. eauto. }
           rewrite Hf. unfold first_row. cbn. by rewrite String.eqb_refl.
      * rewrite !length_app. cbn. lia.
      * rewrite !length_app. cbn. lia.
Qed.

(** X28. The discovery loop of [run_async_server]: the proxy addresses it
    keeps are pairwise distinct and are exactly the non-empty proxy
    addresses of the configuration rows; the port kept for an address, at
    the same position of the second list, is the port of the first row of
    that address (a later row with another port is logged as a duplicate and
    ignored); one record is logged per row of the query. *)
Theorem discover_proxies_first_seen (rtus : list rtu_row) :
  let p := fst (discover_proxies rtus) in
  NoDup (ip_proxies p) /\
  (forall ip, ip ∈ ip_proxies p <->
              ip <> EmptyString /\ exists r, r ∈ rtus /\ COL_PROXY_IP_ADDRESS_ r = ip) /\
  (forall i ip, ip_proxies p !! i = Some ip ->
                proxy_ports p !! i = COL_PROXY_IP_PORT <$> first_row ip rtus) /\
  List.length (proxy_ports p) = List.length (ip_proxies p) /\
  List.length (snd (discover_proxies rtus)) =
    List.length (filter (fun r => COL_PROXY_IP_ADDRESS_ r <> EmptyString) rtus).
Proof.
  intros p. subst p. unfold discover_proxies.
  set (rows := filter (fun r => COL_PROXY_IP_ADDRESS_ r <> EmptyString) rtus).
  pose proof (discover_loop rows) as H.
  destruct (fold_left discover_proxy rows _) as [p lg].
  destruct H as (Hnd & Hmem & Hport & Hlen & Hlg). cbn [fst snd].
  assert (Hne : forall ip, ip ∈ ip_proxies p -> ip <> EmptyString).
  { intros ip (r & Hr & <-)%Hmem. by apply list_elem_of_filter in Hr as [? _]. }
  split; [done|]. split; [|split; [|by split]].
  - intros ip. split.
    + intros Hin. split; [by apply Hne|].
      apply Hmem in Hin as (r & Hr & He). apply list_elem_of_filter in Hr as [_ Hr]. eauto.
    + intros (Hn & r & Hr & He). apply Hmem. exists r. split; [|done].
      apply list_elem_of_filter. split; [by rewrite He|done].
  - intros i ip Hi. rewrite (Hport i ip Hi). f_equal.
    pose proof (Hne ip (list_elem_of_lookup_2 _ _ _ Hi)) as Hn.
    unfold first_row, rows. clear -Hn. induction rtus as [|r rtus IH]; [done|].
    rewrite filter_cons. cbn.
    destruct (decide (COL_PROXY_IP_ADDRESS_ r <> EmptyString)) as [Hr|Hr]; cbn.
    + by destruct (String.eqb _ ip).
    + destruct (String.eqb_spec (COL_PROXY_IP_ADDRESS_ r) ip) as [He|_]; [|done].
      exfalso. apply Hr. by rewrite He.
Qed.
